(** * cyberdog_vision: the vision manager's scheduling core

    A shallow embedding of [src/src/vision_manager.cpp]: the overlap ratio
    [GetIOU], the report conversions and [AddReid], the tracking-target
    resolver [GetMatchBody] / [TrackingService], the algorithm switchboard
    [SetAlgoState] / [AlgoManagerService], the lifecycle callbacks
    [on_activate] / [on_deactivate] with [CallService], the face enrollment
    task [FaceDetProc], and the two stage managers with their six worker
    loops as an interleaving transition system; further the configuration
    calls of [InitIPC], the time stamp of [ImageProc], what [DestoryThread]
    and [WakeThread] do while the threads still run, and the wrapper
    [GetGestureInfo] of [src/src/gesture_recognition.cpp].

    Conventions.
    - [uint32_t] and [int] values are integers of [Z]; every arithmetic
      operation of the source is followed by the wrap-around of its C++
      type ([u32], [i32], [size_t]).
    - [std::vector] is [list]; [v[i]] and [v.back()] outside the bounds are
      undefined behaviour in C++, which the embedding reports as
      [OutOfRange i n] instead of inventing a value.
    - A [double] that is a quotient of two 32-bit integers is named by the
      exact rational it is the rounding of (or it is an infinity, or NaN,
      for a zero divisor): an [int] and a [uint32_t] convert to [double]
      without loss and the division rounds its exact result once.  The
      comparisons of the source are made on the rounded values
      ([binary64]), so that two quotients which differ as rationals and
      round to one [double] compare as equal.
    - [DestoryThread] runs beside the threads it joins: it is executed
      statement by statement under a schedule that says who moves next,
      and a [join] is a step only once its thread has returned.
    - The inference engines are external collaborators: what they return is
      an input of the embedding (an event payload or a function of the
      collaborator's abstract state). *)

From Stdlib Require Import ZArith QArith Lia Bool List String.
From stdpp Require Import base tactics option list pretty.
Import ListNotations.

Local Open Scope Z_scope.

(** ** Machine integers *)

Definition u32 (z : Z) : Z := z mod 2 ^ 32.
Definition i32 (z : Z) : Z := (z + 2 ^ 31) mod 2 ^ 32 - 2 ^ 31.
Definition size_t (z : Z) : Z := z mod 2 ^ 64.

(** ** Results of code that can leave the bounds of a vector *)

Inductive Exec (A : Type) : Type :=
| Done (a : A)
| OutOfRange (index size : Z).
Arguments Done {A} a.
Arguments OutOfRange {A} index size.

#[global] Instance Exec_ret : MRet Exec := @Done.
#[global] Instance Exec_bind : MBind Exec := fun A B k c =>
  match c with
  | Done a => k a
  | OutOfRange i n => OutOfRange i n
  end.

Definition size {A : Type} (v : list A) : Z := Z.of_nat (length v).

(** [v[i]] for a [size_t] index. *)
Definition at_index {A : Type} (v : list A) (i : Z) : Exec A :=
  if size v <=? i then OutOfRange i (size v)
  else match v !! Z.to_nat i with
       | Some a => Done a
       | None => OutOfRange i (size v)
       end.

(** [v[i] = f(v[i])]: an in-place update of element [i]. *)
Definition update_at {A : Type} (v : list A) (i : Z) (f : A -> A) : Exec (list A) :=
  a ← at_index v i; Done (<[Z.to_nat i := f a]> v).

(** [v.back()] *)
Definition back {A : Type} (v : list A) : Exec A :=
  match last v with
  | Some a => Done a
  | None => OutOfRange (-1) 0
  end.

(** ** Doubles that are quotients of machine integers *)

Inductive double : Type :=
| NaN
| Inf (negative : bool)
| Fin (q : Q).

(** [n / static_cast<double>(d)] for an [int] [n] and a [uint32_t] [d]. *)
Definition ddiv (n d : Z) : double :=
  if d =? 0 then
    (if n =? 0 then NaN else Inf (n <? 0))
  else Fin (Qred (n # Z.to_pos d)).

Definition Qltb (a b : Q) : bool := (Qnum a * QDen b <? Qnum b * QDen a)%Z.

(** [2^k] for [k >= 0], and 1 below. *)
Definition pow2 (k : Z) : Z := 2 ^ Z.max 0 k.

(** The binary64 number nearest to a rational [q], ties to the even
    significand: with [2^e <= |q| < 2^(e+1)], the 53-bit significand is
    [|q| * 2^(52-e)] rounded to an integer.  The exponent range and the
    subnormal numbers play no part: a quotient of two 32-bit integers
    that is not zero lies between [2^-32] and [2^31]. *)
Definition binary64 (q : Q) : Q :=
  let a := Z.abs (Qnum q) in
  let d := Zpos (Qden q) in
  if a =? 0 then 0
  else
    let e0 := Z.log2 a - Z.log2 d in
    let e := if a * pow2 (- e0) <? d * pow2 e0 then e0 - 1 else e0 in
    let num := a * pow2 (52 - e) in
    let den := d * pow2 (e - 52) in
    let m0 := num / den in
    let rem := num mod den in
    let m := if (den <? 2 * rem) || ((den =? 2 * rem) && Z.odd m0)
             then m0 + 1 else m0 in
    (Z.sgn (Qnum q) * m * pow2 (e - 52)) # Z.to_pos (pow2 (52 - e)).

(** [a > b] on doubles: false as soon as one side is NaN. *)
Definition dgt (a b : double) : bool :=
  match a, b with
  | NaN, _ | _, NaN => false
  | Inf na, Inf nb => negb na && nb
  | Inf na, Fin _ => negb na
  | Fin _, Inf nb => nb
  | Fin x, Fin y => Qltb (binary64 y) (binary64 x)
  end.

(** [a == b] on doubles: false as soon as one side is NaN. *)
Definition deq (a b : double) : bool :=
  match a, b with
  | Inf na, Inf nb => Bool.eqb na nb
  | Fin x, Fin y => Qeq_bool (binary64 x) (binary64 y)
  | _, _ => false
  end.

Definition half : double := Fin (1 # 2).
Definition dzero : double := Fin 0.

(** ** Regions *)

(** [sensor_msgs::msg::RegionOfInterest]: four [uint32] fields. *)
Record RegionOfInterest : Type := mkROI {
  x_offset : Z;
  y_offset : Z;
  width : Z;
  height : Z
}.

(** [HumanBodyInfo], one detected body; the fields are [uint32_t], as the
    calls [std::min], [std::max] with a [RegionOfInterest] field require. *)
Record HumanBodyInfo : Type := mkBody {
  b_left : Z;
  b_top : Z;
  b_width : Z;
  b_height : Z
}.

(** [cv::Rect]: four [int] fields. *)
Record Rect : Type := mkRect {
  rect_x : Z;
  rect_y : Z;
  rect_width : Z;
  rect_height : Z
}.

(** [BodyFrameInfo]: the detections of one frame. *)
Abbreviation BodyFrameInfo := (list HumanBodyInfo).

(** [Convert(const RegionOfInterest &)] and [Convert(const cv::Rect &)] *)
Definition Convert_roi (roi : RegionOfInterest) : Rect :=
  mkRect (i32 (x_offset roi)) (i32 (y_offset roi)) (i32 (width roi)) (i32 (height roi)).

Definition Convert_rect (bbox : Rect) : RegionOfInterest :=
  mkROI (u32 (rect_x bbox)) (u32 (rect_y bbox)) (u32 (rect_width bbox)) (u32 (rect_height bbox)).

(** [GetIOU].  The subtraction [min(..) - max(..)] is a [uint32_t]
    subtraction, [std::max(.., (uint32_t)0)] compares it with zero as an
    unsigned number, and the result is then stored in an [int]. *)
Definition overlap (lo1 len1 lo2 len2 : Z) : Z :=
  i32 (Z.max (u32 (Z.min (u32 (lo1 + len1)) (u32 (lo2 + len2)) - Z.max lo1 lo2)) 0).

Definition GetIOU (b1 : HumanBodyInfo) (b2 : RegionOfInterest) : double :=
  let w := overlap (b_left b1) (b_width b1) (x_offset b2) (width b2) in
  let h := overlap (b_top b1) (b_height b1) (y_offset b2) (height b2) in
  ddiv (i32 (w * h))
       (u32 (u32 (u32 (b_width b1 * b_height b1) + u32 (width b2 * height b2))
             - u32 (i32 (w * h)))).


(** ** The frame report *)

(** An image payload is opaque to the manager: only its identity matters. *)
Definition Mat : Type := Z.

Record Header : Type := mkHeader { stamp : Z }.

Record StampedImage : Type := mkStamped {
  img : Mat;
  header : Header
}.

Record KeypointT : Type := mkKeypoint { kp_x : Q; kp_y : Q }.

Record GestureT : Type := mkGesture {
  gesture_roi : RegionOfInterest;
  cls : Z
}.

Record BodyT : Type := mkBodyT {
  roi : RegionOfInterest;
  reid : string;
  gesture : GestureT;
  keypoints : list KeypointT
}.

Record BodyInfoT : Type := mkBodyInfo {
  body_header : Header;
  count : Z;
  infos : list BodyT
}.

Record FaceT : Type := mkFace {
  face_roi : RegionOfInterest;
  face_id : string;
  face_score : Q;
  face_match : Q;
  face_yaw : Q;
  face_pitch : Q;
  face_row : Q;
  face_age : Q;
  face_emotion : Q
}.

Record FaceInfoT : Type := mkFaceInfo {
  face_header : Header;
  face_count : Z;
  face_infos : list FaceT
}.

Record TrackResultT : Type := mkTrackResult {
  track_header : Header;
  track_roi : RegionOfInterest
}.

Record PersonInfoT : Type := mkPerson {
  person_header : Header;
  body_info : BodyInfoT;
  face_info : FaceInfoT;
  track_res : TrackResultT
}.

Inductive TrackingStatusT : Type := STATUS_SELECTING | STATUS_TRACKING.

(** Default-constructed messages. *)
Definition roi0 : RegionOfInterest := mkROI 0 0 0 0.
Definition header0 : Header := mkHeader 0.
Definition gesture0 : GestureT := mkGesture roi0 0.
Definition keypoint0 : KeypointT := mkKeypoint 0 0.
Definition body0 : BodyT := mkBodyT roi0 EmptyString gesture0 [].
Definition person_info0 : PersonInfoT :=
  mkPerson header0 (mkBodyInfo header0 0 []) (mkFaceInfo header0 0 [])
           (mkTrackResult header0 roi0).

Definition set_infos (l : list BodyT) (b : BodyInfoT) : BodyInfoT :=
  mkBodyInfo (body_header b) (count b) l.
Definition set_reid (s : string) (b : BodyT) : BodyT :=
  mkBodyT (roi b) s (gesture b) (keypoints b).
Definition set_gesture (g : GestureT) (b : BodyT) : BodyT :=
  mkBodyT (roi b) (reid b) g (keypoints b).
Definition set_keypoints (k : list KeypointT) (b : BodyT) : BodyT :=
  mkBodyT (roi b) (reid b) (gesture b) k.
Definition set_body_info (b : BodyInfoT) (p : PersonInfoT) : PersonInfoT :=
  mkPerson (person_header p) b (face_info p) (track_res p).
Definition set_face_info (f : FaceInfoT) (p : PersonInfoT) : PersonInfoT :=
  mkPerson (person_header p) (body_info p) f (track_res p).
Definition set_track_res (t : TrackResultT) (p : PersonInfoT) : PersonInfoT :=
  mkPerson (person_header p) (body_info p) (face_info p) t.
Definition set_person_header (h : Header) (p : PersonInfoT) : PersonInfoT :=
  mkPerson h (body_info p) (face_info p) (track_res p).

(** [Convert(header, const BodyFrameInfo &, BodyInfoT &)]: the body list of
    the report is cleared and rebuilt from the detections. *)
Definition Convert_body (h : Header) (from : BodyFrameInfo) (to : BodyInfoT) : BodyInfoT :=
  mkBodyInfo h (size from)
    (map (fun b => mkBodyT (mkROI (b_left b) (b_top b) (b_width b) (b_height b))
                           EmptyString gesture0 []) from).

(** What the face engine returns for one face. *)
Record MatchFaceInfo : Type := mkMatchFace {
  mf_left : Z; mf_top : Z; mf_right : Z; mf_bottom : Z;
  mf_face_id : string;
  mf_score : Q;
  match_score : Q;
  poses : list Q;
  ages : list Q;
  emotions : list Q
}.

Definition Convert_one_face (f : MatchFaceInfo) : Exec FaceT :=
  yaw ← at_index (poses f) 0;
  pitch ← at_index (poses f) 1;
  row ← at_index (poses f) 2;
  age ← at_index (ages f) 0;
  emotion ← at_index (emotions f) 0;
  Done (mkFace (mkROI (u32 (mf_left f)) (u32 (mf_top f))
                      (u32 (mf_right f - mf_left f)) (u32 (mf_bottom f - mf_top f)))
               (mf_face_id f) (mf_score f) (match_score f) yaw pitch row age emotion).

Fixpoint Convert_faces (from : list MatchFaceInfo) : Exec (list FaceT) :=
  match from with
  | [] => Done []
  | f :: rest =>
      face ← Convert_one_face f;
      faces ← Convert_faces rest;
      Done (face :: faces)
  end.

(** [Convert(header, const std::vector<MatchFaceInfo> &, FaceInfoT &)] *)
Definition Convert_face (h : Header) (from : list MatchFaceInfo) (to : FaceInfoT)
  : Exec FaceInfoT :=
  faces ← Convert_faces from; Done (mkFaceInfo h (size from) faces).

(** [Convert(header, const cv::Rect &, TrackResultT &)] *)
Definition Convert_track (h : Header) (from : Rect) (to : TrackResultT) : TrackResultT :=
  mkTrackResult h (Convert_rect from).

Record GestureInfo : Type := mkGestureInfo {
  rect : Rect;
  label : Z
}.

(** [for (i = first; ...; ++i) to.infos[i] = f(from[i], to.infos[i])]: the
    common loop of the two stage-2 conversions, which index the body list of
    the report by the position of the engine's answer. *)
Fixpoint write_by_position {A : Type} (f : A -> BodyT -> BodyT)
    (from : list A) (i : Z) (to : list BodyT) : Exec (list BodyT) :=
  match from with
  | [] => Done to
  | a :: rest =>
      to' ← update_at to i (f a);
      write_by_position f rest (i + 1) to'
  end.

(** [Convert(const std::vector<GestureInfo> &, BodyInfoT &)] *)
Definition Convert_gesture (from : list GestureInfo) (to : BodyInfoT) : Exec BodyInfoT :=
  l ← write_by_position
        (fun g => set_gesture (mkGesture (Convert_rect (rect g)) (label g)))
        from 0 (infos to);
  Done (set_infos l to).

Definition kKeypointsNum : Z := 17.
(** [sizeof(cv::Point2f)]: two 4-byte floats. *)
Definition sizeof_Point2f : Z := 8.

(** [v.resize(n)]: truncate, or pad with default elements. *)
Definition resize {A : Type} (d : A) (n : Z) (v : list A) : list A :=
  take (Z.to_nat n) v ++ replicate (Z.to_nat n - length v) d.

(** [Convert(const std::vector<std::vector<cv::Point2f>> &, BodyInfoT &)] *)
Definition Convert_keypoints (from : list (list KeypointT)) (to : BodyInfoT)
  : Exec BodyInfoT :=
  l ← write_by_position
        (fun pts b =>
           set_keypoints (resize keypoint0 (kKeypointsNum * sizeof_Point2f) (keypoints b)
                          ++ pts) b)
        from 0 (infos to);
  Done (set_infos l to).

(** The scan of [AddReid]: the index of the body with the largest overlap. *)
Fixpoint AddReid_scan (tracked : Rect) (l : list BodyT) (i : Z)
    (iou_max : double) (index : Z) : Z :=
  match l with
  | [] => index
  | b :: rest =>
      let body := mkBody (u32 (rect_x tracked)) (u32 (rect_y tracked))
                         (u32 (rect_width tracked)) (u32 (rect_height tracked)) in
      let iou := GetIOU body (roi b) in
      if dgt iou iou_max
      then AddReid_scan tracked rest (i + 1) iou (i32 i)
      else AddReid_scan tracked rest (i + 1) iou_max index
  end.

(** [AddReid]: it returns at once unless the body list is empty. *)
Definition AddReid (body_info : BodyInfoT) (id : Z) (tracked : Rect) : Exec BodyInfoT :=
  if negb (size (infos body_info) =? 0) then Done body_info
  else
    let index := AddReid_scan tracked (infos body_info) 0 dzero 0 in
    l ← update_at (infos body_info) index (set_reid (pretty.pretty id));
    Done (set_infos l body_info).

(** ** The algorithms and the node's shared members *)

Inductive Algo : Type := Body | Face | Focus | ReID | Gesture | Keypoints.

#[global] Instance Algo_eq_dec : EqDecision Algo.
Proof. solve_decision. Defined.

(** One slot per algorithm: the six [open_*_] flags, the six
    [*_struct_.is_called] flags, the six worker threads. *)
Record PerAlgo (A : Type) : Type := mkPerAlgo {
  of_body : A; of_face : A; of_focus : A;
  of_reid : A; of_gesture : A; of_keypoints : A
}.
Arguments mkPerAlgo {A}.
Arguments of_body {A}. Arguments of_face {A}. Arguments of_focus {A}.
Arguments of_reid {A}. Arguments of_gesture {A}. Arguments of_keypoints {A}.

Definition get {A : Type} (a : Algo) (p : PerAlgo A) : A :=
  match a with
  | Body => of_body p | Face => of_face p | Focus => of_focus p
  | ReID => of_reid p | Gesture => of_gesture p | Keypoints => of_keypoints p
  end.

Definition set {A : Type} (a : Algo) (v : A) (p : PerAlgo A) : PerAlgo A :=
  match a with
  | Body => mkPerAlgo v (of_face p) (of_focus p) (of_reid p) (of_gesture p) (of_keypoints p)
  | Face => mkPerAlgo (of_body p) v (of_focus p) (of_reid p) (of_gesture p) (of_keypoints p)
  | Focus => mkPerAlgo (of_body p) (of_face p) v (of_reid p) (of_gesture p) (of_keypoints p)
  | ReID => mkPerAlgo (of_body p) (of_face p) (of_focus p) v (of_gesture p) (of_keypoints p)
  | Gesture => mkPerAlgo (of_body p) (of_face p) (of_focus p) (of_reid p) v (of_keypoints p)
  | Keypoints => mkPerAlgo (of_body p) (of_face p) (of_focus p) (of_reid p) (of_gesture p) v
  end.

Definition every {A : Type} (v : A) : PerAlgo A := mkPerAlgo v v v v v v.

(** [GlobalImageBuf]: the latest-frame cell. *)
Record GlobalImageBuf : Type := mkImageBuf {
  img_filled : bool;
  img_buf : list StampedImage
}.

(** [BodyResults]: the detection history, with the one image kept beside
    it. *)
Record BodyResults : Type := mkBodyResults {
  body_filled : bool;
  body_infos : list BodyFrameInfo;
  detection_img : StampedImage
}.

Definition buf_size_ : Z := 6.

(** The history update of [BodyDet], made under [body_results_.mtx] after a
    successful [Detect]: evict the oldest entry of a full history, append,
    replace the stored image, raise the stage-2 trigger. *)
Definition BodyDet_push (stamped_img : StampedImage) (detected : BodyFrameInfo)
    (r : BodyResults) : BodyResults :=
  let kept := if buf_size_ <=? size (body_infos r)
              then drop 1 (body_infos r) else body_infos r in
  mkBodyResults true (kept ++ [detected]) stamped_img.

(** The members of [VisionManager] that the manager and worker threads
    share. *)
Record Node : Type := mkNode {
  is_activate_ : bool;
  open_ : PerAlgo bool;
  is_called : PerAlgo bool;
  process_num : Z;
  global_img_buf_ : GlobalImageBuf;
  body_results_ : BodyResults;
  algo_result_ : PersonInfoT;
  processing_status_ : TrackingStatusT
}.

Definition set_is_activate (v : bool) (n : Node) : Node :=
  mkNode v (open_ n) (is_called n) (process_num n) (global_img_buf_ n)
         (body_results_ n) (algo_result_ n) (processing_status_ n).
Definition set_open (v : PerAlgo bool) (n : Node) : Node :=
  mkNode (is_activate_ n) v (is_called n) (process_num n) (global_img_buf_ n)
         (body_results_ n) (algo_result_ n) (processing_status_ n).
Definition set_is_called (v : PerAlgo bool) (n : Node) : Node :=
  mkNode (is_activate_ n) (open_ n) v (process_num n) (global_img_buf_ n)
         (body_results_ n) (algo_result_ n) (processing_status_ n).
Definition set_process_num (v : Z) (n : Node) : Node :=
  mkNode (is_activate_ n) (open_ n) (is_called n) v (global_img_buf_ n)
         (body_results_ n) (algo_result_ n) (processing_status_ n).
Definition set_global_img_buf (v : GlobalImageBuf) (n : Node) : Node :=
  mkNode (is_activate_ n) (open_ n) (is_called n) (process_num n) v
         (body_results_ n) (algo_result_ n) (processing_status_ n).
Definition set_body_results (v : BodyResults) (n : Node) : Node :=
  mkNode (is_activate_ n) (open_ n) (is_called n) (process_num n) (global_img_buf_ n)
         v (algo_result_ n) (processing_status_ n).
Definition set_algo_result (v : PersonInfoT) (n : Node) : Node :=
  mkNode (is_activate_ n) (open_ n) (is_called n) (process_num n) (global_img_buf_ n)
         (body_results_ n) v (processing_status_ n).
Definition set_processing_status (v : TrackingStatusT) (n : Node) : Node :=
  mkNode (is_activate_ n) (open_ n) (is_called n) (process_num n) (global_img_buf_ n)
         (body_results_ n) (algo_result_ n) v.

Definition open_body_ (n : Node) : bool := get Body (open_ n).
Definition open_face_ (n : Node) : bool := get Face (open_ n).
Definition open_focus_ (n : Node) : bool := get Focus (open_ n).
Definition open_reid_ (n : Node) : bool := get ReID (open_ n).
Definition open_gesture_ (n : Node) : bool := get Gesture (open_ n).
Definition open_keypoints_ (n : Node) : bool := get Keypoints (open_ n).

(** The node as its constructor leaves it, before any service call. *)
Definition node0 : Node :=
  mkNode false (every false) (every false) 0
         (mkImageBuf false []) (mkBodyResults false [] (mkStamped 0 header0))
         person_info0 STATUS_SELECTING.

(** ** Tracking-target resolution *)

(** [cv::Rect(b.left, b.top, b.width, b.height)] *)
Definition body_rect (b : HumanBodyInfo) : Rect :=
  mkRect (i32 (b_left b)) (i32 (b_top b)) (i32 (b_width b)) (i32 (b_height b)).

(** The inner loop of [GetMatchBody] over one history entry: [max_score]
    and [track_rect] after the entry's detections have been compared with
    the requested region. *)
Fixpoint match_entry (entry : BodyFrameInfo) (roi : RegionOfInterest)
    (max_score : double) (track_rect : Rect) : double * Rect :=
  match entry with
  | [] => (max_score, track_rect)
  | b :: rest =>
      let score := GetIOU b roi in
      if dgt score max_score && dgt score half
      then match_entry rest roi score (body_rect b)
      else match_entry rest roi max_score track_rect
  end.

(** The outer loop, [for (size_t i = ...; i > 0 && !is_found; --i)], by
    recursion on the loop variable [i]: [Some (track_img, track_rect)] when
    an entry was found. *)
Fixpoint match_scan (r : BodyResults) (roi : RegionOfInterest)
    (i : nat) (track_rect : Rect) : Exec (option (Mat * Rect)) :=
  match i with
  | O => Done None
  | S i' =>
      entry ← at_index (body_infos r) (Z.of_nat i);
      let '(max_score, track_rect') := match_entry entry roi dzero track_rect in
      if dgt max_score half
      then Done (Some (img (detection_img r), track_rect'))
      else match_scan r roi i' track_rect'
  end.

Definition rect0 : Rect := mkRect 0 0 0 0.

(** The search of [GetMatchBody]: the loop starts at
    [body_infos.size() - 1], computed in [size_t]. *)
Definition find_match (r : BodyResults) (roi : RegionOfInterest)
  : Exec (option (Mat * Rect)) :=
  let i := size_t (size (body_infos r) - 1) in
  if (0 <? i) && (size (body_infos r) <=? i)
  then OutOfRange i (size (body_infos r))
  else match_scan r roi (Z.to_nat i) rect0.

(** The two tracker engines, seen from the manager: an abstract state and
    the calls the manager makes on it. *)
Class Trackers : Type := {
  AutoTrack : Type;
  PersonReID : Type;
  focus_ResetTracker : AutoTrack -> AutoTrack;
  focus_SetTracker : AutoTrack -> Mat -> Rect -> bool * AutoTrack;
  reid_ResetTracker : PersonReID -> PersonReID;
  reid_SetTracker : PersonReID -> Mat -> Rect -> Z * PersonReID
}.

(** [GetMatchBody]: the return code and the ReID engine afterwards. *)
Definition GetMatchBody `{Trackers} (r : BodyResults) (reid_ptr_ : PersonReID)
    (roi : RegionOfInterest) : Exec (Z * PersonReID) :=
  found ← find_match r roi;
  match found with
  | Some (track_img, track_rect) =>
      let '(ret, reid') := reid_SetTracker reid_ptr_ track_img track_rect in
      if negb (ret =? 0) then Done (-1, reid') else Done (0, reid')
  | None => Done (-1, reid_ptr_)
  end.

(** ** The node with its engines and control-plane members *)

Definition FaceLibrary : Type := list (string * list Q).

Record VisionManager `{Trackers} : Type := mkVM {
  node : Node;
  focus_ptr_ : AutoTrack;
  reid_ptr_ : PersonReID;
  face_library_ : FaceLibrary;
  face_detect_ : bool;
  (** the nine threads of [CreateThread] exist and have not been joined *)
  threads_running : bool;
  (** the three lifecycle publishers are activated *)
  publishers_active : bool
}.
Arguments mkVM {_} _ _ _ _ _ _ _.

Section ControlPlane.
Context `{Trackers}.

Definition set_node (n : Node) (vm : VisionManager) : VisionManager :=
  mkVM n (focus_ptr_ vm) (reid_ptr_ vm) (face_library_ vm) (face_detect_ vm)
       (threads_running vm) (publishers_active vm).
Definition set_focus_ptr (f : AutoTrack) (vm : VisionManager) : VisionManager :=
  mkVM (node vm) f (reid_ptr_ vm) (face_library_ vm) (face_detect_ vm)
       (threads_running vm) (publishers_active vm).
Definition set_reid_ptr (r : PersonReID) (vm : VisionManager) : VisionManager :=
  mkVM (node vm) (focus_ptr_ vm) r (face_library_ vm) (face_detect_ vm)
       (threads_running vm) (publishers_active vm).
Definition set_face_library (l : FaceLibrary) (vm : VisionManager) : VisionManager :=
  mkVM (node vm) (focus_ptr_ vm) (reid_ptr_ vm) l (face_detect_ vm)
       (threads_running vm) (publishers_active vm).
Definition set_threads_running (b : bool) (vm : VisionManager) : VisionManager :=
  mkVM (node vm) (focus_ptr_ vm) (reid_ptr_ vm) (face_library_ vm) (face_detect_ vm)
       b (publishers_active vm).
Definition set_publishers_active (b : bool) (vm : VisionManager) : VisionManager :=
  mkVM (node vm) (focus_ptr_ vm) (reid_ptr_ vm) (face_library_ vm) (face_detect_ vm)
       (threads_running vm) b.

(** [TrackingService]: [res] is [res->success] as the caller constructed
    it; the result is [res->success] and the node afterwards. *)
Definition TrackingService (vm : VisionManager) (req_roi : RegionOfInterest)
    (res : bool) : Exec (bool * VisionManager) :=
  '(res1, vm1) ←
    (if open_reid_ (node vm) then
       '(ret, reid') ← GetMatchBody (body_results_ (node vm)) (reid_ptr_ vm) req_roi;
       if negb (ret =? 0)
       then Done (false, set_reid_ptr reid' vm)
       else Done (true,
                  set_node (set_processing_status STATUS_TRACKING (node vm))
                           (set_reid_ptr reid' vm))
     else Done (res, vm));
  if open_focus_ (node vm1) then
    stamped_img ← back (img_buf (global_img_buf_ (node vm1)));
    let rect := Convert_roi req_roi in
    let '(ok, focus') := focus_SetTracker (focus_ptr_ vm1) (img stamped_img) rect in
    if negb ok
    then Done (false, set_focus_ptr focus' vm1)
    else Done (true,
               set_node (set_processing_status STATUS_TRACKING (node vm1))
                        (set_focus_ptr focus' vm1))
  else Done (res1, vm1).

(** *** Enabling and disabling algorithms *)

(** The constants of the [AlgoList] and [AlgoManager] interface files,
    which are not part of the sources at hand: they are parameters. *)
Class AlgoProtocol : Type := {
  ALGO_FACE : Z;
  ALGO_BODY : Z;
  ALGO_GESTURE : Z;
  ALGO_KEYPOINTS : Z;
  ALGO_REID : Z;
  ALGO_FOCUS : Z;
  ENABLE_SUCCESS : Z;
  DISABLE_SUCCESS : Z
}.
Context `{AlgoProtocol}.

Record AlgoListT : Type := mkAlgoList { algo_module : Z }.

Record AlgoManagerRequest : Type := mkAlgoRequest {
  algo_enable : list AlgoListT;
  algo_disable : list AlgoListT
}.

Record AlgoManagerResponse : Type := mkAlgoResponse {
  result_enable : Z;
  result_disable : Z
}.

(** [LoadFaceLibrary]: [disk] is the face library file as it can be read,
    [None] when it cannot be opened.  [std::map::insert] keeps the first
    feature stored under a name. *)
Definition map_insert (kv : string * list Q) (m : FaceLibrary) : FaceLibrary :=
  if existsb (fun e => String.eqb (fst e) (fst kv)) m then m else m ++ [kv].

Definition LoadFaceLibrary (disk : option FaceLibrary) (library : FaceLibrary)
  : Z * FaceLibrary :=
  match disk with
  | None => (-1, library)
  | Some entries => (0, fold_left (fun m kv => map_insert kv m) entries [])
  end.

Definition set_flag (a : Algo) (value : bool) (vm : VisionManager) : VisionManager :=
  set_node (set_open (set a value (open_ (node vm))) (node vm)) vm.

(** [SetAlgoState]: the [switch] over [algo_list.algo_module]. *)
Definition SetAlgoState (disk : option FaceLibrary) (algo_list : AlgoListT)
    (value : bool) (vm : VisionManager) : VisionManager :=
  let m := algo_module algo_list in
  if m =? ALGO_FACE then
    let vm' := set_flag Face value vm in
    if value
    then set_face_library (snd (LoadFaceLibrary disk (face_library_ vm'))) vm'
    else vm'
  else if m =? ALGO_BODY then set_flag Body value vm
  else if m =? ALGO_GESTURE then set_flag Gesture value vm
  else if m =? ALGO_KEYPOINTS then set_flag Keypoints value vm
  else if m =? ALGO_REID then set_flag ReID value vm
  else if m =? ALGO_FOCUS then set_flag Focus value vm
  else vm.

(** [AlgoManagerService] *)
Definition AlgoManagerService (disk : option FaceLibrary) (req : AlgoManagerRequest)
    (vm : VisionManager) : AlgoManagerResponse * VisionManager :=
  let vm1 := fold_left (fun v a => SetAlgoState disk a true v) (algo_enable req) vm in
  let vm2 := fold_left (fun v a => SetAlgoState disk a false v) (algo_disable req) vm1 in
  (mkAlgoResponse ENABLE_SUCCESS DISABLE_SUCCESS, vm2).

(** *** Lifecycle *)

Inductive ReturnResultT : Type := SUCCESS | FAILURE.

(** The camera service as one call meets it: whether it shows up within the
    ten seconds of [wait_for_service], and the [result] field of its answer,
    [None] when no answer arrives within the callback's wait. *)
Record CameraService : Type := mkCamera {
  service_available : bool;
  service_reply : option Z
}.

(** The callback [client_cb] handed to [async_send_request]. *)
Definition client_cb (reply : option Z) : bool :=
  match reply with
  | Some r => if negb (r =? 0) then false else true
  | None => false
  end.

(** [CallService]: the request is sent asynchronously and the value of the
    callback is not read. *)
Definition CallService (cam : CameraService) : bool :=
  if negb (service_available cam) then false
  else let _ := client_cb (service_reply cam) in true.

(** [CreateThread] *)
Definition CreateThread (vm : VisionManager) : VisionManager :=
  set_threads_running true vm.

(** [ResetAlgo] *)
Definition ResetAlgo (vm : VisionManager) : VisionManager :=
  let vm1 := set_focus_ptr (focus_ResetTracker (focus_ptr_ vm)) vm in
  let vm2 := set_reid_ptr (reid_ResetTracker (reid_ptr_ vm1)) vm1 in
  set_node (set_open (every false) (node vm2)) vm2.

(** [on_activate] *)
Definition on_activate (cam : CameraService) (vm : VisionManager)
  : ReturnResultT * VisionManager :=
  if negb (CallService cam) then (FAILURE, vm)
  else
    let vm1 := set_node (set_is_activate true (node vm)) vm in
    let vm2 := CreateThread vm1 in
    let vm3 := set_publishers_active true vm2 in
    (SUCCESS, set_node (set_processing_status STATUS_SELECTING (node vm3)) vm3).

End ControlPlane.

(** [on_deactivate] joins the threads of the node; it follows their
    transition system, further down. *)

(** ** Face enrollment *)

Record FaceResultT : Type := mkFaceResult {
  result : Z;
  msg : string;
  (** [face_images]: the frame id and the encoded image *)
  face_images : list (string * Mat)
}.

(** [publishFaceResult]: the message handed to [face_result_pub_]. *)
Definition publishFaceResult (code : Z) (face_name : string) (image : Mat)
    (face_msg : string) : FaceResultT :=
  if (code =? 0) || (code =? 17)
  then mkFaceResult code face_msg [(face_name, image)]
  else mkFaceResult code face_msg [].

(** What one evaluation of the loop test of [FaceDetProc] reads, and what
    the iteration that follows it is given: the seconds since the start,
    the flag [face_detect_], the frame taken from the latest-frame cell,
    the code and message of [checkFacePose], and [match_info] after
    [GetRecognitionResult]. *)
Record Observation : Type := mkObs {
  elapsed : Z;
  detect : bool;
  frame : Mat;
  pose_ret : Z;
  pose_msg : string;
  match_info : list MatchFaceInfo
}.

(** A task that has returned, or one that is still inside its loop when
    the observations end (it waits for the next frame). *)
Inductive Enrollment : Type :=
| Returned (pub : list FaceResultT)
| Running (pub : list FaceResultT).

Definition events (e : Enrollment) : list FaceResultT :=
  match e with Returned pub | Running pub => pub end.

(** The statement after the loop: [detect_after] is [face_detect_] as it is
    read there. *)
Definition FaceDetProc_end (detect_after get_face_timeout : bool)
    (face_name : string) (mat_tmp : Mat) (pub : list FaceResultT) : Enrollment :=
  if get_face_timeout && detect_after
  then Returned (pub ++ [publishFaceResult 3 face_name mat_tmp "timeout"])
  else Returned pub.

(** The literal [0.65] that [match_score], a [float], is compared with: no
    [float] lies between 65/100 and the binary64 value of the literal. *)
Definition duplicate_threshold : Q := 65 # 100.

(** The loop of [FaceDetProc]. *)
Fixpoint FaceDetProc_loop (obs : list Observation) (detect_after : bool)
    (get_face_timeout : bool) (face_name : string) (mat_tmp : Mat)
    (pub : list FaceResultT) : Enrollment :=
  match obs with
  | [] => Running pub
  | o :: rest =>
      if (elapsed o <? 40) && detect o then
        let mat_tmp := frame o in
        let '(ret, face_name, message) :=
          if pose_ret o =? 0 then
            match match_info o with
            | m :: _ =>
                if Qltb duplicate_threshold (match_score m)
                then (17, mf_face_id m, "face already in endlib"%string)
                else (0, face_name, pose_msg o)
            | [] => (0, face_name, pose_msg o)
            end
          else (pose_ret o, face_name, pose_msg o) in
        let pub := pub ++ [publishFaceResult ret face_name mat_tmp message] in
        if (ret =? 0) || (ret =? 17)
        then FaceDetProc_end detect_after false face_name mat_tmp pub
        else FaceDetProc_loop rest detect_after true face_name mat_tmp pub
      else FaceDetProc_end detect_after get_face_timeout face_name mat_tmp pub
  end.

(** [FaceDetProc] *)
Definition FaceDetProc (face_name : string) (obs : list Observation)
    (detect_after : bool) : Enrollment :=
  FaceDetProc_loop obs detect_after true face_name 0 [].

(** The commands of the [FaceManager] service; a value outside the six is
    [Unsupported]. *)
Inductive FaceCommand : Type :=
| ADD_FACE | CANCLE_ADD_FACE | CONFIRM_LAST_FACE
| UPDATE_FACE_ID | DELETE_FACE | GET_ALL_FACES
| Unsupported (code : Z).

Record FaceRequest : Type := mkFaceRequest {
  command : FaceCommand;
  username : string;
  oriname : string;
  ishost : bool
}.

Record FaceResponse : Type := mkFaceResponse {
  response_result : Z;
  response_msg : string
}.

(** The part of the node the face service works on: the cancel flag, the
    enrollment tasks it has started, and what [face_result_pub_] has
    published. *)
Record FaceSession : Type := mkSession {
  session_detect : bool;
  started : list string;
  face_result_pub : list FaceResultT
}.

(** [FaceManagerService].  [fm_ret] and [fm_msg] are what the face library
    singleton answers to the call the command makes on it;
    [RESULT_INVALID_ARGS] is a constant of the interface file. *)
Definition FaceManagerService (RESULT_INVALID_ARGS fm_ret : Z) (fm_msg : string)
    (request : FaceRequest) (s : FaceSession) : FaceResponse * FaceSession :=
  let empty (x : string) := (String.length x =? 0)%nat in
  match command request with
  | ADD_FACE =>
      if empty (username request) then (mkFaceResponse (-1) "", s)
      else (mkFaceResponse 0 "",
            mkSession true (started s ++ [username request]) (face_result_pub s))
  | CANCLE_ADD_FACE =>
      (mkFaceResponse fm_ret "", mkSession false (started s) (face_result_pub s))
  | CONFIRM_LAST_FACE =>
      if empty (username request) then (mkFaceResponse (-1) "", s)
      else (mkFaceResponse fm_ret "", s)
  | UPDATE_FACE_ID =>
      if empty (username request) || empty (oriname request)
      then (mkFaceResponse (-1) "", s)
      else (mkFaceResponse fm_ret "", s)
  | DELETE_FACE =>
      if empty (username request) then (mkFaceResponse (-1) "", s)
      else (mkFaceResponse fm_ret "", s)
  | GET_ALL_FACES => (mkFaceResponse 0 fm_msg, s)
  | Unsupported _ => (mkFaceResponse RESULT_INVALID_ARGS "", s)
  end.

(** A started task publishes through the session's publisher. *)
Definition run_enrollment (face_name : string) (obs : list Observation)
    (detect_after : bool) (s : FaceSession) : FaceSession :=
  mkSession (session_detect s) (started s)
            (face_result_pub s ++ events (FaceDetProc face_name obs detect_after)).

(** ** The two stage managers and the six workers

    Every thread is cut at its blocking waits and critical sections: one
    step of a thread runs from one such point to the next, and a schedule
    is a list of steps.  What an engine answers is carried by the step. *)

Inductive Stage : Type := Main | Depend.

#[global] Instance Stage_eq_dec : EqDecision Stage.
Proof. solve_decision. Defined.

(** The trigger blocks of [MainAlgoManager] and of [DependAlgoManager], in
    source order. *)
Definition stage_workers (st : Stage) : list Algo :=
  match st with
  | Main => [Body; Face; Focus]
  | Depend => [ReID; Gesture; Keypoints]
  end.

Definition stage_of (a : Algo) : Stage :=
  match a with
  | Body | Face | Focus => Main
  | ReID | Gesture | Keypoints => Depend
  end.

Inductive ManagerPc : Type :=
| MWaitTrigger               (* in [cond.wait] for the stage's [is_filled] *)
| MTrigger (rest : list Algo) (* before the trigger blocks of [rest] *)
| MWaitZero                  (* in [cond.wait] for [0 == process_num] *)
| MStatus                    (* report published, before the status test *)
| MExit.

(** The locals a worker carries from the engine call to its store block. *)
Inductive Output : Type :=
| OBody (h : Header) (detected : BodyFrameInfo)
| OFace (h : Header) (faces : list MatchFaceInfo)
| OFocus (h : Header) (is_success : bool) (tracked : Rect)
| OReID (person_id : Z) (tracked_bbox : Rect)
| OGesture (is_success : bool) (gestures : list GestureInfo)
| OKeypoints (bodies_keypoints : list (list KeypointT)).

Inductive WorkerPc : Type :=
| WWait                          (* in [cond.wait] for [is_called] *)
| WAwake                         (* flag cleared, [is_activate_] seen true *)
| WImage (stamped_img : StampedImage) (* holds a copy of [img_buf.back()] *)
| WStore (o : Output)            (* engine done, before the store block *)
| WExit.

(** What an engine call returns. *)
Inductive Reply : Type :=
| RBody (ret : Z) (detected : BodyFrameInfo)
| RFace (ret : Z) (faces : list MatchFaceInfo)
| RFocus (is_success : bool) (tracked : Rect) (lost : bool)
| RReID (ret : Z) (person_id : Z) (tracked_bbox : Rect) (lost : bool)
| RGesture (ret : Z) (gestures : list GestureInfo)
| RKeypoints (bodies_keypoints : list (list KeypointT)).

Inductive Event : Type :=
| Ingest (stamped_img : StampedImage)  (* [ImageProc] stores a frame *)
| Manager (st : Stage) (now : Z)       (* a manager runs to its next point *)
| Wake (a : Algo)                      (* a worker leaves its wait *)
| Snapshot (a : Algo)                  (* a stage-1 worker copies the frame *)
| Infer (a : Algo) (r : Reply)         (* a worker's engine call *)
| Store (a : Algo).                    (* a worker's store block *)

Record System : Type := mkSystem {
  shared : Node;
  main_pc : ManagerPc;
  depend_pc : ManagerPc;
  worker_pc : PerAlgo WorkerPc;
  person_pub : list PersonInfoT;
  status_pub : list TrackingStatusT
}.

Definition set_shared (n : Node) (s : System) : System :=
  mkSystem n (main_pc s) (depend_pc s) (worker_pc s) (person_pub s) (status_pub s).
Definition manager_pc (st : Stage) (s : System) : ManagerPc :=
  match st with Main => main_pc s | Depend => depend_pc s end.
Definition set_manager_pc (st : Stage) (pc : ManagerPc) (s : System) : System :=
  match st with
  | Main => mkSystem (shared s) pc (depend_pc s) (worker_pc s) (person_pub s) (status_pub s)
  | Depend => mkSystem (shared s) (main_pc s) pc (worker_pc s) (person_pub s) (status_pub s)
  end.
Definition set_worker_pc (a : Algo) (pc : WorkerPc) (s : System) : System :=
  mkSystem (shared s) (main_pc s) (depend_pc s) (set a pc (worker_pc s))
           (person_pub s) (status_pub s).
Definition publish_person (p : PersonInfoT) (s : System) : System :=
  mkSystem (shared s) (main_pc s) (depend_pc s) (worker_pc s)
           (person_pub s ++ [p]) (status_pub s).
Definition publish_status (t : TrackingStatusT) (s : System) : System :=
  mkSystem (shared s) (main_pc s) (depend_pc s) (worker_pc s)
           (person_pub s) (status_pub s ++ [t]).

(** The outcome of one step: the next state, a step that its thread cannot
    take in this state, or an access outside a vector. *)
Inductive Step : Type :=
| Next (s : System)
| NotEnabled
| Undefined (index size : Z).

Definition from_exec {A : Type} (c : Exec A) (k : A -> Step) : Step :=
  match c with
  | Done a => k a
  | OutOfRange i n => Undefined i n
  end.

(** One trigger block of a manager:
    [if (open_x_) { lock; if (!x_struct_.is_called) { process_num++;
    is_called = true; notify } }].  The counter stays between 0 and 12 in
    every run of an Active session, as shown further down, so the
    arithmetic on it never wraps. *)
Definition trigger (a : Algo) (n : Node) : Node :=
  if get a (open_ n) then
    if negb (get a (is_called n)) then
      set_is_called (set a true (is_called n))
                    (set_process_num (process_num n + 1) n)
    else n
  else n.

(** The flag a manager sleeps on, and its reset on waking. *)
Definition stage_filled (st : Stage) (n : Node) : bool :=
  match st with
  | Main => img_filled (global_img_buf_ n)
  | Depend => body_filled (body_results_ n)
  end.

Definition clear_filled (st : Stage) (n : Node) : Node :=
  match st with
  | Main =>
      set_global_img_buf (mkImageBuf false (img_buf (global_img_buf_ n))) n
  | Depend =>
      set_body_results
        (mkBodyResults false (body_infos (body_results_ n))
                       (detection_img (body_results_ n))) n
  end.

(** The condition under which a manager goes on to publish. *)
Definition publish_gate (st : Stage) (n : Node) : bool :=
  match st with
  | Main =>
      negb (open_gesture_ n) && negb (open_keypoints_ n) && negb (open_reid_ n)
      && (open_body_ n || open_face_ n || open_focus_ n)
  | Depend => open_gesture_ n || open_keypoints_ n || open_reid_ n
  end.

(** [MainAlgoManager] and [DependAlgoManager], one step. *)
Definition manager_step (st : Stage) (now : Z) (s : System) : Step :=
  let n := shared s in
  match manager_pc st s with
  | MWaitTrigger =>
      if stage_filled st n then
        let pc := if negb (is_activate_ n) then MExit
                  else MTrigger (stage_workers st) in
        Next (set_manager_pc st pc (set_shared (clear_filled st n) s))
      else NotEnabled
  | MTrigger (a :: rest) =>
      Next (set_manager_pc st (MTrigger rest) (set_shared (trigger a n) s))
  | MTrigger [] =>
      Next (set_manager_pc st (if publish_gate st n then MWaitZero else MWaitTrigger) s)
  | MWaitZero =>
      if process_num n =? 0 then
        let report := set_person_header (mkHeader now) (algo_result_ n) in
        Next (set_manager_pc st MStatus
                (publish_person report
                   (set_shared (set_algo_result person_info0 n) s)))
      else NotEnabled
  | MStatus =>
      Next (set_manager_pc st MWaitTrigger
              (if open_body_ n || open_focus_ n
               then publish_status (processing_status_ n) s else s))
  | MExit => NotEnabled
  end.

(** The loop head of every worker: wait for [is_called], clear it, leave
    if the node is not active. *)
Definition wake_step (a : Algo) (s : System) : Step :=
  let n := shared s in
  match get a (worker_pc s) with
  | WWait =>
      if get a (is_called n) then
        let pc := if negb (is_activate_ n) then WExit else WAwake in
        Next (set_worker_pc a pc
                (set_shared (set_is_called (set a false (is_called n)) n) s))
      else NotEnabled
  | _ => NotEnabled
  end.

(** [stamped_img = global_img_buf_.img_buf.back()] of the stage-1 workers. *)
Definition snapshot_step (a : Algo) (s : System) : Step :=
  match stage_of a, get a (worker_pc s) with
  | Main, WAwake =>
      from_exec (back (img_buf (global_img_buf_ (shared s))))
                (fun stamped_img => Next (set_worker_pc a (WImage stamped_img) s))
  | _, _ => NotEnabled
  end.

Definition note_lost (lost : bool) (n : Node) : Node :=
  if lost then set_processing_status STATUS_SELECTING n else n.

(** The engine call of each worker, with what the worker does around it
    outside the store block. *)
Definition infer_step (a : Algo) (r : Reply) (s : System) : Step :=
  let n := shared s in
  match a, get a (worker_pc s), r with
  | Body, WImage stamped_img, RBody ret detected =>
      let n' := if negb (ret =? -1)
                then set_body_results
                       (BodyDet_push stamped_img detected (body_results_ n)) n
                else n in
      Next (set_worker_pc a (WStore (OBody (header stamped_img) detected))
              (set_shared n' s))
  | Face, WImage stamped_img, RFace ret faces =>
      Next (set_worker_pc a (WStore (OFace (header stamped_img) faces)) s)
  | Focus, WImage stamped_img, RFocus is_success tracked lost =>
      Next (set_worker_pc a (WStore (OFocus (header stamped_img) is_success tracked))
              (set_shared (note_lost lost n) s))
  | ReID, WAwake, RReID ret person_id tracked_bbox lost =>
      from_exec (back (body_infos (body_results_ n)))
        (fun _ => Next (set_worker_pc a (WStore (OReID person_id tracked_bbox))
                          (set_shared (note_lost lost n) s)))
  | Gesture, WAwake, RGesture ret gestures =>
      from_exec (back (body_infos (body_results_ n)))
        (fun _ => Next (set_worker_pc a (WStore (OGesture (negb (ret =? -1)) gestures)) s))
  | Keypoints, WAwake, RKeypoints bodies_keypoints =>
      from_exec (back (body_infos (body_results_ n)))
        (fun _ => Next (set_worker_pc a (WStore (OKeypoints bodies_keypoints)) s))
  | _, _, _ => NotEnabled
  end.

(** What a store block writes into [algo_result_]. *)
Definition write_result (o : Output) (p : PersonInfoT) : Exec PersonInfoT :=
  match o with
  | OBody h detected =>
      Done (set_body_info (Convert_body h detected (body_info p)) p)
  | OFace h faces =>
      f ← Convert_face h faces (face_info p); Done (set_face_info f p)
  | OFocus h is_success tracked =>
      if is_success
      then Done (set_track_res (Convert_track h tracked (track_res p)) p)
      else Done p
  | OReID person_id tracked_bbox =>
      if negb (person_id =? -1) then
        b ← AddReid (body_info p) person_id tracked_bbox;
        Done (set_track_res (Convert_track (body_header b) tracked_bbox (track_res p))
                (set_body_info b p))
      else Done p
  | OGesture is_success gestures =>
      if is_success
      then b ← Convert_gesture gestures (body_info p); Done (set_body_info b p)
      else Done p
  | OKeypoints bodies_keypoints =>
      b ← Convert_keypoints bodies_keypoints (body_info p); Done (set_body_info b p)
  end.

(** The store block of every worker, under [algo_proc_.mtx] and
    [result_mtx_]: [process_num--], then the worker's fields. *)
Definition store_step (a : Algo) (s : System) : Step :=
  let n := shared s in
  match get a (worker_pc s) with
  | WStore o =>
      from_exec (write_result o (algo_result_ n))
        (fun p => Next (set_worker_pc a WWait
                          (set_shared
                             (set_algo_result p
                                (set_process_num (process_num n - 1) n)) s)))
  | _ => NotEnabled
  end.

(** [ImageProc]: the new frame replaces the old one. *)
Definition ingest_step (stamped_img : StampedImage) (s : System) : Step :=
  let n := shared s in
  if is_activate_ n
  then Next (set_shared (set_global_img_buf (mkImageBuf true [stamped_img]) n) s)
  else NotEnabled.

Definition step (e : Event) (s : System) : Step :=
  match e with
  | Ingest stamped_img => ingest_step stamped_img s
  | Manager st now => manager_step st now s
  | Wake a => wake_step a s
  | Snapshot a => snapshot_step a s
  | Infer a r => infer_step a r s
  | Store a => store_step a s
  end.

Fixpoint run (evs : list Event) (s : System) : Step :=
  match evs with
  | [] => Next s
  | e :: rest =>
      match step e s with
      | Next s' => run rest s'
      | stuck => stuck
      end
  end.

(** The threads as [CreateThread] starts them on a node. *)
Definition boot (n : Node) : System :=
  mkSystem n MWaitTrigger MWaitTrigger (every WWait) [] [].

(** A node on which no trigger is pending: the state [on_activate] finds
    after construction. *)
Definition quiescent (n : Node) : Prop :=
  is_activate_ n = true /\ process_num n = 0 /\ is_called n = every false.

(** A node activated with the algorithms [opens] enabled. *)
Definition active (opens : PerAlgo bool) : Node :=
  set_open opens (set_is_activate true node0).

Definition only (l : list Algo) : PerAlgo bool :=
  fold_right (fun a p => set a true p) (every false) l.

(** ** Concrete engines and inputs for the examples *)

(** Engines that record the calls made on them: a tracker is the list of
    the targets it was given, most recent last, and every call succeeds. *)
Definition log_trackers : Trackers :=
  {| AutoTrack := list (Mat * Rect);
     PersonReID := list (Mat * Rect);
     focus_ResetTracker := fun _ => [];
     focus_SetTracker := fun t m r => (true, t ++ [(m, r)]);
     reid_ResetTracker := fun _ => [];
     reid_SetTracker := fun t m r => (0, t ++ [(m, r)]) |}.

(** Interface constants for the examples. *)
Definition sample_protocol : AlgoProtocol :=
  {| ALGO_FACE := 0; ALGO_BODY := 1; ALGO_GESTURE := 2;
     ALGO_KEYPOINTS := 3; ALGO_REID := 4; ALGO_FOCUS := 5;
     ENABLE_SUCCESS := 0; DISABLE_SUCCESS := 0 |}.

(** A node in an Active session with the recording engines: threads
    running, Body and ReID enabled, a ReID target set. *)
Definition sample_vm : @VisionManager log_trackers :=
  @mkVM log_trackers (active (only [Body; ReID])) [] [(1, mkRect 10 10 50 50)]
        [] false true true.

(** The same node before activation: no thread, nothing enabled. *)
Definition idle_vm : @VisionManager log_trackers :=
  @mkVM log_trackers node0 [] [] [] false false false.

(** An identifier that is none of the six modules of a protocol. *)
Definition unknown_module `{AlgoProtocol} (m : Z) : Prop :=
  m <> ALGO_FACE /\ m <> ALGO_BODY /\ m <> ALGO_GESTURE /\
  m <> ALGO_KEYPOINTS /\ m <> ALGO_REID /\ m <> ALGO_FOCUS.

(** A report none of whose bodies carries a ReID annotation. *)
Definition no_reid (p : PersonInfoT) : Prop :=
  Forall (fun b => reid b = EmptyString) (infos (body_info p)).

(** The event one frame yields when its pose check fails with a code that
    is neither 0 nor 17. *)
Definition pose_event (o : Observation) : FaceResultT :=
  mkFaceResult (pose_ret o) (pose_msg o) [].

(** A frame taken before the deadline with the cancel flag not raised,
    on which the pose check fails. *)
Definition rejected (o : Observation) : Prop :=
  elapsed o < 40 /\ detect o = true /\ pose_ret o <> 0 /\ pose_ret o <> 17.

(** Only the last event of a list may be OK (0) or DUPLICATE (17). *)
Definition closing_only_last (l : list FaceResultT) : Prop :=
  forall i e, l !! i = Some e -> result e = 0 \/ result e = 17 ->
              S i = length l.

(** A session in which no enrollment has been requested. *)
Definition session0 : FaceSession := mkSession false [] [].

(** ** Vocabulary of the tracking-target resolver *)

(** A detection whose overlap ratio with the requested region, as [GetIOU]
    computes it, exceeds one half; an entry that holds such a detection. *)
Definition exceeds_half (roi : RegionOfInterest) (b : HumanBodyInfo) : Prop :=
  dgt (GetIOU b roi) half = true.

Definition qualifies (roi : RegionOfInterest) (entry : BodyFrameInfo) : Prop :=
  Exists (exceeds_half roi) entry.

(** The detection of an entry with the largest ratio, the first one among
    those whose ratios are equal as doubles. *)
Definition selected (roi : RegionOfInterest) (entry : BodyFrameInfo)
    (b : HumanBodyInfo) : Prop :=
  exists j : nat,
    entry !! j = Some b /\ exceeds_half roi b /\
    (forall c, c ∈ entry -> dgt (GetIOU c roi) (GetIOU b roi) = false) /\
    (forall (k : nat) c, (k < j)%nat -> entry !! k = Some c ->
                         deq (GetIOU c roi) (GetIOU b roi) = false).

(** What [GetMatchBody] returns once a target is found: the engine's
    answer to [SetTracker] decides. *)
Definition tracker_set `{Trackers} (reid_ptr_ : PersonReID) (image : Mat)
    (target : Rect) : Z * PersonReID :=
  let '(ret, reid') := reid_SetTracker reid_ptr_ image target in
  (if ret =? 0 then 0 else -1, reid').

(** What [TrackingService] (ReID enabled, Focus not) makes of the outcome
    of [GetMatchBody]: success and the status "tracking" for the code 0,
    failure otherwise, with the engine as the call left it. *)
Definition tracking_answer `{Trackers} (vm : VisionManager)
    (outcome : Z * PersonReID) : bool * VisionManager :=
  if fst outcome =? 0
  then (true, set_node (set_processing_status STATUS_TRACKING (node vm))
                       (set_reid_ptr (snd outcome) vm))
  else (false, set_reid_ptr (snd outcome) vm).

(** The state of the inner loop of [GetMatchBody] after the detections
    [pre] of an entry, entered with [track_rect = start]: either nothing
    exceeded one half yet, or [m] and [rc] are those of the best detection
    so far. *)
Definition scanned (roi : RegionOfInterest) (pre : BodyFrameInfo) (start : Rect)
    (m : double) (rc : Rect) : Prop :=
  (m = dzero /\ rc = start /\ Forall (fun c => ~ exceeds_half roi c) pre) \/
  (exists (j : nat) b,
      pre !! j = Some b /\ m = GetIOU b roi /\ rc = body_rect b /\
      exceeds_half roi b /\
      (forall c, c ∈ pre -> dgt (GetIOU c roi) m = false) /\
      (forall (k : nat) c, (k < j)%nat -> pre !! k = Some c ->
                           deq (GetIOU c roi) m = false)).

(** The detection history after two detections, a frame with no body
    (image 1) and a frame with a body at (10,10,50,50) (image 2), and after
    a third one, a frame with a body far away (image 3). *)
Definition history2 : BodyResults :=
  BodyDet_push (mkStamped 2 (mkHeader 2)) [mkBody 10 10 50 50]
    (BodyDet_push (mkStamped 1 (mkHeader 1)) []
       (mkBodyResults false [] (mkStamped 0 header0))).

Definition history3 : BodyResults :=
  BodyDet_push (mkStamped 3 (mkHeader 3)) [mkBody 300 300 20 20] history2.

(** ** Vocabulary of the scheduler *)

Definition b2z (b : bool) : Z := if b then 1 else 0.

(** A worker between its wake-up and the end of its store block. *)
Definition busy (pc : WorkerPc) : Z :=
  match pc with
  | WAwake | WImage _ | WStore _ => 1
  | WWait | WExit => 0
  end.

Definition total {A : Type} (f : A -> Z) (p : PerAlgo A) : Z :=
  f (of_body p) + f (of_face p) + f (of_focus p)
  + f (of_reid p) + f (of_gesture p) + f (of_keypoints p).

(** The triggers not yet worked off: flags still set, and workers under
    way. *)
Definition pending (s : System) : Z :=
  total b2z (is_called (shared s)) + total busy (worker_pc s).

(** What every state of an Active session satisfies: the one counter
    equals the number of pending triggers of both stages. *)
Definition counted (s : System) : Prop :=
  is_activate_ (shared s) = true /\
  process_num (shared s) = pending s /\
  (forall a, get a (worker_pc s) <> WExit).




Definition is_manager (e : Event) : bool :=
  match e with Manager _ _ => true | _ => false end.




(** *** Schedules for the examples *)

Definition frame1 : StampedImage := mkStamped 1 (mkHeader 1).
Definition frame2 : StampedImage := mkStamped 2 (mkHeader 2).

(** A manager running from its wake-up through its three trigger blocks
    and its publish test. *)
Definition manager_round (st : Stage) : list Event := repeat (Manager st 0) 5.

Definition body_A : HumanBodyInfo := mkBody 10 10 50 50.
Definition body_C : HumanBodyInfo := mkBody 200 200 30 30.
Definition gesture_A : GestureInfo := mkGestureInfo (mkRect 20 20 5 5) 3.


(** Body and Gesture enabled: the first frame is worked off by Body, the
    Gesture worker is under way on it when the second frame arrives and
    Body is triggered again; then Gesture stores. *)
Definition second_frame_early : list Event :=
  [Ingest frame1] ++ manager_round Main
  ++ [Wake Body; Snapshot Body; Infer Body (RBody 0 [body_A]); Store Body]
  ++ manager_round Depend
  ++ [Wake Gesture; Infer Gesture (RGesture 0 [gesture_A]); Ingest frame2]
  ++ manager_round Main ++ [Store Gesture].

(** Body and Gesture enabled: Body has appended to the history but has not
    reached its store block when Gesture stores. *)
Definition gesture_before_body : list Event :=
  [Ingest frame1] ++ manager_round Main
  ++ [Wake Body; Snapshot Body; Infer Body (RBody 0 [body_A])]
  ++ manager_round Depend
  ++ [Wake Gesture; Infer Gesture (RGesture 0 [gesture_A]); Store Gesture].

(** Body and Gesture enabled: Gesture answers for the body of frame 1
    after Body has already stored the body of frame 2. *)
Definition gesture_after_next_body : list Event :=
  [Ingest frame1] ++ manager_round Main
  ++ [Wake Body; Snapshot Body; Infer Body (RBody 0 [body_A]); Store Body]
  ++ manager_round Depend
  ++ [Wake Gesture; Infer Gesture (RGesture 0 [gesture_A]); Ingest frame2]
  ++ manager_round Main
  ++ [Wake Body; Snapshot Body; Infer Body (RBody 0 [body_C]); Store Body;
      Store Gesture; Manager Depend 9].

(** No report, stored or published, carries a ReID annotation. *)
Definition unannotated (s : System) : Prop :=
  no_reid (algo_result_ (shared s)) /\ Forall no_reid (person_pub s).

(** The state a schedule leads to (the start state if it gets stuck). *)
Definition final (evs : list Event) (s : System) : System :=
  match run evs s with
  | Next s' => s'
  | _ => s
  end.

(** Body alone enabled: one frame, detected, stored and published. *)
Definition body_cycle : list Event :=
  [Ingest frame1] ++ manager_round Main
  ++ [Wake Body; Snapshot Body; Infer Body (RBody 0 [body_A]); Store Body;
      Manager Main 7; Manager Main 7].

(** ** Further code of the node *)

(** *** The time stamp of a frame *)

(** [builtin_interfaces::msg::Time]: [int32 sec] and [uint32 nanosec]. *)
Record Time : Type := mkTime {
  sec : Z;
  nanosec : Z
}.

(** [stamp.sec = time / 1000000000; stamp.nanosec = time % 1000000000] of
    [ImageProc], for the [uint64_t] that precedes the image in the shared
    memory. *)
Definition ImageProc_stamp (time : Z) : Time :=
  mkTime (i32 (time / 1000000000)) (u32 (time mod 1000000000)).

(** *** Value ranges *)

Definition is_uint32 (z : Z) : Prop := 0 <= z < 2 ^ 32.
Definition is_int (z : Z) : Prop := - 2 ^ 31 <= z < 2 ^ 31.

(** A message whose four fields hold [uint32] values, a rectangle whose
    four fields hold [int] values. *)
Definition roi_valid (r : RegionOfInterest) : Prop :=
  is_uint32 (x_offset r) /\ is_uint32 (y_offset r) /\
  is_uint32 (width r) /\ is_uint32 (height r).

Definition rect_valid (r : Rect) : Prop :=
  is_int (rect_x r) /\ is_int (rect_y r) /\
  is_int (rect_width r) /\ is_int (rect_height r).

(** *** The detection history over several frames *)

(** The history after [BodyDet] has pushed the detections [ds], each with
    its frame, oldest first. *)
Definition BodyDet_pushes (ds : list (StampedImage * BodyFrameInfo))
    (r : BodyResults) : BodyResults :=
  fold_left (fun r d => BodyDet_push (fst d) (snd d) r) ds r.

(** *** The modules of the switchboard *)

Section Modules.
Context `{AlgoProtocol}.

(** The identifier under which [SetAlgoState] finds each algorithm. *)
Definition module_of (a : Algo) : Z :=
  match a with
  | Face => ALGO_FACE | Body => ALGO_BODY | Gesture => ALGO_GESTURE
  | Keypoints => ALGO_KEYPOINTS | ReID => ALGO_REID | Focus => ALGO_FOCUS
  end.

(** The six [case] labels of the [switch] are different numbers (the
    compiler rejects a [switch] with a repeated label). *)
Definition distinct_modules : Prop :=
  NoDup [ALGO_FACE; ALGO_BODY; ALGO_GESTURE; ALGO_KEYPOINTS; ALGO_REID; ALGO_FOCUS].

(** A list of a request names an algorithm. *)
Definition names (a : Algo) (l : list AlgoListT) : bool :=
  existsb (fun x => algo_module x =? module_of a) l.

End Modules.

(** *** The face library as a map *)

(** [library.find(name)]: the feature stored under a name. *)
Definition library_find (name : string) (l : FaceLibrary) : option (list Q) :=
  match find (fun e => String.eqb (fst e) name) l with
  | Some e => Some (snd e)
  | None => None
  end.

(** Engines for the examples of which the focus tracker rejects every
    target and the ReID tracker records and accepts it. *)
Definition focus_rejects : Trackers :=
  {| AutoTrack := list (Mat * Rect);
     PersonReID := list (Mat * Rect);
     focus_ResetTracker := fun _ => [];
     focus_SetTracker := fun t m r => (false, t);
     reid_ResetTracker := fun _ => [];
     reid_SetTracker := fun t m r => (0, t ++ [(m, r)]) |}.

(** An active node with ReID and Focus enabled, the second frame in the
    latest-frame cell and two detections in the history. *)
Definition both_trackers_vm : @VisionManager focus_rejects :=
  @mkVM focus_rejects
        (set_body_results history2
           (set_global_img_buf (mkImageBuf true [frame2])
              (active (only [ReID; Focus]))))
        [] [] [] false true true.

(** *** Deactivation while the threads run *)

(** [WakeThread] *)
Definition WakeThread (a : Algo) (n : Node) : Node :=
  if negb (get a (is_called n))
  then set_is_called (set a true (is_called n)) n
  else n.

(** [if (!x.is_filled) { x.is_filled = true; x.cond.notify_one(); }] of
    [DestoryThread], for the latest-frame cell and for the history. *)
Definition raise_filled (st : Stage) (n : Node) : Node :=
  match st with
  | Main =>
      if negb (img_filled (global_img_buf_ n))
      then set_global_img_buf (mkImageBuf true (img_buf (global_img_buf_ n))) n
      else n
  | Depend =>
      if negb (body_filled (body_results_ n))
      then set_body_results
             (mkBodyResults true (body_infos (body_results_ n))
                            (detection_img (body_results_ n))) n
      else n
  end.

(** What happens between the first statement of [on_deactivate] and the
    return of [DestoryThread]: a thread of the node takes a step, or
    [DestoryThread] raises a manager's flag or calls [WakeThread]. *)
Inductive Teardown : Type :=
| Thread (e : Event)
| RaiseFilled (st : Stage)
| Waken (a : Algo).

Definition teardown_step (t : Teardown) (s : System) : Step :=
  match t with
  | Thread e => step e s
  | RaiseFilled st => Next (set_shared (raise_filled st (shared s)) s)
  | Waken a => Next (set_shared (WakeThread a (shared s)) s)
  end.

Fixpoint teardown_run (ts : list Teardown) (s : System) : Step :=
  match ts with
  | [] => Next s
  | t :: rest =>
      match teardown_step t s with
      | Next s' => teardown_run rest s'
      | stuck => stuck
      end
  end.

(** [is_activate_ = false], the first statement of [on_deactivate]. *)
Definition deactivated (s : System) : System :=
  set_shared (set_is_activate false (shared s)) s.

(** The teardown of the example: both managers are woken, and so is the
    Body worker. *)
Definition teardown_example : list Teardown :=
  [RaiseFilled Main; Thread (Manager Main 0); RaiseFilled Depend;
   Waken Body; Thread (Wake Body)].

(** *** [DestoryThread] and [on_deactivate] *)

(** [ImageProc] as a teardown meets it: before the test of [is_activate_]
    at its loop head, past that test (in [WaitSem] for the next frame, or
    copying it), or returned. *)
Inductive ImagePc : Type := IHead | IFrame | IExit.

(** The statements of [DestoryThread], in source order: the joins, the
    two blocks that raise a manager's [is_filled], the calls of
    [WakeThread].  Every thread is joinable: [CreateThread] started it and
    nothing has joined it since. *)
Inductive Statement : Type :=
| JoinImage
| Raise (st : Stage)
| JoinManager (st : Stage)
| CallWakeThread (a : Algo)
| JoinWorker (a : Algo).

Definition DestoryThread_body : list Statement :=
  [JoinImage; Raise Main; JoinManager Main; Raise Depend; JoinManager Depend;
   CallWakeThread Body; JoinWorker Body; CallWakeThread Face; JoinWorker Face;
   CallWakeThread Focus; JoinWorker Focus;
   CallWakeThread Gesture; JoinWorker Gesture;
   CallWakeThread ReID; JoinWorker ReID;
   CallWakeThread Keypoints; JoinWorker Keypoints].

(** One statement of [DestoryThread]; [join] returns only when the thread
    has returned, so a join on a thread that still runs is no step. *)
Definition statement_step (stmt : Statement) (image : ImagePc) (s : System)
  : option System :=
  match stmt with
  | JoinImage => match image with IExit => Some s | _ => None end
  | Raise st => Some (set_shared (raise_filled st (shared s)) s)
  | JoinManager st => match manager_pc st s with MExit => Some s | _ => None end
  | CallWakeThread a => Some (set_shared (WakeThread a (shared s)) s)
  | JoinWorker a => match get a (worker_pc s) with WExit => Some s | _ => None end
  end.

(** Who moves next while [DestoryThread] runs: the caller takes its next
    statement; a manager or a worker takes a step; [ImageProc], past its
    test of [is_activate_], gets the frame it waits for and stores it; or
    [ImageProc] returns, at its loop head because the node is not active,
    or past it because a semaphore call fails. *)
Inductive Turn : Type :=
| Caller
| Runs (e : Event)
| LateFrame (stamped_img : StampedImage)
| ImageReturns.

(** Where a run of [DestoryThread] ends: it has returned; or the schedule
    ends while statements are left, the first of them a join that has not
    returned or a statement not yet taken; or the schedule names a step
    that cannot be taken; or a thread leaves the bounds of a vector. *)
Inductive Joining : Type :=
| AllJoined (s : System)
| Standing (rest : list Statement) (image : ImagePc) (s : System)
| NoSuchStep
| Fault (index size : Z).

Fixpoint destroy (sched : list Turn) (rest : list Statement) (image : ImagePc)
    (s : System) {struct sched} : Joining :=
  match rest with
  | [] => AllJoined s
  | stmt :: rest' =>
      match sched with
      | [] => Standing rest image s
      | Caller :: sched' =>
          match statement_step stmt image s with
          | Some s' => destroy sched' rest' image s'
          | None => NoSuchStep
          end
      | Runs e :: sched' =>
          match step e s with
          | Next s' => destroy sched' rest image s'
          | NotEnabled => NoSuchStep
          | Undefined i n => Fault i n
          end
      | LateFrame stamped_img :: sched' =>
          match image with
          | IFrame =>
              destroy sched' rest IHead
                (set_shared
                   (set_global_img_buf (mkImageBuf true [stamped_img]) (shared s)) s)
          | _ => NoSuchStep
          end
      | ImageReturns :: sched' =>
          match image with
          | IHead => if is_activate_ (shared s) then NoSuchStep
                     else destroy sched' rest IExit s
          | IFrame => destroy sched' rest IExit s
          | IExit => NoSuchStep
          end
      end
  end.

(** [DestoryThread], run against the threads of the node under a
    schedule. *)
Definition DestoryThread (sched : list Turn) (image : ImagePc) (s : System)
  : Joining :=
  destroy sched DestoryThread_body image s.

Section Deactivation.
Context `{Trackers}.

(** [on_deactivate].  [threads] tells where the managers and workers
    stand (the shared members are those of [vm]) and [image] where
    [ImageProc] stands; the result is [None] when the call has not
    returned under the schedule, else the return value, the node, and the
    threads as the joins left them. *)
Definition on_deactivate (cam : CameraService) (sched : list Turn)
    (image : ImagePc) (threads : System) (vm : VisionManager)
  : option (ReturnResultT * VisionManager * System) :=
  let vm1 := set_node (set_is_activate false (node vm)) vm in
  match DestoryThread sched image (set_shared (node vm1) threads) with
  | AllJoined s =>
      let vm2 := set_threads_running false (set_node (shared s) vm1) in
      let vm3 := ResetAlgo vm2 in
      if negb (CallService cam) then Some (FAILURE, vm3, s)
      else Some (SUCCESS, set_publishers_active false vm3, s)
  | _ => None
  end.

End Deactivation.

(** Managers and workers all in their first wait. *)
Definition at_rest (s : System) : Prop :=
  main_pc s = MWaitTrigger /\ depend_pc s = MWaitTrigger /\
  worker_pc s = every WWait.

(** The schedule in which [ImageProc] returns without another frame and
    every thread that [DestoryThread] wakes leaves at once. *)
Definition prompt_schedule (image : ImagePc) : list Turn :=
  match image with IExit => [] | _ => [ImageReturns] end ++
  [Caller;
   Caller; Runs (Manager Main 0); Caller;
   Caller; Runs (Manager Depend 0); Caller;
   Caller; Runs (Wake Body); Caller; Caller; Runs (Wake Face); Caller;
   Caller; Runs (Wake Focus); Caller; Caller; Runs (Wake Gesture); Caller;
   Caller; Runs (Wake ReID); Caller; Caller; Runs (Wake Keypoints); Caller].

(** The node the prompt schedule leaves when the threads were at rest:
    every flag that woke a thread is cleared again. *)
Definition left_at_rest (n : Node) : Node :=
  set_is_called (every false)
    (clear_filled Depend (clear_filled Main (set_is_activate false n))).

(** What a join that has returned tells about its thread. *)
Definition exited (s : System) (stmt : Statement) : Prop :=
  match stmt with
  | JoinManager st => manager_pc st s = MExit
  | JoinWorker a => get a (worker_pc s) = WExit
  | _ => True
  end.

(** A schedule in which [ImageProc] gets no turn. *)
Definition image_idle (sched : list Turn) : Prop :=
  Forall (fun t => t <> ImageReturns /\ forall stamped_img, t <> LateFrame stamped_img)
         sched.

(** The node of the example session, deactivated while the Body trigger of
    the second frame is pending and [DependAlgoManager] waits for the
    counter. *)
Definition stranded_threads : System :=
  final second_frame_early (boot (active (only [Body; Gesture]))).

Definition stranded_vm : @VisionManager log_trackers :=
  @mkVM log_trackers (shared stranded_threads) [] [] [] false true true.

(** *** What the workers read *)

(** The frames a schedule ingests, oldest first. *)
Definition ingested (evs : list Event) : list StampedImage :=
  omap (fun e => match e with Ingest stamped_img => Some stamped_img | _ => None end) evs.

(** The vector a stage's workers call [back()] on is empty. *)
Definition stage_input_empty (st : Stage) (n : Node) : Prop :=
  match st with
  | Main => img_buf (global_img_buf_ n) = []
  | Depend => body_infos (body_results_ n) = []
  end.

(** A stage at rest: its trigger is clear and its manager waits for it,
    the flags of its workers are clear and the workers wait for them. *)
Definition stage_idle (st : Stage) (s : System) : Prop :=
  stage_filled st (shared s) = false /\
  manager_pc st s = MWaitTrigger /\
  Forall (fun a => get a (is_called (shared s)) = false /\
                   get a (worker_pc s) = WWait) (stage_workers st).

(** A manager inside its trigger blocks has only blocks of its own
    workers before it. *)
Definition own_workers (st : Stage) (s : System) : Prop :=
  match manager_pc st s with
  | MTrigger l => Forall (fun a => stage_of a = st) l
  | _ => True
  end.

(** A stage whose input vector is empty is at rest. *)
Definition supplied (s : System) : Prop :=
  forall st, (stage_input_empty st (shared s) -> stage_idle st s) /\ own_workers st s.

(** *** A session that starts with the counter off zero *)

(** The counter exceeds the number of pending triggers by [k]. *)
Definition offset (k : Z) (s : System) : Prop :=
  is_activate_ (shared s) = true /\
  process_num (shared s) = pending s + k /\
  (forall a, get a (worker_pc s) <> WExit).

(** A teardown in which every thread leaves: both managers are woken and
    return, then each worker is woken and returns. *)
Definition teardown_all : list Teardown :=
  [RaiseFilled Main; Thread (Manager Main 0);
   RaiseFilled Depend; Thread (Manager Depend 0);
   Waken Body; Thread (Wake Body); Waken Face; Thread (Wake Face);
   Waken Focus; Thread (Wake Focus); Waken Gesture; Thread (Wake Gesture);
   Waken ReID; Thread (Wake ReID); Waken Keypoints; Thread (Wake Keypoints)].

(** The node after a session with Body and Gesture enabled was
    deactivated just after the Body trigger of its first frame, every
    thread has left, and the node is activated again with Body enabled. *)
Definition reactivated : Node :=
  let s := final ([Ingest frame1] ++ manager_round Main)
                 (boot (active (only [Body; Gesture]))) in
  let s' := match teardown_run teardown_all (deactivated s) with
            | Next s' => s'
            | _ => s
            end in
  set_open (only [Body]) (set_is_activate true (shared s')).

(** A manager that has published a report and not yet passed its status
    test. *)
Definition at_status (st : Stage) (s : System) : nat :=
  match manager_pc st s with
  | MStatus => 1
  | _ => 0
  end.

(** *** Configuration *)

(** The calls [InitIPC] makes on the shared-memory and semaphore layer
    (whose code is not part of the sources at hand): [CreateSem] with the
    number of semaphores of the set, [SetSemInitVal] with the index of a
    semaphore and its initial value. *)
Inductive IpcCall : Type :=
| CreateShm
| GetShmAddr
| CreateSem (nsems : Z)
| SetSemInitVal (index value : Z).

(** [InitIPC]: [ok] tells which calls the layer answers with success (a
    result of 0, an address that is not null).  The result is the return
    code and the calls made, in order. *)
Definition InitIPC (ok : IpcCall -> bool) : Z * list IpcCall :=
  if negb (ok CreateShm) then (-1, [CreateShm])
  else if negb (ok GetShmAddr) then (-1, [CreateShm; GetShmAddr])
  else if negb (ok (CreateSem 3)) then (-1, [CreateShm; GetShmAddr; CreateSem 3])
  else if negb (ok (SetSemInitVal 0 1))
  then (-1, [CreateShm; GetShmAddr; CreateSem 3; SetSemInitVal 0 1])
  else if negb (ok (SetSemInitVal 1 1))
  then (-1, [CreateShm; GetShmAddr; CreateSem 3; SetSemInitVal 0 1;
             SetSemInitVal 1 1])
  else if negb (ok (SetSemInitVal 2 0))
  then (-1, [CreateShm; GetShmAddr; CreateSem 3; SetSemInitVal 0 1;
             SetSemInitVal 1 1; SetSemInitVal 2 0])
  else (0, [CreateShm; GetShmAddr; CreateSem 3; SetSemInitVal 0 1;
            SetSemInitVal 1 1; SetSemInitVal 2 0]).

(** [Init]: the return code, and whether [CreateObject] has run (engines,
    services, client and publishers exist). *)
Definition Init (ok : IpcCall -> bool) : Z * bool :=
  if negb (fst (InitIPC ok) =? 0) then (-1, false) else (0, true).

(** [on_configure] *)
Definition on_configure (ok : IpcCall -> bool) : ReturnResultT * bool :=
  if negb (fst (Init ok) =? 0) then (FAILURE, snd (Init ok))
  else (SUCCESS, snd (Init ok)).

(** The six calls of a configuration that succeeds: the shared memory, then
    the set of three semaphores, 0 the mutex (initially 1), 1 "empty"
    (initially 1), 2 "full" (initially 0). *)
Definition ipc_calls : list IpcCall :=
  [CreateShm; GetShmAddr; CreateSem 3; SetSemInitVal 0 1;
   SetSemInitVal 1 1; SetSemInitVal 2 0].

(** ** The gesture engine's wrapper ([gesture_recognition.cpp]) *)

(** [InferBbox]: a body box with its score. *)
Record InferBbox : Type := mkInferBbox {
  body_box : Rect;
  score : Q
}.

(** [handgesture::bbox], the box handed to the engine, and
    [handgesture::XMHandGesture], a hand the engine reports; their
    coordinate fields are taken as [int]. *)
Record bbox : Type := mkBbox {
  xmin : Z; ymin : Z; xmax : Z; ymax : Z;
  bbox_score : Q
}.

Record XMHandGesture : Type := mkHandGesture {
  hand_left : Z; hand_top : Z; hand_right : Z; hand_bottom : Z;
  gestureLabel : Z
}.

(** The wrapper's own state. *)
Record GestureRecognition : Type := mkGestureRecognition {
  max_person_num_ : Z
}.

(** The constructor and [SetRecognitionNum]. *)
Definition GestureRecognition_new : GestureRecognition := mkGestureRecognition 5.

Definition SetRecognitionNum (num : Z) (this : GestureRecognition)
  : GestureRecognition := mkGestureRecognition num.

(** [GetGestureInfo]: [Inference] is the engine ([Inference] followed by
    [getResult]); the result is [infos] after the call. *)
Definition GetGestureInfo (Inference : Mat -> list bbox -> Z -> list XMHandGesture)
    (this : GestureRecognition) (img : Mat) (body_boxes : list InferBbox)
    (infos : list GestureInfo) : list GestureInfo :=
  let infer_bboxes :=
    map (fun body =>
           mkBbox (rect_x (body_box body)) (rect_y (body_box body))
                  (i32 (rect_x (body_box body) + rect_width (body_box body)))
                  (i32 (rect_y (body_box body) + rect_height (body_box body)))
                  (score body))
        body_boxes in
  let gesture_infos := Inference img infer_bboxes (max_person_num_ this) in
  infos ++ map (fun g =>
                  mkGestureInfo
                    (mkRect (hand_left g) (hand_top g)
                            (i32 (hand_right g - hand_left g))
                            (i32 (hand_bottom g - hand_top g)))
                    (gestureLabel g))
               gesture_infos.

(** An engine for the examples: it reports every box it is given as a
    hand with label [lbl], up to the number of persons asked for. *)
Definition echo_engine (lbl : Z) (img : Mat) (boxes : list bbox) (num : Z)
  : list XMHandGesture :=
  map (fun b => mkHandGesture (xmin b) (ymin b) (xmax b) (ymax b) lbl)
      (take (Z.to_nat num) boxes).

(** A body box whose corners lie within the range of [int]. *)
Definition box_in_range (b : InferBbox) : Prop :=
  is_int (rect_x (body_box b)) /\ is_int (rect_y (body_box b)) /\
  is_int (rect_width (body_box b)) /\ is_int (rect_height (body_box b)) /\
  is_int (rect_x (body_box b) + rect_width (body_box b)) /\
  is_int (rect_y (body_box b) + rect_height (body_box b)).

(** *** Vocabulary of the store blocks *)

(** A face for which the engine has filled in what the face conversion
    reads: three pose angles, an age and an emotion. *)
Definition face_complete (f : MatchFaceInfo) : Prop :=
  (3 <= length (poses f))%nat /\ (1 <= length (ages f))%nat /\
  (1 <= length (emotions f))%nat.

(** An engine call whose tracker reports its target lost. *)
Definition reports_lost (e : Event) : bool :=
  match e with
  | Infer Focus (RFocus _ _ lost) => lost
  | Infer ReID (RReID _ _ _ lost) => lost
  | _ => false
  end.

(** ** Proof automation for the step function *)

(** Case analysis of one step: every branch of the step function that
    yields a next state. *)
Ltac step_inv H :=
  unfold step, ingest_step, manager_step, wake_step, snapshot_step,
         infer_step, store_step, from_exec in H;
  repeat case_match; simplify_eq.

(** Rewriting with what a branch knows about a worker and its flag. *)
Ltac use_pcs :=
  repeat match goal with
         | H : get _ (worker_pc _) = _ |- _ => simpl in H
         | H : get _ (is_called _) = _ |- _ => simpl in H
         | H : ?f (worker_pc ?s) = _, Hn : context [?f (worker_pc ?s)] |- _ =>
             rewrite H in Hn
         | H : ?f (is_called ?n) = _, Hn : context [?f (is_called ?n)] |- _ =>
             rewrite H in Hn
         end.

(** The counting invariant after a worker's step. *)
Ltac solve_counted Hnum Hexit :=
  split; [done|]; split;
  [ unfold total in *; simpl in *; use_pcs; simpl in *; lia
  | let b := fresh "b" in
    intros b; pose proof (Hexit b); destruct b; simpl in *; congruence ].

(** The invariant of the input vectors, taken apart: what it says about
    the state before a step, and what is to be shown of the state after
    it, stage by stage. *)
Ltac split_Forall :=
  repeat match goal with
         | H : ?pc = MTrigger _, H' : context [match ?pc with _ => _ end] |- _ =>
             rewrite H in H'
         | H : Forall _ (_ :: _) |- _ => apply Forall_cons in H as [? H]
         | H : Forall _ [] |- _ => clear H
         | H : _ /\ _ |- _ => destruct H
         end.

Ltac open_supplied Hinv :=
  let HM := fresh "HM" in let HMo := fresh "HMo" in
  let HD := fresh "HD" in let HDo := fresh "HDo" in
  destruct (Hinv Main) as [HM HMo], (Hinv Depend) as [HD HDo];
  clear Hinv;
  unfold stage_idle, own_workers, stage_input_empty in *; simpl in *;
  intros [|]; unfold stage_idle, own_workers, stage_input_empty; simpl.

Ltac enter_supplied :=
  (split; [let Hempty := fresh "Hempty" in
           intros Hempty;
           repeat match goal with
                  | H : ?P -> _ |- _ =>
                      match type of Hempty with P => specialize (H Hempty) end
                  end
          |]);
  split_Forall; simpl in *.

Ltac close_idle :=
  repeat match goal with
         | |- _ /\ _ => split
         | |- Forall _ (_ :: _) => constructor
         | |- Forall _ [] => constructor
         end;
  simpl in *; try done; try congruence.

(** * Properties *)

(** ** Machine integers and quotients *)

Lemma u32_small z : 0 <= z < 2 ^ 32 -> u32 z = z.
Proof. intros Hz. unfold u32. by apply Z.mod_small. Qed.

Lemma i32_small z : - 2 ^ 31 <= z < 2 ^ 31 -> i32 z = z.
Proof. intros Hz. unfold i32. rewrite Z.mod_small; lia. Qed.

Lemma size_t_small z : 0 <= z < 2 ^ 64 -> size_t z = z.
Proof. intros Hz. unfold size_t. by apply Z.mod_small. Qed.

Lemma ddiv_ratio n d k m :
  0 < d -> 0 < m -> n * m = k * d -> ddiv n d = Fin (Qred (k # Z.to_pos m)).
Proof.
  intros Hd Hm E. unfold ddiv.
  destruct (Z.eqb_spec d 0) as [->|_]; [lia|].
  f_equal. apply Qred_complete. unfold Qeq; simpl.
  rewrite !Z2Pos.id by lia. lia.
Qed.

(** ** The overlap ratio *)

(** The width (or height) [GetIOU] works with is the signed difference
    between the smaller upper end and the larger lower end: comparing an
    unsigned difference with zero clips nothing. *)
Lemma overlap_signed_difference lo1 len1 lo2 len2 :
  0 <= lo1 -> 0 <= len1 -> 0 <= lo2 -> 0 <= len2 ->
  lo1 + len1 < 2 ^ 31 -> lo2 + len2 < 2 ^ 31 ->
  overlap lo1 len1 lo2 len2 = Z.min (lo1 + len1) (lo2 + len2) - Z.max lo1 lo2.
Proof.
  intros. unfold overlap.
  rewrite (u32_small (lo1 + len1)), (u32_small (lo2 + len2)) by lia.
  set (d := Z.min (lo1 + len1) (lo2 + len2) - Z.max lo1 lo2).
  destruct (Z.le_gt_cases 0 d) as [Hd|Hd].
  - rewrite u32_small, Z.max_l by (unfold d in *; lia).
    apply i32_small. unfold d in *; lia.
  - assert (Hlo : - 2 ^ 31 < d) by (unfold d; lia).
    assert (Hu : u32 d = d + 2 ^ 32).
    { unfold u32. symmetry. apply Z.mod_unique with (q := -1); lia. }
    rewrite Hu, Z.max_l by lia. unfold i32.
    replace (d + 2 ^ 32 + 2 ^ 31) with (d + 2 ^ 31 + 1 * 2 ^ 32) by lia.
    rewrite Z.mod_add by lia. rewrite Z.mod_small; lia.
Qed.

(** X1: a region of positive area compared with itself yields the ratio
    one, as long as its far corner and its area fit the range of [int]. *)
Lemma GetIOU_identical l t w h :
  0 <= l -> 0 <= t -> 0 < w -> 0 < h ->
  l + w < 2 ^ 31 -> t + h < 2 ^ 31 -> w * h < 2 ^ 31 ->
  GetIOU (mkBody l t w h) (mkROI l t w h) = Fin 1.
Proof.
  intros. unfold GetIOU; simpl.
  rewrite !overlap_signed_difference by lia.
  rewrite !Z.min_id, !Z.max_id.
  replace (l + w - l) with w by lia. replace (t + h - t) with h by lia.
  assert (0 < w * h) by lia.
  rewrite (i32_small (w * h)) by lia.
  rewrite !(u32_small (w * h)) by lia.
  rewrite (u32_small (w * h + w * h)) by lia.
  replace (w * h + w * h - w * h) with (w * h) by lia.
  rewrite (u32_small (w * h)) by lia.
  by rewrite (ddiv_ratio (w * h) (w * h) 1 1) by lia.
Qed.

(** X2: a region lying inside another one of four times its area yields
    one quarter. *)
Lemma GetIOU_contained_quarter l t w h L T W H :
  0 <= L -> 0 <= T -> 0 < w -> 0 < h ->
  L <= l -> T <= t -> l + w <= L + W -> t + h <= T + H ->
  L + W < 2 ^ 31 -> T + H < 2 ^ 31 -> W * H < 2 ^ 30 ->
  W * H = 4 * (w * h) ->
  GetIOU (mkBody l t w h) (mkROI L T W H) = Fin (1 # 4).
Proof.
  intros. unfold GetIOU; simpl.
  rewrite !overlap_signed_difference by lia.
  rewrite (Z.min_l (l + w)), (Z.max_l l), (Z.min_l (t + h)), (Z.max_l t) by lia.
  replace (l + w - l) with w by lia. replace (t + h - t) with h by lia.
  assert (0 < w * h) by lia.
  rewrite (i32_small (w * h)) by lia.
  rewrite (u32_small (w * h)), (u32_small (W * H)) by lia.
  rewrite (u32_small (w * h + W * H)) by lia.
  rewrite (u32_small (w * h + W * H - w * h)) by lia.
  by rewrite (ddiv_ratio (w * h) (w * h + W * H - w * h) 1 4) by lia.
Qed.

(** Two regions that only touch along an edge: the ratio is zero. *)
Lemma GetIOU_touching l t w h l' w' :
  0 <= l -> 0 <= t -> 0 < w -> 0 < h -> 0 < w' ->
  l' = l + w -> l' + w' < 2 ^ 31 -> t + h < 2 ^ 31 ->
  w * h + w' * h < 2 ^ 31 ->
  GetIOU (mkBody l t w h) (mkROI l' t w' h) = Fin 0.
Proof.
  intros ? ? ? ? ? -> ? ? ?. unfold GetIOU; simpl.
  rewrite !overlap_signed_difference by lia.
  rewrite (Z.min_l (l + w)), (Z.max_r l), Z.min_id, Z.max_id by lia.
  replace (l + w - (l + w)) with 0 by lia. rewrite !Z.mul_0_l.
  assert (0 < w * h) by lia. assert (0 < w' * h) by lia.
  change (i32 0) with 0. change (u32 0) with 0.
  rewrite (u32_small (w * h)), (u32_small (w' * h)) by lia.
  rewrite (u32_small (w * h + w' * h)), Z.sub_0_r by lia.
  rewrite (u32_small (w * h + w' * h)) by lia.
  by rewrite (ddiv_ratio 0 (w * h + w' * h) 0 1) by lia.
Qed.

(** C3 (the code at the failing inputs): two regions that do not overlap
    do not yield zero.  Ten-by-ten squares at (0,0) and (20,20), apart on
    both axes, yield one; squares at (0,0) and (20,0), apart on one axis,
    yield minus one third. *)
Theorem GetIOU_disjoint_regions :
  GetIOU (mkBody 0 0 10 10) (mkROI 20 20 10 10) = Fin 1 /\
  GetIOU (mkBody 0 0 10 10) (mkROI 20 0 10 10) = Fin (-1 # 3) /\
  overlap 0 10 20 10 = -10.
Proof. by vm_compute. Qed.

(** ** The ReID annotation *)

Lemma AddReid_nonempty body_info id tracked :
  infos body_info <> [] -> AddReid body_info id tracked = Done body_info.
Proof.
  intros Hne. unfold AddReid, size.
  destruct (infos body_info) as [|b l]; [done|].
  rewrite length_cons, Nat2Z.inj_succ.
  destruct (Z.eqb_spec (Z.succ (Z.of_nat (length l))) 0); [lia|done].
Qed.

Lemma AddReid_empty body_info id tracked :
  infos body_info = [] -> AddReid body_info id tracked = OutOfRange 0 0.
Proof. intros E. unfold AddReid. by rewrite E. Qed.

(** ** Enabling and disabling algorithms *)

Section AlgoManagerFacts.
Context `{Trackers} `{AlgoProtocol}.

Lemma SetAlgoState_unknown disk a value vm :
  unknown_module (algo_module a) -> SetAlgoState disk a value vm = vm.
Proof.
  intros (?&?&?&?&?&?). unfold SetAlgoState.
  by rewrite !(proj2 (Z.eqb_neq _ _)) by done.
Qed.

Lemma fold_SetAlgoState_unknown disk value l vm :
  Forall (fun a => unknown_module (algo_module a)) l ->
  fold_left (fun v a => SetAlgoState disk a value v) l vm = vm.
Proof.
  induction 1 as [|a l Ha _ IH]; simpl; [done|].
  by rewrite SetAlgoState_unknown.
Qed.

(** C10: whatever the request holds, the response reports
    [ENABLE_SUCCESS] and [DISABLE_SUCCESS]; [SetAlgoState] on an identifier
    that is none of the six modules returns the node unchanged, and so
    does a whole request made of such identifiers. *)
Theorem AlgoManagerService_reports_success disk req vm :
  fst (AlgoManagerService disk req vm)
    = mkAlgoResponse ENABLE_SUCCESS DISABLE_SUCCESS /\
  (forall a value,
     unknown_module (algo_module a) -> SetAlgoState disk a value vm = vm) /\
  (Forall (fun a => unknown_module (algo_module a)) (algo_enable req) ->
   Forall (fun a => unknown_module (algo_module a)) (algo_disable req) ->
   snd (AlgoManagerService disk req vm) = vm).
Proof.
  split; [done|]. split.
  - intros a value Ha. by apply SetAlgoState_unknown.
  - intros He Hd. unfold AlgoManagerService; simpl.
    by rewrite !fold_SetAlgoState_unknown.
Qed.

End AlgoManagerFacts.

(** C10 at a request that enables module 9 and disables module 200 under
    the sample constants: success is reported and nothing changes. *)
Lemma AlgoManagerService_reports_success_witness :
  let req := mkAlgoRequest [mkAlgoList 9] [mkAlgoList 200] in
  @AlgoManagerService log_trackers sample_protocol None req sample_vm
    = (mkAlgoResponse 0 0, sample_vm).
Proof.
  intro req.
  destruct (@AlgoManagerService_reports_success log_trackers sample_protocol
              None req sample_vm) as (Hres & _ & Hsame).
  apply injective_projections; [exact Hres|].
  apply Hsame; repeat constructor; cbv; discriminate.
Defined.

(** ** Lifecycle *)

Section LifecycleFacts.
Context `{Trackers}.

(** Whatever the service answers, [CallService] returns whether the
    service showed up. *)
Lemma CallService_available cam : CallService cam = service_available cam.
Proof. unfold CallService. by destruct (service_available cam). Qed.

End LifecycleFacts.

(** ** Face enrollment *)

Lemma publishFaceResult_result code name image message :
  result (publishFaceResult code name image message) = code.
Proof. unfold publishFaceResult. by destruct (_ || _). Qed.

Lemma publishFaceResult_other code name image message :
  code <> 0 -> code <> 17 ->
  publishFaceResult code name image message = mkFaceResult code message [].
Proof.
  intros H0 H17. unfold publishFaceResult.
  by rewrite (proj2 (Z.eqb_neq _ _) H0), (proj2 (Z.eqb_neq _ _) H17).
Qed.

Lemma closing_only_last_cons e l :
  result e <> 0 -> result e <> 17 ->
  closing_only_last l -> closing_only_last (e :: l).
Proof.
  intros H0 H17 Hl [|i] e' Hi Hc; simpl in *.
  - injection Hi as <-. lia.
  - f_equal. by apply (Hl i e').
Qed.

Lemma closing_only_last_one e : closing_only_last [e].
Proof. intros [|i] e' Hi _; [done|]. by destruct i. Qed.

Lemma FaceDetProc_end_events da gft name mat pub :
  exists new, events (FaceDetProc_end da gft name mat pub) = pub ++ new /\
              closing_only_last new.
Proof.
  unfold FaceDetProc_end. destruct (gft && da); simpl.
  - eexists; split; [done|]. apply closing_only_last_one.
  - exists []. split; [by rewrite app_nil_r|]. by intros [|?] ?.
Qed.

Lemma FaceDetProc_loop_events obs da gft name mat pub :
  exists new, events (FaceDetProc_loop obs da gft name mat pub) = pub ++ new /\
              closing_only_last new.
Proof.
  revert gft name mat pub.
  induction obs as [|o rest IH]; intros gft name mat pub; simpl.
  - exists []. split; [by rewrite app_nil_r|]. by intros [|?] ?.
  - destruct (_ && _); [|apply FaceDetProc_end_events].
    set (choice := if pose_ret o =? 0 then _ else _).
    destruct choice as [[ret name'] message].
    destruct ((ret =? 0) || (ret =? 17)) eqn:Hret.
    + unfold FaceDetProc_end; simpl.
      eexists; split; [done|]. apply closing_only_last_one.
    + destruct (IH true name' (frame o)
                  (pub ++ [publishFaceResult ret name' (frame o) message]))
        as (new & Hnew & Hlast).
      exists (publishFaceResult ret name' (frame o) message :: new).
      split; [by rewrite Hnew, <- app_assoc|].
      apply orb_false_elim in Hret as [H0 H17].
      apply closing_only_last_cons; [| |done];
        rewrite publishFaceResult_result; by apply Z.eqb_neq.
Qed.

Lemma FaceDetProc_loop_rejected fails rest da name mat pub :
  Forall rejected fails ->
  exists mat',
    FaceDetProc_loop (fails ++ rest) da true name mat pub
    = FaceDetProc_loop rest da true name mat' (pub ++ map pose_event fails).
Proof.
  intros Hf. revert mat pub.
  induction Hf as [|o fails (Ht & Hd & H0 & H17) _ IH]; intros mat pub.
  - exists mat. by rewrite app_nil_r.
  - simpl. rewrite (proj2 (Z.ltb_lt _ _) Ht), Hd; simpl.
    rewrite (proj2 (Z.eqb_neq _ _) H0), (proj2 (Z.eqb_neq _ _) H0),
            (proj2 (Z.eqb_neq _ _) H17); simpl.
    destruct (IH (frame o)
                (pub ++ [publishFaceResult (pose_ret o) name (frame o) (pose_msg o)]))
      as (mat' & ->).
    exists mat'. rewrite publishFaceResult_other by done.
    by rewrite <- app_assoc.
Qed.

(** C4 (amended): a run publishes the outcomes OK (0) and DUPLICATE (17)
    at most once and as its last event, the code of every rejected frame
    before that, and TIMEOUT (3) exactly once, as its last event, when the
    deadline passes over rejected frames with the cancel flag still up.
    A run that meets the cancel flag lowered returns without a further
    event, a request without an identity is answered -1 and starts no run,
    and no request to the face service publishes anything, so nothing
    follows a TIMEOUT, not even after a late cancel. *)
Theorem enrollment_outcomes name obs detect_after :
  closing_only_last (events (FaceDetProc name obs detect_after)) /\
  (forall fails o rest,
     obs = fails ++ o :: rest -> Forall rejected fails -> 40 <= elapsed o ->
     detect_after = true ->
     FaceDetProc name obs detect_after
     = Returned (map pose_event fails ++ [mkFaceResult 3 "timeout" []])) /\
  (forall fails o rest,
     obs = fails ++ o :: rest -> Forall rejected fails ->
     elapsed o < 40 -> detect o = false -> detect_after = false ->
     FaceDetProc name obs detect_after = Returned (map pose_event fails)) /\
  (forall invalid_args fm_ret fm_msg request s,
     face_result_pub
       (snd (FaceManagerService invalid_args fm_ret fm_msg request s))
     = face_result_pub s) /\
  (forall invalid_args fm_ret fm_msg user host s,
     FaceManagerService invalid_args fm_ret fm_msg
       (mkFaceRequest ADD_FACE "" user host) s
     = (mkFaceResponse (-1) "", s)).
Proof.
  split; [|split; [|split; [|split]]].
  - destruct (FaceDetProc_loop_events obs detect_after true name 0 [])
      as (new & Hnew & Hlast).
    unfold FaceDetProc. by rewrite Hnew.
  - intros fails o rest -> Hf Ho ->. unfold FaceDetProc.
    destruct (FaceDetProc_loop_rejected fails (o :: rest) true name 0 [] Hf)
      as (mat' & ->).
    simpl. by rewrite (proj2 (Z.ltb_ge _ _) Ho).
  - intros fails o rest -> Hf Ho Hd ->. unfold FaceDetProc.
    destruct (FaceDetProc_loop_rejected fails (o :: rest) false name 0 [] Hf)
      as (mat' & ->).
    simpl. rewrite Hd, andb_false_r. done.
  - intros invalid_args fm_ret fm_msg request s.
    unfold FaceManagerService.
    by repeat (case_match; simpl).
  - done.
Qed.

(** C4 as claimed fails: a run that meets the cancel flag lowered at its
    first test returns and has published nothing, so the outcome
    CANCELLED is published not once but never; and a request without an
    identity publishes nothing either. *)
Lemma cancelled_run_publishes_nothing :
  FaceDetProc "ann" [mkObs 1 false 0 0 "" []] false = Returned [] /\
  face_result_pub (run_enrollment "ann" [mkObs 1 false 0 0 "" []] false session0) = [] /\
  FaceManagerService 2 0 "" (mkFaceRequest ADD_FACE "" "" false) session0
    = (mkFaceResponse (-1) "", session0).
Proof. by vm_compute. Qed.

(** C4 (amended) at a run of two rejected frames followed by the
    deadline: the two pose codes, then one TIMEOUT. *)
Lemma enrollment_outcomes_witness :
  FaceDetProc "ann"
    [mkObs 5 true 1 4 "turn left" []; mkObs 20 true 2 6 "too far" [];
     mkObs 41 true 3 0 "" []] true
  = Returned [mkFaceResult 4 "turn left" []; mkFaceResult 6 "too far" [];
              mkFaceResult 3 "timeout" []].
Proof.
  refine (proj1 (proj2 (enrollment_outcomes "ann" _ true))
            [mkObs 5 true 1 4 "turn left" []; mkObs 20 true 2 6 "too far" []]
            (mkObs 41 true 3 0 "" []) [] eq_refl _ _ eq_refl).
  - repeat constructor; simpl; lia.
  - simpl; lia.
Defined.

(** ** Tracking-target resolution *)

Lemma Qltb_lt a b : Qltb a b = true <-> (a < b)%Q.
Proof. unfold Qltb, Qlt. apply Z.ltb_lt. Qed.

Lemma dgt_trans a b c : dgt a b = true -> dgt b c = true -> dgt a c = true.
Proof.
  destruct a as [|[]|x], b as [|[]|y], c as [|[]|z]; simpl; try done.
  rewrite !Qltb_lt. intros Hyx Hzy. by apply Qlt_trans with (binary64 y).
Qed.

(** Doubles that are equal compare alike with a third one. *)
Lemma deq_dgt a b c : deq a b = true -> dgt a c = dgt b c.
Proof.
  destruct a as [|na|x], b as [|nb|y], c as [|nc|z]; simpl; try done.
  - by intros ->%eqb_prop.
  - by intros ->%eqb_prop.
  - intros E%Qeq_bool_iff.
    destruct (Qltb (binary64 z) (binary64 x)) eqn:Hx,
             (Qltb (binary64 z) (binary64 y)) eqn:Hy; try done.
    + apply Qltb_lt in Hx. rewrite E in Hx. apply Qltb_lt in Hx. congruence.
    + apply Qltb_lt in Hy. rewrite <- E in Hy. apply Qltb_lt in Hy. congruence.
Qed.

Lemma dgt_irrefl a : dgt a a = false.
Proof.
  destruct a as [|[]|x]; simpl; try done.
  apply not_true_is_false. rewrite Qltb_lt. apply Qlt_irrefl.
Qed.

Lemma at_index_lookup {A : Type} (v : list A) (i : nat) a :
  v !! i = Some a -> at_index v (Z.of_nat i) = Done a.
Proof.
  intros Hi. unfold at_index, size.
  pose proof (lookup_lt_Some _ _ _ Hi).
  destruct (Z.leb_spec (Z.of_nat (length v)) (Z.of_nat i)); [lia|].
  by rewrite Nat2Z.id, Hi.
Qed.

Section Resolver.
Variable roi : RegionOfInterest.

Lemma scanned_step pre start m rc c :
  scanned roi pre start m rc ->
  if dgt (GetIOU c roi) m && dgt (GetIOU c roi) half
  then scanned roi (pre ++ [c]) start (GetIOU c roi) (body_rect c)
  else scanned roi (pre ++ [c]) start m rc.
Proof.
  intros Hs.
  destruct (dgt (GetIOU c roi) m) eqn:Hm, (dgt (GetIOU c roi) half) eqn:Hh; simpl.
  - right. exists (length pre), c. split; [by apply list_lookup_middle|].
    split; [done|]. split; [done|]. split; [exact Hh|]. split.
    + intros c' [Hc'| ->%list_elem_of_singleton]%elem_of_app; [|apply dgt_irrefl].
      apply not_true_is_false. intros Hgt.
      destruct Hs as [(-> & _ & Hnone)|(j & b & _ & -> & _ & _ & Hmax & _)].
      * rewrite Forall_forall in Hnone. apply (Hnone c' Hc').
        unfold exceeds_half. by apply dgt_trans with (GetIOU c roi).
      * specialize (Hmax c' Hc'). rewrite (dgt_trans _ _ _ Hgt Hm) in Hmax. done.
    + intros k c' Hk Hc'. apply not_true_is_false. intros E.
      rewrite lookup_app_l in Hc' by done.
      assert (c' ∈ pre) as Hin by (by eapply list_elem_of_lookup_2).
      destruct Hs as [(-> & _ & Hnone)|(j & b & _ & -> & _ & _ & Hmax & _)].
      * rewrite Forall_forall in Hnone. apply (Hnone c' Hin).
        unfold exceeds_half. by rewrite (deq_dgt _ _ _ E).
      * specialize (Hmax c' Hin). rewrite (deq_dgt _ _ _ E) in Hmax. congruence.
  - destruct Hs as [(-> & -> & Hnone)|(j & b & Hj & -> & -> & Hb & Hmax & Hfirst)].
    + left. repeat split; try done. apply Forall_app; split; [done|].
      constructor; [|done]. unfold exceeds_half. by rewrite Hh.
    + exfalso. rewrite (dgt_trans _ _ _ Hm Hb) in Hh. done.
  - destruct Hs as [(-> & -> & Hnone)|(j & b & Hj & -> & -> & Hb & Hmax & Hfirst)].
    + exfalso.
      assert (dgt (GetIOU c roi) dzero = true) by (by apply dgt_trans with half).
      congruence.
    + right. exists j, b.
      split; [by apply lookup_app_l_Some|].
      split; [done|]. split; [done|]. split; [done|]. split.
      * intros c' [Hc'| ->%list_elem_of_singleton]%elem_of_app; [by apply Hmax|done].
      * intros k c' Hk Hc'. apply (Hfirst k c' Hk).
        rewrite lookup_app_l in Hc'; [done|]. apply lookup_lt_Some in Hj. lia.
  - destruct Hs as [(-> & -> & Hnone)|(j & b & Hj & -> & -> & Hb & Hmax & Hfirst)].
    + left. repeat split; try done. apply Forall_app; split; [done|].
      constructor; [|done]. unfold exceeds_half. by rewrite Hh.
    + right. exists j, b.
      split; [by apply lookup_app_l_Some|].
      split; [done|]. split; [done|]. split; [done|]. split.
      * intros c' [Hc'| ->%list_elem_of_singleton]%elem_of_app; [by apply Hmax|done].
      * intros k c' Hk Hc'. apply (Hfirst k c' Hk).
        rewrite lookup_app_l in Hc'; [done|]. apply lookup_lt_Some in Hj. lia.
Qed.

Lemma match_entry_scanned rest pre start m rc :
  scanned roi pre start m rc ->
  scanned roi (pre ++ rest) start (fst (match_entry rest roi m rc))
          (snd (match_entry rest roi m rc)).
Proof.
  revert pre m rc. induction rest as [|c rest IH]; intros pre m rc Hs; simpl.
  - by rewrite app_nil_r.
  - pose proof (scanned_step pre start m rc c Hs) as Hstep.
    replace (pre ++ c :: rest) with ((pre ++ [c]) ++ rest) by (by rewrite <- app_assoc).
    destruct (dgt (GetIOU c roi) m && dgt (GetIOU c roi) half); by apply IH.
Qed.

(** One entry, scanned from the start: the loop ends above one half
    exactly when the entry qualifies, and then on its best detection. *)
Lemma match_entry_outcome entry start :
  let '(m, rc) := match_entry entry roi dzero start in
  if dgt m half
  then exists b, selected roi entry b /\ rc = body_rect b
  else ~ qualifies roi entry /\ rc = start.
Proof.
  pose proof (match_entry_scanned entry [] start dzero start) as Hs.
  destruct (match_entry entry roi dzero start) as [m rc]; simpl in Hs.
  destruct Hs as [(-> & -> & Hnone)|(j & b & Hj & -> & -> & Hb & Hmax & Hfirst)].
  - left. by repeat split.
  - change (dgt dzero half) with false; simpl. split; [|done].
    unfold qualifies. rewrite Exists_exists. intros (c & Hc & Hex).
    rewrite Forall_forall in Hnone. by apply (Hnone c).
  - unfold exceeds_half in Hb. rewrite Hb.
    exists b. split; [|done]. by exists j.
Qed.

Section Scan.
Variable r : BodyResults.

Lemma match_scan_none i start :
  (i < length (body_infos r))%nat ->
  (forall (k : nat) e, (1 <= k <= i)%nat -> body_infos r !! k = Some e ->
                       ~ qualifies roi e) ->
  match_scan r roi i start = Done None.
Proof.
  revert start. induction i as [|i IH]; intros start Hi Hnone; [done|].
  destruct (lookup_lt_is_Some_2 (body_infos r) (S i) Hi) as [e He].
  cbn [match_scan]. rewrite (at_index_lookup _ _ _ He).
  change (mbind ?f (Done ?a)) with (f a). cbv beta.
  pose proof (match_entry_outcome e start) as Hout.
  destruct (match_entry e roi dzero start) as [m rc].
  destruct (dgt m half).
  - destruct Hout as (b & (j & Hj & Hb & _) & _).
    exfalso. apply (Hnone (S i) e); [lia|done|].
    unfold qualifies. rewrite Exists_exists. exists b.
    split; [by eapply list_elem_of_lookup_2|done].
  - apply IH; [lia|]. intros k e' Hk. apply Hnone. lia.
Qed.

Lemma match_scan_found i start (k : nat) e :
  (i < length (body_infos r))%nat -> (1 <= k <= i)%nat ->
  body_infos r !! k = Some e -> qualifies roi e ->
  (forall (k' : nat) e', (k < k' <= i)%nat -> body_infos r !! k' = Some e' ->
                         ~ qualifies roi e') ->
  exists b, selected roi e b /\
            match_scan r roi i start
            = Done (Some (img (detection_img r), body_rect b)).
Proof.
  revert start. induction i as [|i IH]; intros start Hi Hk He Hq Hlater; [lia|].
  destruct (lookup_lt_is_Some_2 (body_infos r) (S i) Hi) as [e' He'].
  cbn [match_scan]. rewrite (at_index_lookup _ _ _ He').
  change (mbind ?f (Done ?a)) with (f a). cbv beta.
  pose proof (match_entry_outcome e' start) as Hout.
  destruct (match_entry e' roi dzero start) as [m rc].
  destruct (decide (k = S i)) as [->|Hne].
  - assert (e' = e) as -> by congruence.
    destruct (dgt m half).
    + destruct Hout as (b & Hsel & ->). by exists b.
    + by destruct Hout as [Hnq _].
  - destruct (dgt m half).
    + destruct Hout as (b & (j & Hj & Hb & _) & _).
      exfalso. apply (Hlater (S i) e'); [lia|done|].
      unfold qualifies. rewrite Exists_exists. exists b.
      split; [by eapply list_elem_of_lookup_2|done].
    + apply IH; [lia|lia|done|done|].
      intros k' e'' Hk'. apply Hlater. lia.
Qed.

(** On a history that is not empty the loop starts at the last index. *)
Lemma find_match_start :
  body_infos r <> [] -> size (body_infos r) < 2 ^ 64 ->
  find_match r roi = match_scan r roi (length (body_infos r) - 1) rect0.
Proof.
  intros Hne Hlt. unfold find_match, size in *.
  destruct (body_infos r) as [|e l]; [done|].
  rewrite length_cons in *.
  rewrite size_t_small by lia.
  destruct (Z.leb_spec (Z.of_nat (S (length l))) (Z.of_nat (S (length l)) - 1));
    [lia|].
  rewrite andb_false_r. f_equal. lia.
Qed.

End Scan.
End Resolver.

Section TrackingFacts.
Context `{Trackers}.

Lemma GetMatchBody_found r reid_ptr image target roi :
  find_match r roi = Done (Some (image, target)) ->
  GetMatchBody r reid_ptr roi = Done (tracker_set reid_ptr image target).
Proof.
  intros E. unfold GetMatchBody, tracker_set. rewrite E.
  change (mbind ?f (Done ?a)) with (f a). cbv beta iota.
  destruct (reid_SetTracker reid_ptr image target) as [ret reid'].
  by destruct (ret =? 0).
Qed.

Lemma GetMatchBody_not_found r reid_ptr roi :
  find_match r roi = Done None ->
  GetMatchBody r reid_ptr roi = Done (-1, reid_ptr).
Proof. intros E. unfold GetMatchBody. by rewrite E. Qed.

Lemma GetMatchBody_code r reid_ptr roi outcome :
  GetMatchBody r reid_ptr roi = Done outcome ->
  fst outcome = 0 \/ fst outcome = -1.
Proof.
  unfold GetMatchBody. destruct (find_match r roi) as [[[image target]|]|]; simpl.
  - destruct (reid_SetTracker reid_ptr image target) as [ret reid'].
    destruct (negb (ret =? 0)); intros [= <-]; auto.
  - intros [= <-]; auto.
  - done.
Qed.

Lemma TrackingService_reid_only vm roi res outcome :
  open_reid_ (node vm) = true -> open_focus_ (node vm) = false ->
  GetMatchBody (body_results_ (node vm)) (reid_ptr_ vm) roi = Done outcome ->
  TrackingService vm roi res = Done (tracking_answer vm outcome).
Proof.
  intros Hreid Hfocus Hget. unfold TrackingService, tracking_answer.
  rewrite Hreid, Hget.
  destruct (GetMatchBody_code _ _ _ _ Hget) as [Hc|Hc];
    destruct outcome as [ret reid']; simpl in Hc; subst ret.
  all: change (mbind ?f (Done ?a)) with (f a); cbv beta iota; simpl.
  all: change (mbind ?f (Done ?a)) with (f a); cbv beta iota.
  - change (open_focus_ (set_processing_status STATUS_TRACKING (node vm)))
      with (open_focus_ (node vm)).
    by rewrite Hfocus.
  - by rewrite Hfocus.
Qed.

(** C2 (amended): on a history that is not empty, [GetMatchBody] scans
    from the most recent entry towards the older ones.  If an entry other
    than the oldest holds a detection whose overlap ratio with the
    requested region exceeds one half, and no more recent entry does, the
    ReID tracker is initialised with the best detection of that entry (the
    ratios compared as doubles; the first among those whose ratios are one
    [double]) and with the one image the history keeps, that of the latest
    detection; the call succeeds when the engine accepts the target, and
    [TrackingService] (ReID enabled, Focus not) then answers success and
    sets the status to tracking.  If no entry of the whole history holds
    such a detection, the call returns -1 without touching the engine, and
    [TrackingService] (ReID enabled, Focus not) answers failure and leaves
    the node as it was. *)
Theorem tracking_target_resolution (vm : VisionManager)
    (roi : RegionOfInterest) (res : bool) :
  body_infos (body_results_ (node vm)) <> [] ->
  size (body_infos (body_results_ (node vm))) < 2 ^ 64 ->
  (forall (i : nat) entry,
     (0 < i)%nat ->
     body_infos (body_results_ (node vm)) !! i = Some entry ->
     qualifies roi entry ->
     (forall (k : nat) e,
        (i < k)%nat -> body_infos (body_results_ (node vm)) !! k = Some e ->
        ~ qualifies roi e) ->
     exists b,
       selected roi entry b /\
       GetMatchBody (body_results_ (node vm)) (reid_ptr_ vm) roi
       = Done (tracker_set (reid_ptr_ vm)
                 (img (detection_img (body_results_ (node vm)))) (body_rect b)) /\
       (open_reid_ (node vm) = true -> open_focus_ (node vm) = false ->
        TrackingService vm roi res
        = Done (tracking_answer vm
                  (tracker_set (reid_ptr_ vm)
                     (img (detection_img (body_results_ (node vm))))
                     (body_rect b)))))
  /\
  ((forall e, e ∈ body_infos (body_results_ (node vm)) -> ~ qualifies roi e) ->
   GetMatchBody (body_results_ (node vm)) (reid_ptr_ vm) roi
     = Done (-1, reid_ptr_ vm) /\
   (open_reid_ (node vm) = true -> open_focus_ (node vm) = false ->
    TrackingService vm roi res = Done (false, vm))).
Proof.
  intros Hne Hlt. set (r := body_results_ (node vm)) in *. split.
  - intros i entry Hi Hentry Hq Hlater.
    pose proof (lookup_lt_Some _ _ _ Hentry) as Hlen.
    destruct (match_scan_found roi r (length (body_infos r) - 1) rect0 i entry)
      as (b & Hsel & Hscan); [lia|lia|done|done| |].
    { intros k e Hk. apply Hlater. lia. }
    assert (GetMatchBody r (reid_ptr_ vm) roi
            = Done (tracker_set (reid_ptr_ vm) (img (detection_img r)) (body_rect b)))
      as Hget by (apply GetMatchBody_found; by rewrite find_match_start).
    exists b. split; [done|]. split; [done|].
    intros Hreid Hfocus. by apply TrackingService_reid_only.
  - intros Hnone.
    assert (find_match r roi = Done None) as Hfind.
    { rewrite find_match_start by done. apply match_scan_none.
      - destruct (body_infos r); [done|]. rewrite length_cons. lia.
      - intros k e _ He. apply Hnone. by eapply list_elem_of_lookup_2. }
    split; [by apply GetMatchBody_not_found|].
    intros Hreid Hfocus.
    rewrite (TrackingService_reid_only vm roi res (-1, reid_ptr_ vm)
               Hreid Hfocus (GetMatchBody_not_found _ _ _ Hfind)).
    unfold tracking_answer; simpl. by destruct vm.
Qed.

(** C9 (the code at the failing input): on an empty detection history the
    loop of [GetMatchBody] starts at index [2^64 - 1] and reads the history
    there, outside its bounds; so does [TrackingService] with ReID
    enabled. *)
Theorem GetMatchBody_empty_history (vm : VisionManager) (filled : bool)
    (image : StampedImage) (roi : RegionOfInterest) (res : bool) :
  let r := mkBodyResults filled [] image in
  let vm' := set_node (set_body_results r
                         (set_open (set ReID true (open_ (node vm))) (node vm))) vm in
  GetMatchBody r (reid_ptr_ vm) roi = OutOfRange (2 ^ 64 - 1) 0 /\
  TrackingService vm' roi res = OutOfRange (2 ^ 64 - 1) 0.
Proof.
  split; [done|].
  unfold TrackingService, open_reid_; simpl.
  by destruct (open_ (node vm)).
Qed.

End TrackingFacts.

(** C2 as claimed fails: the entry that matches the request (10,10,50,50)
    was stored together with image 2, one detection later the history
    keeps image 3 only, and it is image 3 that initialises the tracker. *)
Lemma resolver_uses_latest_image :
  last (body_infos history2) = Some [mkBody 10 10 50 50] /\
  img (detection_img history2) = 2 /\
  body_infos history3 !! 1%nat = Some [mkBody 10 10 50 50] /\
  @GetMatchBody log_trackers history3 [] (mkROI 10 10 50 50)
    = Done (0, [(3, mkRect 10 10 50 50)]).
Proof. by vm_compute. Qed.

(** C2 (amended) at the history of two detections, bodies at (10,10,50,50)
    and then at (12,10,50,50), asked for (10,10,50,50): the more recent
    body is the target. *)
Lemma tracking_target_resolution_witness :
  let r := BodyDet_push (mkStamped 2 (mkHeader 2)) [mkBody 12 10 50 50]
             (BodyDet_push (mkStamped 1 (mkHeader 1)) [mkBody 10 10 50 50]
                (mkBodyResults false [] (mkStamped 0 header0))) in
  exists b,
    selected (mkROI 10 10 50 50) [mkBody 12 10 50 50] b /\
    @GetMatchBody log_trackers r [] (mkROI 10 10 50 50)
    = Done (@tracker_set log_trackers [] 2 (body_rect b)).
Proof.
  intro r.
  cut (exists b,
         selected (mkROI 10 10 50 50) [mkBody 12 10 50 50] b /\
         @GetMatchBody log_trackers r [] (mkROI 10 10 50 50)
         = Done (@tracker_set log_trackers [] 2 (body_rect b)) /\
         (true = true -> false = false ->
          @TrackingService log_trackers
            (@mkVM log_trackers
               (set_body_results r (active (only [ReID]))) [] [] [] false true true)
            (mkROI 10 10 50 50) false
          = Done (@tracking_answer log_trackers
                    (@mkVM log_trackers
                       (set_body_results r (active (only [ReID]))) [] [] [] false
                       true true)
                    (@tracker_set log_trackers [] 2 (body_rect b))))).
  { intros (b & Hsel & Hget & _). exists b. split; [exact Hsel|exact Hget]. }
  refine (proj1 (@tracking_target_resolution log_trackers
                   (@mkVM log_trackers
                      (set_body_results r (active (only [ReID]))) [] [] [] false true true)
                   (mkROI 10 10 50 50) false _ _)
            1%nat [mkBody 12 10 50 50] _ eq_refl _ _).
  - done.
  - by vm_compute.
  - lia.
  - constructor. by vm_compute.
  - intros [|[|[|k]]] e Hk He; try lia; done.
Defined.


(** [binary64] on quotients that are doubles and on some that are not;
    ties go to the even significand. *)
Lemma binary64_rounds :
  (binary64 (1 # 2) == 1 # 2 /\
   binary64 (1 # 3) == 6004799503160661 # 18014398509481984 /\
   binary64 (- 1 # 10) == - 3602879701896397 # 36028797018963968 /\
   binary64 (9007199254740993 # 1) == 9007199254740992 # 1 /\
   binary64 (9007199254740995 # 1) == 9007199254740996 # 1 /\
   binary64 (1073741823 # 1073741824) == 1073741823 # 1073741824 /\
   binary64 (1073741824 # 1073741825) == 1073741823 # 1073741824)%Q.
Proof. by vm_compute. Qed.

(** Two detections whose ratios differ as rationals and are one [double]:
    the second is not greater in the test of [GetMatchBody], and the
    tracker is set on the first. *)
Lemma close_ratios_keep_first :
  let roi := mkROI 0 0 1073741824 1 in
  let b1 := mkBody 0 0 1073741823 1 in
  let b2 := mkBody 0 0 1073741825 1 in
  let r := mkBodyResults true [[]; [b1; b2]] (mkStamped 7 (mkHeader 7)) in
  GetIOU b1 roi = Fin (1073741823 # 1073741824) /\
  GetIOU b2 roi = Fin (1073741824 # 1073741825) /\
  (1073741823 # 1073741824 < 1073741824 # 1073741825)%Q /\
  dgt (GetIOU b2 roi) (GetIOU b1 roi) = false /\
  deq (GetIOU b2 roi) (GetIOU b1 roi) = true /\
  @GetMatchBody log_trackers r [] roi = Done (0, [(7, body_rect b1)]).
Proof. vm_compute. repeat split. Qed.

(** ** The stage managers and the workers *)

Lemma get_set_eq {A} (a : Algo) (v : A) p : get a (set a v p) = v.
Proof. by destruct a. Qed.

Lemma get_set_ne {A} (a b : Algo) (v : A) p : a <> b -> get a (set b v p) = get a p.
Proof. by destruct a, b. Qed.

Lemma total_set {A} (f : A -> Z) a v p :
  total f (set a v p) = total f p - f (get a p) + f v.
Proof. destruct a; unfold total; simpl; lia. Qed.

Lemma total_zero {A} (f : A -> Z) p a :
  (forall x, 0 <= f x) -> total f p = 0 -> f (get a p) = 0.
Proof.
  intros Hf. unfold total.
  pose proof (Hf (of_body p)). pose proof (Hf (of_face p)).
  pose proof (Hf (of_focus p)). pose proof (Hf (of_reid p)).
  pose proof (Hf (of_gesture p)). pose proof (Hf (of_keypoints p)).
  destruct a; simpl; lia.
Qed.

Lemma trigger_counted a n :
  process_num (trigger a n) - total b2z (is_called (trigger a n))
  = process_num n - total b2z (is_called n).
Proof.
  unfold trigger. destruct (get a (open_ n)); [|done].
  destruct (get a (is_called n)) eqn:E; simpl; [done|].
  rewrite total_set, E. simpl. lia.
Qed.

Lemma trigger_frame a n :
  is_activate_ (trigger a n) = is_activate_ n /\ open_ (trigger a n) = open_ n.
Proof. unfold trigger. by repeat case_match. Qed.

Lemma set_no_exit a pc (p : PerAlgo WorkerPc) :
  pc <> WExit -> (forall b, get b p <> WExit) -> forall b, get b (set a pc p) <> WExit.
Proof.
  intros Hpc Hp b. destruct (decide (b = a)) as [->|Hne].
  - by rewrite get_set_eq.
  - by rewrite get_set_ne.
Qed.

Lemma step_counted e s s' : counted s -> step e s = Next s' -> counted s'.
Proof.
  intros (Hact & Hnum & Hexit) Hstep. unfold counted, pending in *.
  destruct e as [im|st now|a|a|a r|a].
  - step_inv Hstep. by simpl.
  - unfold step, manager_step in Hstep.
    destruct st; simpl in Hstep; repeat case_match; simplify_eq; simpl;
      try (split; [done|split; [done|done]]);
      try (split; [by rewrite (proj1 (trigger_frame _ _))|split; [|done]];
           pose proof (trigger_counted a (shared s)); lia).
  - unfold step, wake_step in Hstep. rewrite Hact in Hstep.
    destruct a; simpl in Hstep; repeat case_match; simplify_eq;
      solve_counted Hnum Hexit.
  - unfold step, snapshot_step, from_exec in Hstep.
    destruct a; simpl in Hstep; repeat case_match; simplify_eq;
      solve_counted Hnum Hexit.
  - unfold step, infer_step, from_exec, note_lost in Hstep.
    destruct a; simpl in Hstep; repeat case_match; simplify_eq;
      solve_counted Hnum Hexit.
  - unfold step, store_step, from_exec in Hstep.
    destruct a; simpl in Hstep; repeat case_match; simplify_eq;
      solve_counted Hnum Hexit.
Qed.

Lemma run_invariant (P : System -> Prop) :
  (forall e s s', P s -> step e s = Next s' -> P s') ->
  forall evs s s', P s -> run evs s = Next s' -> P s'.
Proof.
  intros Hstep evs. induction evs as [|e rest IH]; intros s s' Hs Hrun; simpl in Hrun.
  - by simplify_eq.
  - destruct (step e s) as [s1| |] eqn:E; try done.
    apply (IH s1); [by eapply Hstep|done].
Qed.

Lemma boot_counted n : quiescent n -> counted (boot n).
Proof.
  intros (Hact & Hnum & Hflags). unfold counted, pending; simpl.
  rewrite Hflags, Hnum. split; [done|]. split; [done|]. by intros [].
Qed.

Lemma b2z_nonneg b : 0 <= b2z b.
Proof. by destruct b. Qed.

Lemma busy_nonneg pc : 0 <= busy pc.
Proof. by destruct pc. Qed.

Lemma total_nonneg {A} (f : A -> Z) p : (forall x, 0 <= f x) -> 0 <= total f p.
Proof.
  intros Hf. unfold total.
  pose proof (Hf (of_body p)). pose proof (Hf (of_face p)).
  pose proof (Hf (of_focus p)). pose proof (Hf (of_reid p)).
  pose proof (Hf (of_gesture p)). pose proof (Hf (of_keypoints p)). lia.
Qed.

Lemma total_at_most {A} (f : A -> Z) p : (forall x, f x <= 1) -> total f p <= 6.
Proof.
  intros Hf. unfold total.
  pose proof (Hf (of_body p)). pose proof (Hf (of_face p)).
  pose proof (Hf (of_focus p)). pose proof (Hf (of_reid p)).
  pose proof (Hf (of_gesture p)). pose proof (Hf (of_keypoints p)). lia.
Qed.

(** When the counter reads zero no worker of either stage is triggered or
    under way. *)
Lemma counted_zero s a :
  counted s -> process_num (shared s) = 0 ->
  get a (is_called (shared s)) = false /\ get a (worker_pc s) = WWait.
Proof.
  intros (_ & Hnum & Hexit) Hzero. unfold pending in Hnum.
  pose proof (total_nonneg b2z (is_called (shared s)) b2z_nonneg).
  pose proof (total_nonneg busy (worker_pc s) busy_nonneg).
  assert (b2z (get a (is_called (shared s))) = 0) as Hflag
    by (apply total_zero; [apply b2z_nonneg|lia]).
  assert (busy (get a (worker_pc s)) = 0) as Hbusy
    by (apply total_zero; [apply busy_nonneg|lia]).
  split.
  - by destruct (get a (is_called (shared s))).
  - specialize (Hexit a). by destruct (get a (worker_pc s)).
Qed.

Lemma step_frame e s s' :
  step e s = Next s' ->
  open_ (shared s') = open_ (shared s) /\
  is_activate_ (shared s') = is_activate_ (shared s).
Proof.
  intros Hstep. destruct e as [im|st now|a|a|a r|a].
  - by step_inv Hstep.
  - unfold step, manager_step in Hstep.
    destruct st; simpl in Hstep; repeat case_match; simplify_eq; simpl;
      try done; by destruct (trigger_frame a (shared s)).
  - by step_inv Hstep.
  - by step_inv Hstep.
  - unfold step, infer_step, from_exec, note_lost in Hstep.
    by repeat case_match; simplify_eq.
  - by step_inv Hstep.
Qed.







Lemma other_step_manager_pc e s s' st :
  is_manager e = false -> step e s = Next s' ->
  manager_pc st s' = manager_pc st s /\ person_pub s' = person_pub s.
Proof.
  intros He Hstep. destruct e as [im|st' now|a|a|a r|a]; try done.
  - by step_inv Hstep; destruct st.
  - by step_inv Hstep; destruct st.
  - by step_inv Hstep; destruct st.
  - unfold step, infer_step, from_exec, note_lost in Hstep.
    by repeat case_match; simplify_eq; destruct st.
  - by step_inv Hstep; destruct st.
Qed.








(** *** Trigger flags *)

Lemma trigger_set a n : get a (is_called n) = true -> trigger a n = n.
Proof. intros E. unfold trigger. rewrite E. by destruct (get a (open_ n)). Qed.

Lemma trigger_closed a n : get a (open_ n) = false -> trigger a n = n.
Proof. intros E. unfold trigger. by rewrite E. Qed.

Lemma trigger_clear a n :
  get a (open_ n) = true -> get a (is_called n) = false ->
  is_called (trigger a n) = set a true (is_called n) /\
  process_num (trigger a n) = process_num n + 1.
Proof. intros Ho Hc. unfold trigger. by rewrite Ho, Hc. Qed.

Lemma trigger_cases a n :
  trigger a n = n \/
  (get a (is_called n) = false /\
   is_called (trigger a n) = set a true (is_called n) /\
   process_num (trigger a n) = process_num n + 1).
Proof.
  destruct (get a (open_ n)) eqn:Ho; [|left; by apply trigger_closed].
  destruct (get a (is_called n)) eqn:Hc; [left; by apply trigger_set|].
  right. split; [done|]. by apply trigger_clear.
Qed.

(** How one step changes the flags and the counter. *)
Lemma step_flags e s s' :
  step e s = Next s' ->
  match e with
  | Manager _ _ =>
      (is_called (shared s') = is_called (shared s) /\
       process_num (shared s') = process_num (shared s)) \/
      (exists b, get b (is_called (shared s)) = false /\
                 is_called (shared s') = set b true (is_called (shared s)) /\
                 process_num (shared s') = process_num (shared s) + 1)
  | Wake b =>
      get b (is_called (shared s)) = true /\
      is_called (shared s') = set b false (is_called (shared s)) /\
      process_num (shared s') = process_num (shared s)
  | Store _ =>
      is_called (shared s') = is_called (shared s) /\
      process_num (shared s') = process_num (shared s) - 1
  | _ =>
      is_called (shared s') = is_called (shared s) /\
      process_num (shared s') = process_num (shared s)
  end.
Proof.
  intros Hstep. destruct e as [im|st now|a|a|a r|a].
  - by step_inv Hstep.
  - unfold step, manager_step in Hstep.
    destruct st; simpl in *; repeat case_match; simplify_eq; simpl;
      try (by left);
      (destruct (trigger_cases a (shared s)) as [->|(?&?&?)];
       [by left|right; by exists a]).
  - by step_inv Hstep.
  - by step_inv Hstep.
  - unfold step, infer_step, from_exec, note_lost in Hstep.
    by repeat case_match; simplify_eq.
  - by step_inv Hstep.
Qed.

Lemma step_raises e s s' a :
  step e s = Next s' ->
  get a (is_called (shared s)) = false -> get a (is_called (shared s')) = true ->
  is_manager e = true /\ process_num (shared s') = process_num (shared s) + 1.
Proof.
  intros Hstep H0 H1. pose proof (step_flags e s s' Hstep) as Hf.
  destruct e as [im|st now|b|b|b r|b]; simpl in *;
    try (destruct Hf as [Hf _]; rewrite Hf in H1; congruence).
  - destruct Hf as [[Hf _]|(b & _ & _ & Hn)]; [rewrite Hf in H1; congruence|done].
  - destruct Hf as (_ & Hf & _). rewrite Hf in H1.
    destruct (decide (a = b)) as [->|Hne].
    + by rewrite get_set_eq in H1.
    + rewrite get_set_ne in H1 by done. congruence.
Qed.

Lemma step_clears e s s' a :
  step e s = Next s' ->
  get a (is_called (shared s)) = true -> get a (is_called (shared s')) = false ->
  e = Wake a.
Proof.
  intros Hstep H1 H0. pose proof (step_flags e s s' Hstep) as Hf.
  destruct e as [im|st now|b|b|b r|b]; simpl in *;
    try (destruct Hf as [Hf _]; rewrite Hf in H0; congruence).
  - destruct Hf as [[Hf _]|(b & _ & Hf & _)]; rewrite Hf in H0; [congruence|].
    destruct (decide (a = b)) as [->|Hne].
    + by rewrite get_set_eq in H0.
    + rewrite get_set_ne in H0 by done. congruence.
  - destruct Hf as (_ & Hf & _). rewrite Hf in H0.
    destruct (decide (a = b)) as [->|Hne]; [done|].
    rewrite get_set_ne in H0 by done. congruence.
Qed.

Lemma step_counts_up e s s' :
  step e s = Next s' -> process_num (shared s) < process_num (shared s') ->
  exists a, get a (is_called (shared s)) = false /\
            get a (is_called (shared s')) = true.
Proof.
  intros Hstep Hlt. pose proof (step_flags e s s' Hstep) as Hf.
  destruct e as [im|st now|b|b|b r|b]; simpl in *; try lia.
  destruct Hf as [[_ Hn]|(b & Hb & Hf & _)]; [lia|].
  exists b. split; [done|]. by rewrite Hf, get_set_eq.
Qed.

Lemma flag_kept a evs : forall s s',
  run evs s = Next s' ->
  get a (is_called (shared s)) = true -> get a (is_called (shared s')) = false ->
  In (Wake a) evs.
Proof.
  induction evs as [|e rest IH]; intros s s' Hrun H1 H0; simpl in *.
  - simplify_eq; congruence.
  - destruct (step e s) as [s1| |] eqn:E; try done.
    destruct (get a (is_called (shared s1))) eqn:Hs1.
    + right. by apply (IH s1 s').
    + left. by apply (step_clears e s s1 a).
Qed.

(** *** Worker threads *)

Lemma wake_step_spec a s s' :
  step (Wake a) s = Next s' ->
  get a (worker_pc s) = WWait /\ get a (is_called (shared s)) = true /\
  get a (worker_pc s') <> WWait /\ get a (is_called (shared s')) = false.
Proof.
  intros Hstep. unfold step, wake_step in Hstep.
  repeat case_match; simplify_eq; simpl;
    rewrite !get_set_eq; by repeat split.
Qed.

Lemma step_back_to_wait e s s' a :
  step e s = Next s' ->
  get a (worker_pc s) <> WWait -> get a (worker_pc s') = WWait ->
  e = Store a.
Proof.
  intros Hstep Hbusy Hwait.
  assert (forall b pc, pc <> WWait -> get a (set b pc (worker_pc s)) <> WWait)
    as Hset.
  { intros b pc Hpc. destruct (decide (a = b)) as [->|Hne].
    - by rewrite get_set_eq.
    - by rewrite get_set_ne. }
  destruct e as [im|st now|b|b|b r|b].
  - by step_inv Hstep.
  - unfold step, manager_step in Hstep.
    by destruct st; simpl in *; repeat case_match; simplify_eq.
  - unfold step, wake_step in Hstep.
    repeat case_match; simplify_eq; simpl in *; by apply Hset in Hwait.
  - unfold step, snapshot_step, from_exec in Hstep.
    repeat case_match; simplify_eq; simpl in *; by apply Hset in Hwait.
  - unfold step, infer_step, from_exec, note_lost in Hstep.
    repeat case_match; simplify_eq; destruct a; simpl in *; congruence.
  - unfold step, store_step, from_exec in Hstep.
    repeat case_match; simplify_eq; simpl in *.
    destruct (decide (a = b)) as [->|Hne]; [done|].
    rewrite get_set_ne in Hwait by done. done.
Qed.

Lemma worker_back a evs : forall s s',
  run evs s = Next s' ->
  get a (worker_pc s) <> WWait -> get a (worker_pc s') = WWait ->
  In (Store a) evs.
Proof.
  induction evs as [|e rest IH]; intros s s' Hrun Hbusy Hwait; simpl in *.
  - by simplify_eq.
  - destruct (step e s) as [s1| |] eqn:E; try done.
    destruct (get a (worker_pc s1)) eqn:Hs1;
      [left; by apply (step_back_to_wait e s s1 a)
      |right; apply (IH s1 s'); [done|by rewrite Hs1|done]..].
Qed.

(** *** The ReID annotation in the reports *)

Lemma update_at_Forall {A} (P : A -> Prop) (f : A -> A) v i v' :
  (forall a, P a -> P (f a)) -> Forall P v ->
  update_at v i f = Done v' -> Forall P v'.
Proof.
  intros Hf Hv. unfold update_at, at_index.
  destruct (size v <=? i); [done|].
  destruct (v !! Z.to_nat i) as [a|] eqn:Ha; [|done].
  intros [= <-]. apply Forall_insert; [done|].
  apply Hf. by eapply Forall_lookup_1.
Qed.

Lemma write_by_position_Forall {A} (P : BodyT -> Prop) (f : A -> BodyT -> BodyT)
    from : forall i to to',
  (forall a b, P b -> P (f a b)) -> Forall P to ->
  write_by_position f from i to = Done to' -> Forall P to'.
Proof.
  induction from as [|a rest IH]; intros i to to' Hf Hto; simpl.
  - by intros [= <-].
  - destruct (update_at to i (f a)) as [to1|] eqn:E; [|done].
    change (mbind ?g (Done ?x)) with (g x). cbv beta.
    apply IH; [done|].
    apply (update_at_Forall P (f a) to i to1); [intros; by apply Hf|done|done].
Qed.

Lemma write_result_no_reid o p p' :
  no_reid p -> write_result o p = Done p' -> no_reid p'.
Proof.
  unfold no_reid. intros Hp. destruct o; simpl.
  - intros [= <-]. simpl. induction detected; by constructor.
  - destruct (Convert_face h faces (face_info p)); [|done]. by intros [= <-].
  - destruct is_success; by intros [= <-].
  - destruct (negb (person_id =? -1)); [|by intros [= <-]].
    unfold AddReid.
    destruct (negb (size (infos (body_info p)) =? 0)) eqn:Hsize; simpl.
    + by intros [= <-].
    + apply negb_false_iff, Z.eqb_eq in Hsize. unfold size in Hsize.
      destruct (infos (body_info p)); [|done]. done.
  - destruct is_success; [|by intros [= <-]].
    unfold Convert_gesture.
    destruct (write_by_position _ gestures 0 (infos (body_info p))) as [l|] eqn:E;
      [|done].
    intros [= <-]. simpl.
    eapply write_by_position_Forall; [|exact Hp|exact E]. by intros ? [].
  - unfold Convert_keypoints.
    destruct (write_by_position _ bodies_keypoints 0 (infos (body_info p)))
      as [l|] eqn:E; [|done].
    intros [= <-]. simpl.
    eapply write_by_position_Forall; [|exact Hp|exact E]. by intros ? [].
Qed.

Lemma step_unannotated e s s' :
  unannotated s -> step e s = Next s' -> unannotated s'.
Proof.
  intros [Hres Hpub] Hstep. unfold unannotated.
  destruct e as [im|st now|a|a|a r|a].
  - by step_inv Hstep.
  - unfold step, manager_step in Hstep.
    destruct st; simpl in *; repeat case_match; simplify_eq; simpl;
      try done;
      try (unfold trigger; by repeat case_match);
      (split; [by apply Forall_nil|apply Forall_app; split; [done|]];
       by repeat constructor).
  - by step_inv Hstep.
  - by step_inv Hstep.
  - unfold step, infer_step, from_exec, note_lost in Hstep.
    by repeat case_match; simplify_eq.
  - unfold step, store_step, from_exec in Hstep.
    repeat case_match; simplify_eq; simpl. split; [|done].
    by eapply write_result_no_reid.
Qed.

(** *** Runs of an Active session *)

Lemma reachable_counted n evs s :
  quiescent n -> run evs (boot n) = Next s -> counted s.
Proof.
  intros Hq. apply (run_invariant counted); [|by apply boot_counted].
  intros e s0 s1 H0 H1. by apply (step_counted e s0).
Qed.






(** C6 (the code at the failing schedules), Body and Gesture enabled.
    First schedule: the Body worker has appended to the history, which
    triggers Stage 2, but has not yet stored its list in the report; the
    Gesture worker stores first and indexes the empty body list at 0.
    Second schedule: the Gesture worker answers for the body of frame 1
    after the Body worker has stored the body of frame 2; the published
    report carries the body of frame 2 with the gesture found for the body
    of frame 1. *)
Theorem gesture_store_unordered :
  run gesture_before_body (boot (active (only [Body; Gesture]))) = Undefined 0 0 /\
  (exists s,
     run gesture_after_next_body (boot (active (only [Body; Gesture]))) = Next s /\
     person_pub s
     = [mkPerson (mkHeader 9)
          (mkBodyInfo (mkHeader 2) 1
             [mkBodyT (mkROI 200 200 30 30) ""
                      (mkGesture (mkROI 20 20 5 5) 3) []])
          (mkFaceInfo header0 0 []) (mkTrackResult header0 roi0)]).
Proof. split; [by vm_compute|]. eexists. by vm_compute. Qed.

(** C7: a trigger block leaves a flag that is set, and the counter, as
    they are, and on a clear flag of an enabled algorithm it sets the flag
    and adds one to the counter; in any step a flag goes up only in a
    manager's step that adds one to the counter, the counter goes up only
    with a flag, and a flag goes down only in the wake-up of its own
    worker, so a flag that is set stays untouched until the worker has
    consumed it; a worker wakes only from its wait, and once it has left
    the wait it is back there only after its store block, so two
    invocations never overlap. *)
Theorem trigger_only_when_clear :
  (forall a n, get a (is_called n) = true -> trigger a n = n) /\
  (forall a n,
     get a (open_ n) = true -> get a (is_called n) = false ->
     is_called (trigger a n) = set a true (is_called n) /\
     process_num (trigger a n) = process_num n + 1) /\
  (forall e s s' a,
     step e s = Next s' ->
     get a (is_called (shared s)) = false ->
     get a (is_called (shared s')) = true ->
     is_manager e = true /\
     process_num (shared s') = process_num (shared s) + 1) /\
  (forall e s s',
     step e s = Next s' -> process_num (shared s) < process_num (shared s') ->
     exists a, get a (is_called (shared s)) = false /\
               get a (is_called (shared s')) = true) /\
  (forall a evs s s',
     run evs s = Next s' ->
     get a (is_called (shared s)) = true ->
     get a (is_called (shared s')) = false ->
     In (Wake a) evs) /\
  (forall a s s',
     step (Wake a) s = Next s' ->
     get a (worker_pc s) = WWait /\ get a (is_called (shared s)) = true /\
     get a (worker_pc s') <> WWait /\ get a (is_called (shared s')) = false) /\
  (forall a evs s s',
     run evs s = Next s' ->
     get a (worker_pc s) <> WWait -> get a (worker_pc s') = WWait ->
     In (Store a) evs).
Proof.
  split; [exact trigger_set|]. split; [exact trigger_clear|].
  split; [exact step_raises|]. split; [exact step_counts_up|].
  split; [intros a evs s s'; apply flag_kept|].
  split; [exact wake_step_spec|].
  intros a evs s s'. apply worker_back.
Qed.

(** C7 at a node where Body is enabled and already triggered: the trigger
    block changes nothing. *)
Lemma trigger_only_when_clear_witness :
  let n := set_process_num 1
             (set_is_called (set Body true (every false)) (active (only [Body]))) in
  trigger Body n = n.
Proof. intro n. exact (proj1 trigger_only_when_clear Body n eq_refl). Defined.

(** C8: [AddReid] returns the body list as it was whenever the list is not
    empty; on an empty list it writes at index 0, outside the list; and in
    a run that starts without annotation no published report carries a
    ReID annotation on any body. *)
Theorem AddReid_never_annotates :
  (forall body_info id tracked,
     infos body_info <> [] -> AddReid body_info id tracked = Done body_info) /\
  (forall body_info id tracked,
     infos body_info = [] -> AddReid body_info id tracked = OutOfRange 0 0) /\
  (forall n evs s,
     no_reid (algo_result_ n) -> run evs (boot n) = Next s ->
     Forall no_reid (person_pub s)).
Proof.
  split; [exact AddReid_nonempty|]. split; [exact AddReid_empty|].
  intros n evs s Hn Hrun.
  apply (run_invariant unannotated) with (s' := s) (evs := evs) (s := boot n).
  - intros e s0 s1 H0 H1. by apply (step_unannotated e s0).
  - split; [done|]. apply Forall_nil_2.
  - done.
Qed.

(** C8 at a report with one body: the person id 7 is not recorded. *)
Lemma AddReid_never_annotates_witness :
  AddReid (mkBodyInfo header0 1 [body0]) 7 (mkRect 0 0 4 4)
  = Done (mkBodyInfo header0 1 [body0]).
Proof.
  exact (proj1 AddReid_never_annotates (mkBodyInfo header0 1 [body0]) 7
           (mkRect 0 0 4 4) ltac:(done)).
Defined.

(** ** Further properties of the code *)

(** X1 at the region (10,10,50,50). *)
Lemma GetIOU_identical_witness :
  GetIOU (mkBody 10 10 50 50) (mkROI 10 10 50 50) = Fin 1.
Proof. apply (GetIOU_identical 10 10 50 50); lia. Defined.

(** X2 at a ten-by-ten square inside a twenty-by-twenty one. *)
Lemma GetIOU_contained_quarter_witness :
  GetIOU (mkBody 5 5 10 10) (mkROI 0 0 20 20) = Fin (1 # 4).
Proof. apply (GetIOU_contained_quarter 5 5 10 10 0 0 20 20); lia. Defined.

(** X3: the detection history never grows beyond [buf_size_] entries, and
    the entry just detected is its most recent one.  Below [buf_size_]
    entries nothing is dropped; at [buf_size_] entries the oldest entry,
    and only that one, is dropped before the new one is appended. *)
Theorem BodyDet_push_bounded stamped_img detected r :
  size (body_infos r) <= buf_size_ ->
  size (body_infos (BodyDet_push stamped_img detected r)) <= buf_size_ /\
  last (body_infos (BodyDet_push stamped_img detected r)) = Some detected /\
  detection_img (BodyDet_push stamped_img detected r) = stamped_img /\
  body_filled (BodyDet_push stamped_img detected r) = true /\
  (size (body_infos r) < buf_size_ ->
   body_infos (BodyDet_push stamped_img detected r) = body_infos r ++ [detected]) /\
  (size (body_infos r) = buf_size_ ->
   exists oldest kept,
     body_infos r = oldest :: kept /\
     body_infos (BodyDet_push stamped_img detected r) = kept ++ [detected] /\
     size (body_infos (BodyDet_push stamped_img detected r)) = buf_size_).
Proof.
  intros Hle. unfold BodyDet_push, size, buf_size_ in *; simpl.
  split.
  { destruct (Z.leb_spec 6 (Z.of_nat (length (body_infos r))));
      rewrite length_app, ?length_drop; simpl; lia. }
  split; [by rewrite last_snoc|]. split; [done|]. split; [done|]. split.
  - intros Hlt.
    by destruct (Z.leb_spec 6 (Z.of_nat (length (body_infos r)))); [lia|].
  - intros Hfull.
    destruct (Z.leb_spec 6 (Z.of_nat (length (body_infos r)))); [|lia].
    destruct (body_infos r) as [|oldest kept]; [simpl in Hfull; lia|].
    exists oldest, kept. split; [done|]. split; [done|].
    change (drop 1 (oldest :: kept)) with kept. rewrite length_app.
    change (length (oldest :: kept)) with (S (length kept)) in Hfull.
    change (length [detected]) with 1%nat. lia.
Qed.

(** X3 at a full history: the entry of frame 1 goes, those of frames 2 to
    6 stay in their order, and the new one is the most recent. *)
Lemma BodyDet_push_bounded_witness :
  let r := mkBodyResults false
             (map (fun i => [mkBody i i 10 10]) [1; 2; 3; 4; 5; 6])
             (mkStamped 6 (mkHeader 6)) in
  let r' := BodyDet_push (mkStamped 7 (mkHeader 7)) [mkBody 7 7 10 10] r in
  size (body_infos r') <= buf_size_ /\
  body_infos r' = map (fun i => [mkBody i i 10 10]) [2; 3; 4; 5; 6; 7] /\
  detection_img r' = mkStamped 7 (mkHeader 7).
Proof.
  intros r r'.
  destruct (BodyDet_push_bounded (mkStamped 7 (mkHeader 7)) [mkBody 7 7 10 10] r)
    as (Hsize & _ & Himg & _ & _ & Hfull).
  { by vm_compute. }
  split; [exact Hsize|]. split; [|exact Himg].
  destruct (Hfull eq_refl) as (oldest & kept & Hold & Hnew & _).
  subst r'. rewrite Hnew. simpl in Hold. by simplify_eq.
Defined.

(** X4: in every state of a run that starts with no trigger pending, the
    counter [process_num] is the number of triggers not yet worked off
    (flags still set plus workers under way), of both stages together. *)
Theorem counter_counts_pending n evs s :
  quiescent n -> run evs (boot n) = Next s ->
  process_num (shared s) = pending s /\ 0 <= process_num (shared s) <= 12.
Proof.
  intros Hq Hrun. destruct (reachable_counted n evs s Hq Hrun) as (_ & Hnum & _).
  split; [done|]. rewrite Hnum. unfold pending.
  pose proof (total_nonneg b2z (is_called (shared s)) b2z_nonneg).
  pose proof (total_nonneg busy (worker_pc s) busy_nonneg).
  pose proof (total_at_most b2z (is_called (shared s))
                (fun b => ltac:(by destruct b))).
  pose proof (total_at_most busy (worker_pc s)
                (fun pc => ltac:(by destruct pc))).
  lia.
Qed.

(** X4 after the second frame arrived early: one trigger pending. *)
Lemma counter_counts_pending_witness :
  process_num (shared (final second_frame_early
                         (boot (active (only [Body; Gesture])))))
  = pending (final second_frame_early (boot (active (only [Body; Gesture])))).
Proof.
  refine (proj1 (counter_counts_pending (active (only [Body; Gesture]))
                   second_frame_early _ _ _)); by vm_compute.
Defined.

(** X5: on a history that is not empty every index [GetMatchBody] reads is
    within the bounds: the call returns. *)
Theorem GetMatchBody_in_bounds `{Trackers} r reid_ptr roi :
  body_infos r <> [] -> size (body_infos r) < 2 ^ 64 ->
  exists code reid', GetMatchBody r reid_ptr roi = Done (code, reid').
Proof.
  intros Hne Hlt.
  assert (forall i start, (i < length (body_infos r))%nat ->
            exists found, match_scan r roi i start = Done found) as Htotal.
  { induction i as [|i IH]; intros start Hi; [by eexists|].
    destruct (lookup_lt_is_Some_2 (body_infos r) (S i) Hi) as [e He].
    cbn [match_scan]. rewrite (at_index_lookup _ _ _ He).
    change (mbind ?f (Done ?a)) with (f a). cbv beta.
    destruct (match_entry e roi dzero start) as [m rc].
    destruct (dgt m half); [by eexists|]. apply IH. lia. }
  destruct (Htotal (length (body_infos r) - 1)%nat rect0) as [found Hfound].
  { destruct (body_infos r); [done|]. rewrite length_cons. lia. }
  unfold GetMatchBody. rewrite find_match_start, Hfound by done.
  change (mbind ?f (Done ?a)) with (f a). cbv beta.
  destruct found as [[image target]|]; [|by eexists _, _].
  destruct (reid_SetTracker reid_ptr image target) as [ret reid'].
  destruct (negb (ret =? 0)); by eexists _, _.
Qed.

(** X5 at the history of three detections. *)
Lemma GetMatchBody_in_bounds_witness :
  exists code reid',
    @GetMatchBody log_trackers history3 [] (mkROI 10 10 50 50) = Done (code, reid').
Proof.
  apply (@GetMatchBody_in_bounds log_trackers history3 [] (mkROI 10 10 50 50)).
  - done.
  - by vm_compute.
Defined.

(** * More of the code *)

(** ** Conversions between regions *)

Lemma u32_i32 z : u32 (i32 z) = u32 z.
Proof.
  unfold u32, i32. rewrite Zminus_mod_idemp_l. f_equal. lia.
Qed.

Lemma i32_u32 z : i32 (u32 z) = i32 z.
Proof. unfold u32, i32. by rewrite Zplus_mod_idemp_l. Qed.

(** X6: the two region conversions are inverse to each other: a region
    of interest converted to a rectangle and back is unchanged, and so is
    a rectangle (also one with negative coordinates) converted to a region
    of interest and back. *)
Theorem Convert_round_trip roi bbox :
  roi_valid roi -> rect_valid bbox ->
  Convert_rect (Convert_roi roi) = roi /\
  Convert_roi (Convert_rect bbox) = bbox.
Proof.
  intros (?&?&?&?) (?&?&?&?). unfold is_uint32, is_int in *.
  destruct roi, bbox; unfold Convert_rect, Convert_roi; simpl in *.
  rewrite !u32_i32, !i32_u32.
  by rewrite !u32_small, !i32_small by lia.
Qed.

Lemma Convert_round_trip_witness :
  Convert_rect (Convert_roi (mkROI 4294967290 7 30 40)) = mkROI 4294967290 7 30 40 /\
  Convert_roi (Convert_rect (mkRect (-6) 7 30 40)) = mkRect (-6) 7 30 40.
Proof.
  apply (Convert_round_trip (mkROI 4294967290 7 30 40) (mkRect (-6) 7 30 40));
    unfold roi_valid, rect_valid, is_uint32, is_int; simpl; lia.
Defined.

(** X7: for two regions of positive size that overlap or touch, [GetIOU]
    is the area of the intersection divided by the area of the union,
    a ratio between 0 and 1 (coordinates and areas within the range of
    [int]). *)
Theorem GetIOU_overlapping l1 t1 w1 h1 l2 t2 w2 h2 :
  0 <= l1 -> 0 <= t1 -> 0 < w1 -> 0 < h1 ->
  0 <= l2 -> 0 <= t2 -> 0 < w2 -> 0 < h2 ->
  l1 + w1 < 2 ^ 31 -> t1 + h1 < 2 ^ 31 ->
  l2 + w2 < 2 ^ 31 -> t2 + h2 < 2 ^ 31 ->
  w1 * h1 + w2 * h2 < 2 ^ 31 ->
  Z.max l1 l2 <= Z.min (l1 + w1) (l2 + w2) ->
  Z.max t1 t2 <= Z.min (t1 + h1) (t2 + h2) ->
  let inter := (Z.min (l1 + w1) (l2 + w2) - Z.max l1 l2)
               * (Z.min (t1 + h1) (t2 + h2) - Z.max t1 t2) in
  let union := w1 * h1 + w2 * h2 - inter in
  GetIOU (mkBody l1 t1 w1 h1) (mkROI l2 t2 w2 h2)
    = Fin (Qred (inter # Z.to_pos union)) /\
  0 <= inter <= union.
Proof.
  intros ? ? ? ? ? ? ? ? ? ? ? ? ? Hx Hy inter union.
  set (iw := Z.min (l1 + w1) (l2 + w2) - Z.max l1 l2) in *.
  set (ih := Z.min (t1 + h1) (t2 + h2) - Z.max t1 t2) in *.
  assert (0 <= iw <= w1 /\ iw <= w2) as (?&?) by (unfold iw; lia).
  assert (0 <= ih <= h1 /\ ih <= h2) as (?&?) by (unfold ih; lia).
  assert (0 <= inter) by (apply Z.mul_nonneg_nonneg; lia).
  assert (inter <= w1 * h1) by (apply Z.mul_le_mono_nonneg; lia).
  assert (inter <= w2 * h2) by (apply Z.mul_le_mono_nonneg; lia).
  assert (0 < w1 * h1) by (apply Z.mul_pos_pos; lia).
  assert (0 < w2 * h2) by (apply Z.mul_pos_pos; lia).
  split; [|unfold union; lia].
  unfold GetIOU; simpl.
  rewrite !overlap_signed_difference by lia.
  fold iw ih inter.
  rewrite (i32_small inter) by lia.
  rewrite (u32_small (w1 * h1)), (u32_small (w2 * h2)), (u32_small inter) by lia.
  rewrite (u32_small (w1 * h1 + w2 * h2)) by lia.
  fold union. rewrite (u32_small union) by (unfold union; lia).
  apply ddiv_ratio; unfold union; lia.
Qed.

Lemma GetIOU_overlapping_witness :
  GetIOU (mkBody 0 0 10 10) (mkROI 5 5 10 10) = Fin (1 # 7).
Proof.
  apply (GetIOU_overlapping 0 0 10 10 5 5 10 10); lia.
Defined.

(** ** The time stamp of a frame *)

(** X8: up to the last nanosecond that an [int32] count of seconds can
    express, the time stamp [ImageProc] writes splits the nanosecond
    count without loss: seconds and nanoseconds are in range and add up
    to the count. *)
Theorem ImageProc_stamp_exact time :
  0 <= time < 2 ^ 31 * 1000000000 ->
  0 <= sec (ImageProc_stamp time) < 2 ^ 31 /\
  0 <= nanosec (ImageProc_stamp time) < 1000000000 /\
  sec (ImageProc_stamp time) * 1000000000 + nanosec (ImageProc_stamp time) = time.
Proof.
  intros Ht. unfold ImageProc_stamp; simpl.
  pose proof (Z.mod_pos_bound time 1000000000 ltac:(lia)).
  pose proof (Z.div_mod time 1000000000 ltac:(lia)).
  assert (0 <= time / 1000000000 < 2 ^ 31).
  { split; [apply Z.div_pos; lia|]. apply Z.div_lt_upper_bound; lia. }
  rewrite i32_small, u32_small by lia. lia.
Qed.

Lemma ImageProc_stamp_exact_witness :
  0 <= sec (ImageProc_stamp 1700000000123456789) < 2 ^ 31 /\
  0 <= nanosec (ImageProc_stamp 1700000000123456789) < 1000000000 /\
  sec (ImageProc_stamp 1700000000123456789) * 1000000000
    + nanosec (ImageProc_stamp 1700000000123456789) = 1700000000123456789.
Proof. apply (ImageProc_stamp_exact 1700000000123456789). lia. Defined.

(** ** The detection history over several frames *)

Lemma BodyDet_push_infos im d r :
  (length (body_infos r) <= 6)%nat ->
  body_infos (BodyDet_push im d r)
    = drop (length (body_infos r ++ [d]) - 6) (body_infos r ++ [d]).
Proof.
  intros Hlen. unfold BodyDet_push, buf_size_, size; simpl.
  rewrite length_app; simpl.
  destruct (Z.leb_spec 6 (Z.of_nat (length (body_infos r)))).
  - replace (length (body_infos r) + 1 - 6)%nat with 1%nat by lia.
    rewrite drop_app_le by lia. done.
  - replace (length (body_infos r) + 1 - 6)%nat with 0%nat by lia. done.
Qed.

Lemma BodyDet_pushes_infos ds r :
  (length (body_infos r) <= 6)%nat ->
  body_infos (BodyDet_pushes ds r)
    = drop (length (body_infos r ++ map snd ds) - 6) (body_infos r ++ map snd ds).
Proof.
  revert r. induction ds as [|[im d] ds IH]; intros r Hlen; simpl.
  - rewrite app_nil_r. replace (length (body_infos r) - 6)%nat with 0%nat by lia. done.
  - unfold BodyDet_pushes in *; simpl. rewrite IH.
    + rewrite BodyDet_push_infos by done.
      set (h := body_infos r) in *.
      replace (h ++ d :: map snd ds) with ((h ++ [d]) ++ map snd ds)
        by (by rewrite <- app_assoc).
      set (k := (length (h ++ [d]) - 6)%nat).
      assert (k <= length (h ++ [d]))%nat by (unfold k; lia).
      rewrite <- (drop_app_le (h ++ [d]) (map snd ds) k) by done.
      rewrite drop_drop. f_equal.
      rewrite !length_app, length_drop, !length_app. unfold k.
      rewrite !length_app. simpl. lia.
    + rewrite BodyDet_push_infos by done.
      rewrite length_drop, length_app; simpl. lia.
Qed.

(** X9: the detection history is a ring of six: after any number of
    successful detections on a history of at most six entries it holds
    exactly the last six of the old entries followed by the new ones,
    oldest first, and the image kept beside it is the frame of the last
    detection. *)
Theorem BodyDet_history_last_six ds r :
  (length (body_infos r) <= 6)%nat ->
  let all := body_infos r ++ map snd ds in
  body_infos (BodyDet_pushes ds r) = drop (length all - 6) all /\
  (length (body_infos (BodyDet_pushes ds r)) <= 6)%nat /\
  detection_img (BodyDet_pushes ds r)
    = match last ds with Some d => fst d | None => detection_img r end.
Proof.
  intros Hlen all. split; [by apply BodyDet_pushes_infos|]. split.
  - rewrite BodyDet_pushes_infos by done. rewrite length_drop. lia.
  - clear Hlen all. revert r. induction ds as [|d ds IH]; intros r; [done|].
    unfold BodyDet_pushes in *; simpl. rewrite IH.
    destruct ds as [|d' ds]; [done|].
    change (last (d :: d' :: ds)) with (last (d' :: ds)).
    destruct (last (d' :: ds)) eqn:E; [done|]. by apply last_None in E.
Qed.

Lemma BodyDet_history_last_six_witness :
  let ds := map (fun i => (mkStamped i (mkHeader i), [mkBody i i 10 10]))
                [1; 2; 3; 4; 5; 6; 7; 8] in
  body_infos (BodyDet_pushes ds (mkBodyResults false [] (mkStamped 0 header0)))
    = map (fun i => [mkBody i i 10 10]) [3; 4; 5; 6; 7; 8] /\
  detection_img (BodyDet_pushes ds (mkBodyResults false [] (mkStamped 0 header0)))
    = mkStamped 8 (mkHeader 8).
Proof.
  intros ds.
  destruct (BodyDet_history_last_six ds
              (mkBodyResults false [] (mkStamped 0 header0))) as (E1 & _ & E2);
    [simpl; lia|].
  split; [exact E1|exact E2].
Defined.

(** ** The stage-2 conversions *)

Lemma update_at_in_bounds {A} (v : list A) (k : nat) (f : A -> A) a :
  v !! k = Some a -> update_at v (Z.of_nat k) f = Done (<[k := f a]> v).
Proof.
  intros Hk. unfold update_at. rewrite (at_index_lookup _ _ _ Hk).
  change (mbind ?g (Done ?x)) with (g x). cbv beta. by rewrite Nat2Z.id.
Qed.

(** The common loop on a body list that is long enough: entry [k + i] of
    the list is rewritten with element [i] of the engine's answer, the
    other entries stay. *)
Lemma write_by_position_aligned {A} (f : A -> BodyT -> BodyT) from :
  forall (k : nat) to,
    (k + length from <= length to)%nat ->
    exists l,
      write_by_position f from (Z.of_nat k) to = Done l /\
      length l = length to /\
      forall (j : nat) b, to !! j = Some b ->
        l !! j = Some (if decide (k <= j)%nat
                       then match from !! (j - k)%nat with
                            | Some a => f a b
                            | None => b
                            end
                       else b).
Proof.
  induction from as [|a rest IH]; intros k to Hlen; simpl in *.
  - exists to. repeat split. intros j b Hj. rewrite Hj.
    by destruct (decide _).
  - destruct (lookup_lt_is_Some_2 to k ltac:(lia)) as [bk Hk].
    rewrite (update_at_in_bounds _ _ _ _ Hk).
    change (mbind ?g (Done ?x)) with (g x). cbv beta.
    replace (Z.of_nat k + 1) with (Z.of_nat (S k)) by lia.
    destruct (IH (S k) (<[k := f a bk]> to)) as (l & -> & Hl & Hget).
    { rewrite length_insert. lia. }
    exists l. split; [done|]. split; [by rewrite Hl, length_insert|].
    intros j b Hj. destruct (decide (j = k)) as [->|Hne].
    + rewrite (Hget k (f a bk)).
      * rewrite Hk in Hj. injection Hj as ->.
        destruct (decide (S k <= k)%nat); [lia|].
        destruct (decide (k <= k)%nat); [|lia].
        by rewrite Nat.sub_diag.
      * apply list_lookup_insert_eq. by eapply lookup_lt_Some.
    + rewrite (Hget j b) by (by rewrite list_lookup_insert_ne).
      destruct (decide (S k <= j)%nat), (decide (k <= j)%nat); try lia; [|done].
      replace (j - k)%nat with (S (j - S k)) by lia. done.
Qed.

(** The common loop on a body list that is too short: the first write
    beyond the list is at the index that equals its length. *)
Lemma write_by_position_overrun {A} (f : A -> BodyT -> BodyT) from :
  forall (k : nat) to,
    (k <= length to)%nat -> (length to < k + length from)%nat ->
    write_by_position f from (Z.of_nat k) to = OutOfRange (size to) (size to).
Proof.
  induction from as [|a rest IH]; intros k to Hk Hlen; simpl in *; [lia|].
  destruct (decide (k = length to)) as [->|Hne].
  - unfold update_at, at_index, size. by rewrite Z.leb_refl.
  - destruct (lookup_lt_is_Some_2 to k ltac:(lia)) as [bk Hbk].
    rewrite (update_at_in_bounds _ _ _ _ Hbk).
    change (mbind ?g (Done ?x)) with (g x). cbv beta.
    replace (Z.of_nat k + 1) with (Z.of_nat (S k)) by lia.
    rewrite IH by (rewrite length_insert; lia).
    unfold size. by rewrite length_insert.
Qed.

(** X10: when the gesture engine returns no more gestures than the report
    has bodies, the conversion succeeds; it writes gesture [i] into body
    [i], leaves the region, the ReID annotation and the keypoints of every
    body as they were, leaves the bodies beyond the engine's answer
    untouched, and changes neither the number of bodies nor the header
    and count of the list. *)
Theorem Convert_gesture_aligned gestures to :
  (length gestures <= length (infos to))%nat ->
  exists to',
    Convert_gesture gestures to = Done to' /\
    body_header to' = body_header to /\ count to' = count to /\
    length (infos to') = length (infos to) /\
    forall (j : nat) b, infos to !! j = Some b ->
      infos to' !! j
      = Some (match gestures !! j with
              | Some g => mkBodyT (roi b) (reid b)
                            (mkGesture (Convert_rect (rect g)) (label g))
                            (keypoints b)
              | None => b
              end).
Proof.
  intros Hlen. unfold Convert_gesture.
  destruct (write_by_position_aligned
              (fun g => set_gesture (mkGesture (Convert_rect (rect g)) (label g)))
              gestures 0 (infos to) ltac:(lia)) as (l & E & Hl & Hget).
  change (Z.of_nat 0) with 0 in E. rewrite E.
  eexists; split; [reflexivity|]. repeat split; [done|].
  intros j b Hj. simpl. rewrite (Hget j b Hj).
  destruct (decide (0 <= j)%nat); [|lia]. by rewrite Nat.sub_0_r.
Qed.

Lemma Convert_gesture_aligned_witness :
  exists to',
    Convert_gesture [mkGestureInfo (mkRect 20 20 5 5) 3]
      (Convert_body header0 [mkBody 10 10 50 50; mkBody 200 200 30 30]
                    (mkBodyInfo header0 0 [])) = Done to' /\
    infos to' = [mkBodyT (mkROI 10 10 50 50) EmptyString
                         (mkGesture (mkROI 20 20 5 5) 3) [];
                 mkBodyT (mkROI 200 200 30 30) EmptyString gesture0 []].
Proof.
  destruct (Convert_gesture_aligned [mkGestureInfo (mkRect 20 20 5 5) 3]
              (Convert_body header0 [mkBody 10 10 50 50; mkBody 200 200 30 30]
                            (mkBodyInfo header0 0 [])))
    as (to' & E & _); [simpl; lia|].
  exists to'. split; [exact E|].
  vm_compute in E. injection E as <-. reflexivity.
Defined.

(** X11: when the keypoints engine returns no more point lists than the
    report has bodies, the conversion succeeds and leaves region, ReID
    annotation and gesture of every body as they were.  The keypoints of
    body [i] become 136 entries (17 times the byte size of a point: the
    old entries, cut or padded with zero points) followed by the points
    the engine found; on a body list fresh from the body conversion the
    136 entries are all zero points. *)
Theorem Convert_keypoints_aligned kps to :
  (length kps <= length (infos to))%nat ->
  exists to',
    Convert_keypoints kps to = Done to' /\
    length (infos to') = length (infos to) /\
    forall (j : nat) b pts, infos to !! j = Some b -> kps !! j = Some pts ->
      exists b',
        infos to' !! j = Some b' /\
        roi b' = roi b /\ reid b' = reid b /\ gesture b' = gesture b /\
        length (keypoints b') = (136 + length pts)%nat /\
        drop 136 (keypoints b') = pts /\
        (keypoints b = [] -> take 136 (keypoints b') = replicate 136 keypoint0).
Proof.
  intros Hlen. unfold Convert_keypoints.
  destruct (write_by_position_aligned
              (fun pts b =>
                 set_keypoints
                   (resize keypoint0 (kKeypointsNum * sizeof_Point2f) (keypoints b)
                    ++ pts) b)
              kps 0 (infos to) ltac:(lia)) as (l & E & Hl & Hget).
  change (Z.of_nat 0) with 0 in E. rewrite E.
  eexists; split; [reflexivity|]. split; [done|].
  intros j b pts Hj Hp. simpl. rewrite (Hget j b Hj).
  destruct (decide (0 <= j)%nat); [|lia]. rewrite Nat.sub_0_r, Hp.
  eexists; split; [reflexivity|]. simpl. repeat split.
  - unfold resize. change (Z.to_nat (kKeypointsNum * sizeof_Point2f)) with 136%nat.
    rewrite !length_app, length_take, length_replicate. lia.
  - unfold resize. change (Z.to_nat (kKeypointsNum * sizeof_Point2f)) with 136%nat.
    rewrite drop_app_length'; [done|].
    rewrite length_app, length_take, length_replicate. lia.
  - intros ->. unfold resize.
    change (Z.to_nat (kKeypointsNum * sizeof_Point2f)) with 136%nat.
    rewrite take_nil. simpl length. rewrite Nat.sub_0_r, app_nil_l.
    rewrite take_app_length'; [done|]. by rewrite length_replicate.
Qed.

Lemma Convert_keypoints_aligned_witness :
  exists to',
    Convert_keypoints [[mkKeypoint 1 2; mkKeypoint 3 4]]
      (Convert_body header0 [mkBody 10 10 50 50] (mkBodyInfo header0 0 []))
    = Done to' /\
    length (infos to') = 1%nat.
Proof.
  destruct (Convert_keypoints_aligned [[mkKeypoint 1 2; mkKeypoint 3 4]]
              (Convert_body header0 [mkBody 10 10 50 50] (mkBodyInfo header0 0 [])))
    as (to' & E & Hl & _); [simpl; lia|].
  exists to'. split; [exact E|exact Hl].
Defined.

(** X12: when an engine returns more entries than the report has bodies,
    both stage-2 conversions write outside the body list, first at the
    index that equals the number of bodies. *)
Theorem stage2_conversion_overrun gestures kps to :
  (length (infos to) < length gestures)%nat ->
  (length (infos to) < length kps)%nat ->
  Convert_gesture gestures to
    = OutOfRange (size (infos to)) (size (infos to)) /\
  Convert_keypoints kps to
    = OutOfRange (size (infos to)) (size (infos to)).
Proof.
  intros Hg Hk. unfold Convert_gesture, Convert_keypoints.
  change 0 with (Z.of_nat 0).
  by rewrite !write_by_position_overrun by (simpl; lia).
Qed.

Lemma stage2_conversion_overrun_witness :
  Convert_gesture [gesture_A; gesture_A]
    (Convert_body header0 [body_A] (mkBodyInfo header0 0 [])) = OutOfRange 1 1 /\
  Convert_keypoints [[]; []]
    (Convert_body header0 [body_A] (mkBodyInfo header0 0 [])) = OutOfRange 1 1.
Proof.
  apply (stage2_conversion_overrun [gesture_A; gesture_A] [[]; []]
           (Convert_body header0 [body_A] (mkBodyInfo header0 0 [])));
    simpl; lia.
Defined.

(** ** Loading the face library *)

Lemma find_app_first {A} (p : A -> bool) (l k : list A) :
  find p (l ++ k) = match find p l with Some x => Some x | None => find p k end.
Proof. induction l as [|x l IH]; simpl; [done|]. by destruct (p x). Qed.

Lemma existsb_find_None {A} (p : A -> bool) (l : list A) :
  existsb p l = false <-> find p l = None.
Proof.
  induction l as [|x l IH]; simpl; [done|].
  destruct (p x); simpl; [split; discriminate|done].
Qed.

Lemma library_find_insert name kv m :
  library_find name (map_insert kv m)
  = match library_find name m with
    | Some v => Some v
    | None => if String.eqb (fst kv) name then Some (snd kv) else None
    end.
Proof.
  unfold library_find, map_insert.
  destruct (existsb _ m) eqn:Hex.
  - destruct (find (fun e => String.eqb (fst e) name) m) eqn:Hfind; [done|].
    destruct (String.eqb_spec (fst kv) name) as [<-|]; [|done].
    apply existsb_find_None in Hfind. congruence.
  - rewrite find_app_first; simpl.
    destruct (find _ m); [done|]. by destruct (String.eqb (fst kv) name).
Qed.

Lemma map_insert_NoDup kv m :
  NoDup (map fst m) -> NoDup (map fst (map_insert kv m)).
Proof.
  intros Hm. unfold map_insert.
  destruct (existsb _ m) eqn:Hex; [done|].
  rewrite map_app; simpl. apply NoDup_app. split; [done|].
  split; [|apply NoDup_singleton].
  intros x Hx Hkv. apply list_elem_of_singleton in Hkv as ->.
  apply list_elem_of_In, in_map_iff in Hx as (e & He & Hin).
  assert (existsb (fun e => String.eqb (fst e) (fst kv)) m = true); [|congruence].
  apply existsb_exists. exists e. split; [done|]. by apply String.eqb_eq.
Qed.

Lemma LoadFaceLibrary_fold entries : forall m,
  NoDup (map fst m) ->
  NoDup (map fst (fold_left (fun m kv => map_insert kv m) entries m)) /\
  forall name,
    library_find name (fold_left (fun m kv => map_insert kv m) entries m)
    = match library_find name m with
      | Some v => Some v
      | None => library_find name entries
      end.
Proof.
  induction entries as [|kv entries IH]; intros m Hm; simpl.
  - split; [done|]. intros name. by destruct (library_find name m).
  - destruct (IH (map_insert kv m) (map_insert_NoDup kv m Hm)) as [Hnd Hfind].
    split; [done|]. intros name. rewrite Hfind, library_find_insert.
    destruct (library_find name m); [done|].
    unfold library_find at 2; simpl.
    by destruct (String.eqb (fst kv) name).
Qed.

(** X13: [LoadFaceLibrary] returns -1 and leaves the library as it was
    when the file cannot be opened.  Otherwise it returns 0 and the
    library holds the file's entries and nothing of what it held before:
    every name occurs once, and a name that the file lists several times
    keeps the feature of its first entry. *)
Theorem LoadFaceLibrary_result disk library :
  match disk with
  | None => LoadFaceLibrary disk library = (-1, library)
  | Some entries =>
      fst (LoadFaceLibrary disk library) = 0 /\
      NoDup (map fst (snd (LoadFaceLibrary disk library))) /\
      forall name,
        library_find name (snd (LoadFaceLibrary disk library))
        = library_find name entries
  end.
Proof.
  destruct disk as [entries|]; [|done]. simpl.
  destruct (LoadFaceLibrary_fold entries [] (NoDup_nil_2 : NoDup (map fst []))) as [Hnd Hfind].
  repeat split; [done|]. intros name. by rewrite Hfind.
Qed.

(** ** Face enrollment: the accepted frame *)

(** X14: the first frame that passes the pose check ends the enrollment
    run, whatever follows and whether or not a cancel arrives afterwards.
    The run has published the code of every rejected frame before, and
    closes with DUPLICATE (17), naming the matched identity, when the
    first match the engine lists for the frame scores above 0.65, and with
    OK (0) under the requested name otherwise; the closing event carries
    the image of that frame. *)
Theorem enrollment_accepts name fails o rest detect_after :
  Forall rejected fails ->
  elapsed o < 40 -> detect o = true -> pose_ret o = 0 ->
  exists e,
    FaceDetProc name (fails ++ o :: rest) detect_after
      = Returned (map pose_event fails ++ [e]) /\
    ((exists m ms, match_info o = m :: ms /\
                   (duplicate_threshold < match_score m)%Q /\
                   e = mkFaceResult 17 "face already in endlib"
                                    [(mf_face_id m, frame o)]) \/
     ((forall m ms, match_info o = m :: ms ->
                    ~ (duplicate_threshold < match_score m)%Q) /\
      e = mkFaceResult 0 (pose_msg o) [(name, frame o)])).
Proof.
  intros Hf Ht Hd Hp. unfold FaceDetProc.
  destruct (FaceDetProc_loop_rejected fails (o :: rest) detect_after name 0 [] Hf)
    as (mat' & ->).
  simpl. rewrite (proj2 (Z.ltb_lt _ _) Ht), Hd, Hp; simpl.
  destruct (match_info o) as [|m ms] eqn:Hm; simpl.
  - eexists; split; [reflexivity|]. right. split; [done|]. reflexivity.
  - destruct (Qltb duplicate_threshold (match_score m)) eqn:Hq; simpl.
    + eexists; split; [reflexivity|]. left. exists m, ms.
      split; [done|]. split; [by apply Qltb_lt|done].
    + eexists; split; [reflexivity|]. right. split; [|reflexivity].
      intros m' ms' [= <- <-] Hlt. apply Qltb_lt in Hlt. congruence.
Qed.

Lemma enrollment_accepts_witness :
  exists e,
    FaceDetProc "ann"
      ([mkObs 5 true 1 4 "turn left" []]
       ++ mkObs 9 true 2 0 "ok" [] :: [mkObs 12 true 3 0 "ok" []]) false
    = Returned (map pose_event [mkObs 5 true 1 4 "turn left" []] ++ [e]) /\
    e = mkFaceResult 0 "ok" [("ann"%string, 2)].
Proof.
  destruct (enrollment_accepts "ann" [mkObs 5 true 1 4 "turn left" []]
              (mkObs 9 true 2 0 "ok" []) [mkObs 12 true 3 0 "ok" []] false)
    as (e & E & [(m & ms & Hm & _)|[_ He]]).
  - repeat constructor; simpl; lia.
  - simpl; lia.
  - reflexivity.
  - reflexivity.
  - discriminate Hm.
  - exists e. split; [exact E|exact He].
Defined.

(** ** The switchboard on known modules *)

Section SwitchboardFacts.
Context `{Trackers} `{AlgoProtocol}.

Lemma SetAlgoState_node disk x value vm :
  node (SetAlgoState disk x value vm)
    = set_open (open_ (node (SetAlgoState disk x value vm))) (node vm) /\
  focus_ptr_ (SetAlgoState disk x value vm) = focus_ptr_ vm /\
  reid_ptr_ (SetAlgoState disk x value vm) = reid_ptr_ vm /\
  threads_running (SetAlgoState disk x value vm) = threads_running vm.
Proof.
  unfold SetAlgoState. destruct vm as [[] ? ? ? ? ? ?].
  repeat case_match; done.
Qed.

Lemma SetAlgoState_flag disk x value vm a :
  distinct_modules ->
  get a (open_ (node (SetAlgoState disk x value vm)))
  = if algo_module x =? module_of a then value else get a (open_ (node vm)).
Proof.
  unfold distinct_modules. intros Hd.
  repeat match goal with
         | H : NoDup (_ :: _) |- _ => apply NoDup_cons in H as [? H]
         end.
  repeat match goal with
         | H : _ ∉ _ :: _ |- _ => apply not_elem_of_cons in H as [? H]
         end.
  unfold SetAlgoState.
  destruct a; simpl;
    repeat (match goal with
            | |- context [?u =? ?v] => destruct (Z.eqb_spec u v)
            end; simpl);
    try congruence; by destruct value.
Qed.

Lemma fold_SetAlgoState_flag disk value l : forall vm a,
  distinct_modules ->
  get a (open_ (node (fold_left (fun v x => SetAlgoState disk x value v) l vm)))
  = if names a l then value else get a (open_ (node vm)).
Proof.
  induction l as [|x l IH]; intros vm a Hd; simpl; [done|].
  rewrite IH, SetAlgoState_flag by done.
  destruct (algo_module x =? module_of a); simpl; [|done].
  by destruct (names a l).
Qed.

Lemma fold_SetAlgoState_node disk value l : forall vm,
  let vm' := fold_left (fun v x => SetAlgoState disk x value v) l vm in
  node vm' = set_open (open_ (node vm')) (node vm) /\
  focus_ptr_ vm' = focus_ptr_ vm /\ reid_ptr_ vm' = reid_ptr_ vm /\
  threads_running vm' = threads_running vm.
Proof.
  induction l as [|x l IH]; intros vm; simpl.
  - by destruct (node vm).
  - destruct (IH (SetAlgoState disk x value vm)) as (-> & -> & -> & ->).
    destruct (SetAlgoState_node disk x value vm) as (-> & -> & -> & ->).
    done.
Qed.

(** X15: after an [AlgoManagerService] request, an algorithm named in the
    disable list is disabled, also when the enable list names it too; one
    named only in the enable list is enabled; one that the request does
    not name keeps its state.  The request changes nothing else of the
    node's shared members, and touches neither tracker nor the threads. *)
Theorem AlgoManagerService_flags disk req vm :
  distinct_modules ->
  let vm' := snd (AlgoManagerService disk req vm) in
  (forall a,
     get a (open_ (node vm'))
     = if names a (algo_disable req) then false
       else if names a (algo_enable req) then true
       else get a (open_ (node vm))) /\
  node vm' = set_open (open_ (node vm')) (node vm) /\
  focus_ptr_ vm' = focus_ptr_ vm /\ reid_ptr_ vm' = reid_ptr_ vm /\
  threads_running vm' = threads_running vm.
Proof.
  intros Hd vm'. unfold vm', AlgoManagerService; simpl. split.
  - intros a. by rewrite !fold_SetAlgoState_flag by done.
  - destruct (fold_SetAlgoState_node disk false (algo_disable req)
                (fold_left (fun v a => SetAlgoState disk a true v)
                           (algo_enable req) vm)) as (-> & -> & -> & ->).
    destruct (fold_SetAlgoState_node disk true (algo_enable req) vm)
      as (-> & -> & -> & ->).
    done.
Qed.

End SwitchboardFacts.

Lemma AlgoManagerService_flags_witness :
  let vm' := snd (@AlgoManagerService log_trackers sample_protocol None
                    (mkAlgoRequest [mkAlgoList 1; mkAlgoList 2] [mkAlgoList 2])
                    idle_vm) in
  get Body (open_ (node vm')) = true /\ get Gesture (open_ (node vm')) = false /\
  get Face (open_ (node vm')) = false.
Proof.
  intros vm'.
  destruct (@AlgoManagerService_flags log_trackers sample_protocol None
              (mkAlgoRequest [mkAlgoList 1; mkAlgoList 2] [mkAlgoList 2]) idle_vm)
    as (Hflags & _).
  - unfold distinct_modules; simpl.
    repeat (apply NoDup_cons_2;
            [rewrite ?not_elem_of_cons; repeat split;
             try discriminate; apply not_elem_of_nil|]).
    apply NoDup_nil_2.
  - split; [exact (Hflags Body)|]. split; [exact (Hflags Gesture)|exact (Hflags Face)].
Defined.

(** ** Tracking requests with Focus enabled *)

Section FocusFacts.
Context `{Trackers}.

(** X16: with Focus enabled, [TrackingService] reads the latest frame
    without testing that one has arrived: on an empty latest-frame cell
    the read is outside the vector.  Otherwise the response is the focus
    engine's verdict on that frame and the requested region, whatever
    ReID has answered before: an accepted target sets the status to
    tracking, and a rejected one makes the response a failure although a
    ReID target that was accepted stays set and the status stays
    tracking.  With ReID not enabled, a rejected request leaves node and
    ReID engine as they were. *)
Theorem TrackingService_focus_decides vm roi res outcome :
  open_focus_ (node vm) = true ->
  (open_reid_ (node vm) = true ->
   GetMatchBody (body_results_ (node vm)) (reid_ptr_ vm) roi = Done outcome) ->
  match last (img_buf (global_img_buf_ (node vm))) with
  | None => TrackingService vm roi res = OutOfRange (-1) 0
  | Some stamped_img =>
      let answer :=
        focus_SetTracker (focus_ptr_ vm) (img stamped_img) (Convert_roi roi) in
      exists vm',
        TrackingService vm roi res = Done (fst answer, vm') /\
        focus_ptr_ vm' = snd answer /\
        (fst answer = true -> processing_status_ (node vm') = STATUS_TRACKING) /\
        (open_reid_ (node vm) = true ->
         reid_ptr_ vm' = snd outcome /\
         (fst outcome = 0 -> processing_status_ (node vm') = STATUS_TRACKING)) /\
        (open_reid_ (node vm) = false -> fst answer = false ->
         node vm' = node vm /\ reid_ptr_ vm' = reid_ptr_ vm)
  end.
Proof.
  intros Hfocus Hget. unfold TrackingService.
  destruct (open_reid_ (node vm)) eqn:Hreid.
  - rewrite (Hget eq_refl).
    destruct (GetMatchBody_code _ _ _ _ (Hget eq_refl)) as [Hc|Hc];
      destruct outcome as [ret reid']; simpl in Hc; subst ret.
    all: change (mbind ?f (Done ?a)) with (f a); cbv beta iota; simpl.
    all: change (mbind ?f (Done ?a)) with (f a); cbv beta iota.
    + change (open_focus_ (set_processing_status STATUS_TRACKING (node vm)))
        with (open_focus_ (node vm)).
      rewrite Hfocus. unfold back; simpl.
      destruct (last (img_buf (global_img_buf_ (node vm)))) as [im|]; [|done].
      change (mbind ?f (Done ?a)) with (f a); cbv beta iota; simpl.
      destruct (focus_SetTracker (focus_ptr_ vm) (img im) (Convert_roi roi))
        as [ok focus']; simpl.
      destruct ok; simpl; eexists; (split; [reflexivity|]); simpl; by repeat split.
    + rewrite Hfocus. unfold back; simpl.
      destruct (last (img_buf (global_img_buf_ (node vm)))) as [im|]; [|done].
      change (mbind ?f (Done ?a)) with (f a); cbv beta iota; simpl.
      destruct (focus_SetTracker (focus_ptr_ vm) (img im) (Convert_roi roi))
        as [ok focus']; simpl.
      destruct ok; simpl; eexists; (split; [reflexivity|]); simpl; by repeat split.
  - change (mbind ?f (Done ?a)) with (f a); cbv beta iota.
    rewrite Hfocus. unfold back.
    destruct (last (img_buf (global_img_buf_ (node vm)))) as [im|]; [|done].
    change (mbind ?f (Done ?a)) with (f a); cbv beta iota; simpl.
    destruct (focus_SetTracker (focus_ptr_ vm) (img im) (Convert_roi roi))
      as [ok focus']; simpl.
    destruct ok; simpl; eexists; (split; [reflexivity|]); simpl; by repeat split.
Qed.

End FocusFacts.

Lemma TrackingService_focus_decides_witness :
  exists vm',
    TrackingService both_trackers_vm (mkROI 10 10 50 50) true = Done (false, vm') /\
    reid_ptr_ vm' = [(2, mkRect 10 10 50 50)] /\
    processing_status_ (node vm') = STATUS_TRACKING.
Proof.
  pose proof (@TrackingService_focus_decides focus_rejects both_trackers_vm
                (mkROI 10 10 50 50) true (0, [(2, mkRect 10 10 50 50)])
                eq_refl (fun _ => eq_refl)) as Hspec.
  simpl in Hspec. destruct Hspec as (vm' & E & _ & _ & Hreid & _).
  exists vm'. split; [exact E|].
  destruct (Hreid eq_refl) as [Hptr Hstatus].
  split; [exact Hptr|exact (Hstatus eq_refl)].
Defined.

(** ** Deactivation while a trigger is pending *)

Lemma trigger_process_num a n : process_num n <= process_num (trigger a n).
Proof. unfold trigger. repeat case_match; simpl; lia. Qed.

(** While the node is not active, no step lowers the counter below the
    number of workers under way, no report is published, and a manager
    that waits for the counter stays in its wait. *)
Lemma step_stranded e s s' :
  is_activate_ (shared s) = false ->
  total busy (worker_pc s) < process_num (shared s) ->
  step e s = Next s' ->
  total busy (worker_pc s') < process_num (shared s') /\
  person_pub s' = person_pub s /\
  (forall st, manager_pc st s = MWaitZero -> manager_pc st s' = MWaitZero).
Proof.
  intros Hact Hnum Hstep.
  pose proof (total_nonneg busy (worker_pc s) busy_nonneg) as Hbusy.
  destruct e as [im|st now|a|a|a r|a].
  - step_inv Hstep.
  - unfold step, manager_step in Hstep.
    destruct st; simpl in Hstep; repeat case_match; simplify_eq; simpl;
      try (apply Z.eqb_eq in H; lia);
      try (split; [|split; [done|intros []; simpl; congruence]]);
      try done; try (pose proof (trigger_process_num a (shared s)); lia);
      try match goal with H : (_ =? 0) = true |- _ => apply Z.eqb_eq in H; lia end.
  - unfold step, wake_step in Hstep. rewrite Hact in Hstep.
    destruct a; simpl in Hstep; repeat case_match; simplify_eq;
      (split; [unfold total in *; simpl in *; use_pcs; simpl in *; lia|]);
      (split; [done|by intros []]).
  - unfold step, snapshot_step, from_exec in Hstep.
    destruct a; simpl in Hstep; repeat case_match; simplify_eq;
      (split; [unfold total in *; simpl in *; use_pcs; simpl in *; lia|]);
      (split; [done|by intros []]).
  - unfold step, infer_step, from_exec, note_lost in Hstep.
    destruct a; simpl in Hstep; repeat case_match; simplify_eq;
      (split; [unfold total in *; simpl in *; use_pcs; simpl in *; lia|]);
      (split; [done|by intros []]).
  - unfold step, store_step, from_exec in Hstep.
    destruct a; simpl in Hstep; repeat case_match; simplify_eq;
      (split; [unfold total in *; simpl in *; use_pcs; simpl in *; lia|]);
      (split; [done|by intros []]).
Qed.

Lemma teardown_step_stranded t s s' :
  is_activate_ (shared s) = false ->
  total busy (worker_pc s) < process_num (shared s) ->
  teardown_step t s = Next s' ->
  is_activate_ (shared s') = false /\
  total busy (worker_pc s') < process_num (shared s') /\
  person_pub s' = person_pub s /\
  (forall st, manager_pc st s = MWaitZero -> manager_pc st s' = MWaitZero).
Proof.
  intros Hact Hnum Hstep. destruct t as [e|st|a]; simpl in Hstep.
  - split; [|by apply (step_stranded e)].
    destruct (step_frame e s s' Hstep) as [_ ->]. done.
  - simplify_eq. unfold raise_filled.
    destruct st; simpl; case_match; simpl; by repeat split.
  - simplify_eq. unfold WakeThread.
    case_match; simpl; by repeat split.
Qed.

Lemma teardown_run_stranded ts : forall s s',
  is_activate_ (shared s) = false ->
  total busy (worker_pc s) < process_num (shared s) ->
  teardown_run ts s = Next s' ->
  0 < process_num (shared s') /\
  person_pub s' = person_pub s /\
  (forall st, manager_pc st s = MWaitZero -> manager_pc st s' = MWaitZero).
Proof.
  induction ts as [|t ts IH]; intros s s' Hact Hnum Hrun; simpl in Hrun.
  - simplify_eq.
    pose proof (total_nonneg busy (worker_pc s') busy_nonneg). by split; [lia|].
  - destruct (teardown_step t s) as [s1| |] eqn:E; try done.
    destruct (teardown_step_stranded t s s1 Hact Hnum E) as (Hact1 & Hnum1 & Hpub1 & Hpc1).
    destruct (IH s1 s' Hact1 Hnum1 Hrun) as (Hpos & Hpub & Hpc).
    split; [done|]. split; [congruence|]. intros st Hst. by apply Hpc, Hpc1.
Qed.

(** X17: if [on_deactivate] clears [is_activate_] in a state of an Active
    session in which some trigger flag is still set (its worker has not
    taken the trigger yet), then whatever the threads and [DestoryThread]
    do afterwards, the counter stays above zero and nothing is published:
    the worker that takes the trigger leaves without decrementing.  A
    manager that waits for the counter to reach zero therefore stays in
    its wait, and [DestoryThread], which joins the managers before it
    wakes the workers, does not get past its join on that manager. *)
Theorem deactivation_strands_counter n evs s a ts s' :
  quiescent n -> run evs (boot n) = Next s ->
  get a (is_called (shared s)) = true ->
  teardown_run ts (deactivated s) = Next s' ->
  0 < process_num (shared s') /\
  person_pub s' = person_pub s /\
  (forall st, manager_pc st s = MWaitZero -> manager_pc st s' = MWaitZero).
Proof.
  intros Hq Hrun Hflag Htear.
  destruct (reachable_counted n evs s Hq Hrun) as (_ & Hnum & _).
  unfold pending in Hnum.
  assert (1 <= total b2z (is_called (shared s))) as Hflags.
  { pose proof (b2z_nonneg (of_body (is_called (shared s)))).
    pose proof (b2z_nonneg (of_face (is_called (shared s)))).
    pose proof (b2z_nonneg (of_focus (is_called (shared s)))).
    pose proof (b2z_nonneg (of_reid (is_called (shared s)))).
    pose proof (b2z_nonneg (of_gesture (is_called (shared s)))).
    pose proof (b2z_nonneg (of_keypoints (is_called (shared s)))).
    unfold total. destruct a; simpl in Hflag; rewrite Hflag; simpl; lia. }
  destruct (teardown_run_stranded ts (deactivated s) s' eq_refl
              ltac:(simpl; lia) Htear) as (Hpos & Hpub & Hstay).
  split; [done|]. split; [done|]. intros st Hst. apply Hstay. by destruct st.
Qed.

Lemma deactivation_strands_counter_witness :
  let s := final second_frame_early (boot (active (only [Body; Gesture]))) in
  let s' := match teardown_run teardown_example (deactivated s) with
            | Next s' => s'
            | _ => s
            end in
  main_pc s' = MExit /\ get Body (worker_pc s') = WExit /\
  depend_pc s' = MWaitZero /\ 0 < process_num (shared s') /\
  person_pub s' = person_pub s.
Proof.
  intros s s'.
  destruct (deactivation_strands_counter (active (only [Body; Gesture]))
              second_frame_early s Body teardown_example s')
    as (Hnum & Hpub & Hpc).
  - by vm_compute.
  - by vm_compute.
  - by vm_compute.
  - by vm_compute.
  - split; [by vm_compute|]. split; [by vm_compute|].
    split; [apply (Hpc Depend); by vm_compute|]. split; [exact Hnum|exact Hpub].
Defined.

(** ** [DestoryThread] and [on_deactivate] *)

(** A thread that has returned takes no further step. *)
Lemma step_exited e s s' :
  step e s = Next s' ->
  (forall st, manager_pc st s = MExit -> manager_pc st s' = MExit) /\
  (forall a, get a (worker_pc s) = WExit -> get a (worker_pc s') = WExit).
Proof.
  intros Hstep. destruct (is_manager e) eqn:He.
  - destruct e as [im|st now|a|a|a r|a]; try done.
    unfold step, manager_step in Hstep. split.
    + intros st'. destruct st, st'; simpl in *; repeat case_match; simplify_eq;
        simpl; congruence.
    + intros a. destruct st; simpl in *; repeat case_match; simplify_eq; done.
  - split.
    + intros st Hst.
      by rewrite (proj1 (other_step_manager_pc e s s' st He Hstep)).
    + intros b Hb. destruct e as [im|st now|a|a|a r|a]; try done.
      * by step_inv Hstep.
      * destruct a, b; simpl in *; step_inv Hstep; simpl in *; congruence.
      * destruct a, b; simpl in *; step_inv Hstep; simpl in *; congruence.
      * unfold step, infer_step, from_exec, note_lost in Hstep.
        destruct a, b; simpl in *; repeat case_match; simplify_eq; simpl in *;
          congruence.
      * destruct a, b; simpl in *; step_inv Hstep; simpl in *; congruence.
Qed.

Lemma statement_step_frame stmt image s s' :
  statement_step stmt image s = Some s' ->
  is_activate_ (shared s') = is_activate_ (shared s) /\
  main_pc s' = main_pc s /\ depend_pc s' = depend_pc s /\
  worker_pc s' = worker_pc s /\ person_pub s' = person_pub s /\
  process_num (shared s') = process_num (shared s) /\
  exited s' stmt.
Proof.
  intros Hs. destruct stmt as [|st|st|a|a]; simpl in Hs.
  - destruct image; by simplify_eq.
  - simplify_eq. unfold raise_filled.
    destruct st; simpl; case_match; by repeat split.
  - destruct (manager_pc st s) eqn:E; by simplify_eq.
  - simplify_eq. unfold WakeThread. case_match; by repeat split.
  - destruct (get a (worker_pc s)) eqn:E; by simplify_eq.
Qed.

Lemma exited_pcs s s' stmt :
  main_pc s' = main_pc s -> depend_pc s' = depend_pc s ->
  worker_pc s' = worker_pc s -> exited s stmt -> exited s' stmt.
Proof.
  intros Hm Hd Hw. destruct stmt as [|st|st|a|a]; simpl; try done.
  - destruct st; simpl; congruence.
  - congruence.
Qed.

(** When [DestoryThread] returns, every thread it joined has returned, and
    the node is still not active. *)
Lemma destroy_joined sched : forall done rest image s s',
  Forall (exited s) done -> is_activate_ (shared s) = false ->
  destroy sched rest image s = AllJoined s' ->
  Forall (exited s') (done ++ rest) /\ is_activate_ (shared s') = false.
Proof.
  induction sched as [|t sched IH]; intros done rest image s s' Hdone Hact Hrun.
  - destruct rest; simpl in Hrun; simplify_eq. by rewrite app_nil_r.
  - destruct rest as [|stmt rest]; simpl in Hrun.
    { simplify_eq. by rewrite app_nil_r. }
    destruct t as [|e|im|].
    + destruct (statement_step stmt image s) as [s1|] eqn:E; [|done].
      destruct (statement_step_frame _ _ _ _ E)
        as (Hact1 & Hm & Hd & Hw & _ & _ & Hex).
      rewrite (assoc_L _ done [stmt] rest : done ++ stmt :: rest = (done ++ [stmt]) ++ rest).
      apply (IH _ _ image s1); [|congruence|done].
      apply Forall_app. split; [|by apply Forall_singleton].
      eapply Forall_impl; [exact Hdone|]. intros x. by apply exited_pcs.
    + destruct (step e s) as [s1| |] eqn:E; try done.
      destruct (step_frame _ _ _ E) as [_ Hact1].
      destruct (step_exited _ _ _ E) as [Hm Hw].
      apply (IH _ _ image s1); [|congruence|done].
      eapply Forall_impl; [exact Hdone|].
      intros [|st|st|a|a]; simpl; auto.
    + destruct image; try done.
      refine (IH done _ _ _ _ _ _ Hrun); [|done].
      eapply Forall_impl; [exact Hdone|]. intros [|st|st|a|a]; by simpl.
    + destruct image; try done.
      * rewrite Hact in Hrun. by apply (IH _ _ _ _ _ Hdone Hact Hrun).
      * by apply (IH _ _ _ _ _ Hdone Hact Hrun).
Qed.

(** A manager that waits for the counter while the counter exceeds the
    work under way keeps [DestoryThread] in its join. *)
Lemma destroy_stranded st sched : forall rest image s,
  JoinManager st ∈ rest ->
  is_activate_ (shared s) = false ->
  total busy (worker_pc s) < process_num (shared s) ->
  manager_pc st s = MWaitZero ->
  forall s', destroy sched rest image s <> AllJoined s'.
Proof.
  induction sched as [|t sched IH]; intros rest image s Hin Hact Hnum Hpc s'.
  - destruct rest; [by apply elem_of_nil in Hin|done].
  - destruct rest as [|stmt rest]; [by apply elem_of_nil in Hin|]. simpl.
    destruct t as [|e|im|].
    + destruct (statement_step stmt image s) as [s1|] eqn:E; [|done].
      destruct (statement_step_frame _ _ _ _ E)
        as (Hact1 & Hm & Hd & Hw & _ & Hn & Hex).
      apply elem_of_cons in Hin as [<-|Hin].
      { simpl in E. by rewrite Hpc in E. }
      apply IH; [done|congruence|congruence|].
      destruct st; simpl in *; congruence.
    + destruct (step e s) as [s1| |] eqn:E; try done.
      destruct (step_frame _ _ _ E) as [_ Hact1].
      destruct (step_stranded _ _ _ Hact Hnum E) as (Hnum1 & _ & Hpc1).
      apply IH; [done|congruence|done|by apply Hpc1].
    + destruct image; try done. apply IH; try done.
    + destruct image; try done.
      * rewrite Hact. by apply IH.
      * by apply IH.
Qed.

(** A frame that [ImageProc] waits for and that does not come, with no
    failure of the semaphore either, keeps [DestoryThread] in its first
    join. *)
Lemma destroy_no_frame sched : forall rest s,
  Forall (fun t => t <> ImageReturns /\ forall im, t <> LateFrame im) sched ->
  JoinImage ∈ rest ->
  forall s', destroy sched rest IFrame s <> AllJoined s'.
Proof.
  induction sched as [|t sched IH]; intros rest s Hsched Hin s'.
  - destruct rest; [by apply elem_of_nil in Hin|done].
  - destruct rest as [|stmt rest]; [by apply elem_of_nil in Hin|]. simpl.
    apply Forall_cons_1 in Hsched as [[Ht1 Ht2] Hsched].
    destruct t as [|e|im|].
    + destruct (statement_step stmt IFrame s) as [s1|] eqn:E; [|done].
      apply elem_of_cons in Hin as [<-|Hin]; [done|]. by apply IH.
    + destruct (step e s) as [s1| |] eqn:E; try done. by apply IH.
    + by destruct (Ht2 im).
    + done.
Qed.

(** From threads at rest, the prompt schedule takes [DestoryThread] to its
    end; it leaves the node as it was at the call but for the flags. *)
Lemma destroy_at_rest image s :
  at_rest s -> is_activate_ (shared s) = false ->
  DestoryThread (prompt_schedule image) image s
  = AllJoined (mkSystem (left_at_rest (shared s)) MExit MExit (every WExit)
                        (person_pub s) (status_pub s)).
Proof.
  intros (Hm & Hd & Hw) Hact.
  destruct s as [n mpc dpc wpc pp sp]; simpl in *; subst.
  destruct n as [act opens called num [imf imb] [bf bi bim] res stat]; simpl in *; subst.
  destruct called as [c1 c2 c3 c4 c5 c6].
  by destruct image, imf, bf, c1, c2, c3, c4, c5, c6.
Qed.

(** A trigger flag that is still set keeps the counter above the work
    under way. *)
Lemma flag_pending s a :
  counted s -> get a (is_called (shared s)) = true ->
  total busy (worker_pc s) < process_num (shared s).
Proof.
  intros (_ & Hnum & _) Hflag. unfold pending in Hnum.
  pose proof (b2z_nonneg (of_body (is_called (shared s)))).
  pose proof (b2z_nonneg (of_face (is_called (shared s)))).
  pose proof (b2z_nonneg (of_focus (is_called (shared s)))).
  pose proof (b2z_nonneg (of_reid (is_called (shared s)))).
  pose proof (b2z_nonneg (of_gesture (is_called (shared s)))).
  pose proof (b2z_nonneg (of_keypoints (is_called (shared s)))).
  assert (1 <= total b2z (is_called (shared s))); [|lia].
  unfold total. destruct a; simpl in Hflag; rewrite Hflag; simpl; lia.
Qed.

Section DeactivationFacts.
Context `{Trackers}.

(** What [on_deactivate] leaves when it returns. *)
Lemma on_deactivate_returns cam sched image threads vm r vm' s' :
  on_deactivate cam sched image threads vm = Some (r, vm', s') ->
  r = (if service_available cam then SUCCESS else FAILURE) /\
  vm' = (let vm3 := ResetAlgo (set_threads_running false
                                 (set_node (shared s')
                                    (set_node (set_is_activate false (node vm)) vm))) in
         if service_available cam then set_publishers_active false vm3 else vm3) /\
  is_activate_ (shared s') = false /\
  (forall st, manager_pc st s' = MExit) /\
  (forall a, get a (worker_pc s') = WExit).
Proof.
  unfold on_deactivate, DestoryThread. intros Hoff.
  destruct (destroy _ _ _ _) as [s| | |] eqn:E; try done.
  destruct (fun Ha => destroy_joined _ [] _ _ _ _ (Forall_nil_2 _) Ha E)
    as [Hj Hact]; [by destruct vm|].
  rewrite CallService_available in Hoff.
  assert (s' = s) as ->
    by (destruct (service_available cam); simpl in Hoff; by simplify_eq).
  split; [destruct (service_available cam); simpl in Hoff; by simplify_eq|].
  split; [destruct (service_available cam); simpl in Hoff; by simplify_eq|].
  split; [done|]. simpl in Hj. unfold DestoryThread_body in Hj.
  repeat match type of Hj with
         | Forall _ (_ :: _) => apply Forall_cons_1 in Hj as [? Hj]
         end.
  split; [by intros []|by intros []].
Qed.

(** From threads at rest, [on_deactivate] returns under the prompt
    schedule. *)
Lemma on_deactivate_at_rest cam image threads vm :
  at_rest threads ->
  exists vm' s',
    on_deactivate cam (prompt_schedule image) image threads vm
    = Some (if service_available cam then SUCCESS else FAILURE, vm', s') /\
    node vm' = set_open (every false) (left_at_rest (node vm)) /\
    shared s' = left_at_rest (node vm).
Proof.
  intros Hrest. unfold on_deactivate.
  rewrite destroy_at_rest; [|done|done].
  rewrite CallService_available.
  destruct (service_available cam); simpl; eexists _, _; split; try done.
Qed.

(** C5 (amended): when the camera service does not show up within the
    wait of [CallService], [on_activate] returns FAILURE and leaves the
    node as it was.  [on_deactivate], whenever it returns, returns FAILURE
    too, but only after it has cleared [is_activate_], joined every thread,
    reset both trackers and cleared the six enable flags; the publishers
    stay as they were.  It does return when the threads are at rest and
    leave at once.  It does not return when a manager waits for the
    counter while a trigger flag is still set, whatever the threads do; nor
    when [ImageProc], past its test of [is_activate_], gets no further
    turn. *)
Theorem stream_service_unavailable cam vm :
  service_available cam = false ->
  on_activate cam vm = (FAILURE, vm) /\
  (forall sched image threads r vm' s',
     on_deactivate cam sched image threads vm = Some (r, vm', s') ->
     r = FAILURE /\
     is_activate_ (node vm') = false /\
     threads_running vm' = false /\
     (forall st, manager_pc st s' = MExit) /\
     (forall a, get a (worker_pc s') = WExit) /\
     open_ (node vm') = every false /\
     focus_ptr_ vm' = focus_ResetTracker (focus_ptr_ vm) /\
     reid_ptr_ vm' = reid_ResetTracker (reid_ptr_ vm) /\
     publishers_active vm' = publishers_active vm) /\
  (forall image threads,
     at_rest threads ->
     exists vm' s',
       on_deactivate cam (prompt_schedule image) image threads vm
       = Some (FAILURE, vm', s') /\
       node vm' = set_open (every false) (left_at_rest (node vm))) /\
  (forall n evs threads a st sched image,
     quiescent n -> run evs (boot n) = Next threads ->
     shared threads = node vm ->
     get a (is_called (node vm)) = true ->
     manager_pc st threads = MWaitZero ->
     on_deactivate cam sched image threads vm = None) /\
  (forall sched threads,
     image_idle sched ->
     on_deactivate cam sched IFrame threads vm = None).
Proof.
  intros Hdown. split.
  { unfold on_activate. by rewrite CallService_available, Hdown. }
  split.
  { intros sched image threads r vm' s' Hoff.
    destruct (on_deactivate_returns _ _ _ _ _ _ _ _ Hoff)
      as (-> & -> & Hact & Hm & Hw).
    rewrite Hdown. simpl. by repeat split. }
  split.
  { intros image threads Hrest.
    destruct (on_deactivate_at_rest cam image threads vm Hrest)
      as (vm' & s' & Hoff & Hnode & _).
    rewrite Hdown in Hoff. by exists vm', s'. }
  split.
  { intros n evs threads a st sched image Hq Hrun Hshared Hflag Hpc.
    pose proof (reachable_counted n evs threads Hq Hrun) as Hc.
    rewrite <- Hshared in Hflag.
    pose proof (flag_pending threads a Hc Hflag) as Hnum.
    unfold on_deactivate, DestoryThread.
    destruct (destroy _ _ _ _) as [s| | |] eqn:E; try done.
    exfalso. revert E. apply (destroy_stranded st).
    - apply list_elem_of_In. simpl.
      destruct st; repeat (first [left; reflexivity|right]).
    - done.
    - simpl. by rewrite <- Hshared.
    - by destruct st. }
  intros sched threads Hidle. unfold on_deactivate, DestoryThread.
  destruct (destroy _ _ _ _) as [s| | |] eqn:E; try done.
  exfalso. revert E. apply destroy_no_frame; [done|].
  apply list_elem_of_In. by left.
Qed.


End DeactivationFacts.

(** C5 as claimed fails: with the service down and the threads at rest,
    [on_deactivate] returns FAILURE from a running node and yet leaves the
    threads joined, the ReID tracker reset and Body disabled. *)
Lemma failed_deactivate_changes_node :
  let down := mkCamera false None in
  match @on_deactivate log_trackers down (prompt_schedule IHead) IHead
          (boot (node sample_vm)) sample_vm with
  | Some (r, vm', s') =>
      r = FAILURE /\ vm' <> sample_vm /\
      threads_running sample_vm = true /\ threads_running vm' = false /\
      main_pc s' = MExit /\ worker_pc s' = every WExit /\
      open_body_ (node sample_vm) = true /\ open_body_ (node vm') = false /\
      reid_ptr_ sample_vm = [(1, mkRect 10 10 50 50)] /\ reid_ptr_ vm' = []
  | None => False
  end.
Proof. vm_compute. repeat split; discriminate. Qed.

(** C5 (amended) with the service down: activation of the idle node,
    deactivation of the running one with its threads at rest, and
    deactivation of the node on which a trigger is pending. *)
Lemma stream_service_unavailable_witness :
  let down := mkCamera false (Some 0) in
  @on_activate log_trackers down idle_vm = (FAILURE, idle_vm) /\
  (exists vm' s',
     @on_deactivate log_trackers down (prompt_schedule IFrame) IFrame
       (boot (node sample_vm)) sample_vm = Some (FAILURE, vm', s') /\
     open_ (node vm') = every false /\ reid_ptr_ vm' = [] /\
     publishers_active vm' = true) /\
  @on_deactivate log_trackers down (prompt_schedule IHead) IHead
    stranded_threads stranded_vm = None.
Proof.
  intros down.
  destruct (@stream_service_unavailable log_trackers down idle_vm eq_refl)
    as (Ha & _).
  destruct (@stream_service_unavailable log_trackers down sample_vm eq_refl)
    as (_ & Hret & Hrest & _).
  destruct (@stream_service_unavailable log_trackers down stranded_vm eq_refl)
    as (_ & _ & _ & Hhang & _).
  split; [exact Ha|]. split.
  - destruct (Hrest IFrame (boot (node sample_vm))) as (vm' & s' & Hoff & _).
    { by repeat split. }
    exists vm', s'. split; [exact Hoff|].
    destruct (Hret _ _ _ _ _ _ Hoff) as (_ & _ & _ & _ & _ & Ho & _ & Hr & Hp).
    split; [exact Ho|]. split; [exact Hr|exact Hp].
  - apply (Hhang (active (only [Body; Gesture])) second_frame_early
             stranded_threads Body Depend).
    + by vm_compute.
    + by vm_compute.
    + by vm_compute.
    + by vm_compute.
    + by vm_compute.
Defined.

(** ** A deactivation followed by an activation *)

Section ReactivationFacts.
Context `{Trackers}.


End ReactivationFacts.


(** ** What the workers read *)

Lemma step_cell e s s' :
  step e s = Next s' ->
  img_buf (global_img_buf_ (shared s'))
  = match e with
    | Ingest stamped_img => [stamped_img]
    | _ => img_buf (global_img_buf_ (shared s))
    end.
Proof.
  intros Hstep. destruct e as [im|st now|a|a|a r|a].
  - by step_inv Hstep.
  - unfold step, manager_step in Hstep.
    destruct st; simpl in Hstep; repeat case_match; simplify_eq; simpl;
      try done; unfold trigger; by repeat case_match.
  - by step_inv Hstep.
  - by step_inv Hstep.
  - unfold step, infer_step, from_exec, note_lost in Hstep.
    by repeat case_match; simplify_eq.
  - by step_inv Hstep.
Qed.

Lemma run_cell evs : forall s s',
  run evs s = Next s' ->
  img_buf (global_img_buf_ (shared s'))
  = match last (ingested evs) with
    | Some stamped_img => [stamped_img]
    | None => img_buf (global_img_buf_ (shared s))
    end.
Proof.
  induction evs as [|e rest IH]; intros s s' Hrun; simpl in Hrun.
  - by simplify_eq.
  - destruct (step e s) as [s1| |] eqn:E; try done.
    rewrite (IH s1 s' Hrun), (step_cell e s s1 E).
    destruct e; simpl; try done.
    destruct (ingested rest) as [|im rest'] eqn:Hr; [done|].
    change (last (stamped_img :: im :: rest')) with (last (im :: rest')).
    destruct (last (im :: rest')) eqn:Hl; [done|]. by apply last_None in Hl.
Qed.

(** X18: the latest-frame cell holds one frame, the one ingested last: in
    a session that starts on an empty cell, a worker that copies the frame
    gets the most recently ingested one, never an older one. *)
Theorem snapshot_is_latest_frame n evs s a s' :
  img_buf (global_img_buf_ n) = [] ->
  run evs (boot n) = Next s ->
  step (Snapshot a) s = Next s' ->
  exists stamped_img,
    last (ingested evs) = Some stamped_img /\
    img_buf (global_img_buf_ (shared s)) = [stamped_img] /\
    get a (worker_pc s') = WImage stamped_img.
Proof.
  intros Hempty Hrun Hstep.
  pose proof (run_cell evs (boot n) s Hrun) as Hcell. simpl in Hcell.
  unfold step, snapshot_step, from_exec, back in Hstep.
  destruct (stage_of a); [|done].
  destruct (get a (worker_pc s)); try done.
  destruct (last (img_buf (global_img_buf_ (shared s)))) as [im|] eqn:Hlast; [|done].
  simplify_eq. simpl. rewrite get_set_eq.
  destruct (last (ingested evs)) as [im'|].
  - rewrite Hcell in Hlast. injection Hlast as ->. by exists im.
  - rewrite Hcell, Hempty in Hlast. done.
Qed.

Lemma snapshot_is_latest_frame_witness :
  exists stamped_img,
    last (ingested ([Ingest frame1] ++ manager_round Main
                    ++ [Ingest frame2; Wake Body])) = Some stamped_img /\
    stamped_img = frame2.
Proof.
  destruct (snapshot_is_latest_frame (active (only [Body]))
              ([Ingest frame1] ++ manager_round Main ++ [Ingest frame2; Wake Body])
              (final ([Ingest frame1] ++ manager_round Main
                      ++ [Ingest frame2; Wake Body]) (boot (active (only [Body]))))
              Body
              (final ([Ingest frame1] ++ manager_round Main
                      ++ [Ingest frame2; Wake Body; Snapshot Body])
                     (boot (active (only [Body])))))
    as (im & Hlast & _ & Hpc).
  - reflexivity.
  - by vm_compute.
  - by vm_compute.
  - exists im. split; [exact Hlast|]. vm_compute in Hpc. by injection Hpc.
Defined.

Lemma back_nonempty {A} (v : list A) : v <> [] -> exists a, back v = Done a.
Proof.
  intros Hv. unfold back. destruct (last v) as [a|] eqn:E; [by exists a|].
  by apply last_None in E.
Qed.

Lemma boot_supplied n :
  is_called n = every false ->
  (img_buf (global_img_buf_ n) = [] -> img_filled (global_img_buf_ n) = false) ->
  (body_infos (body_results_ n) = [] -> body_filled (body_results_ n) = false) ->
  supplied (boot n).
Proof.
  intros Hflags Himg Hbody [|]; (split; [|done]); intros Hempty;
    unfold stage_idle; simpl in *; rewrite Hflags; (split; [auto|]);
    (split; [done|]); by repeat constructor.
Qed.

Lemma trigger_img a n : global_img_buf_ (trigger a n) = global_img_buf_ n.
Proof. unfold trigger. by repeat case_match. Qed.

Lemma trigger_body a n : body_results_ (trigger a n) = body_results_ n.
Proof. unfold trigger. by repeat case_match. Qed.

Lemma step_supplied e s s' : supplied s -> step e s = Next s' -> supplied s'.
Proof.
  intros Hinv Hstep.
  destruct e as [im|st now|a|a|a r|a].
  - step_inv Hstep. open_supplied Hinv; rewrite ?trigger_img, ?trigger_body;
      enter_supplied; close_idle.
  - unfold step, manager_step in Hstep.
    destruct st; simpl in Hstep; repeat case_match; simplify_eq;
      open_supplied Hinv; rewrite ?trigger_img, ?trigger_body;
      enter_supplied; close_idle.
    all: destruct a; simpl in *; try discriminate;
      unfold trigger; repeat case_match; simpl; close_idle.
  - unfold step, wake_step in Hstep.
    destruct a; simpl in Hstep; repeat case_match; simplify_eq;
      open_supplied Hinv; rewrite ?trigger_img, ?trigger_body;
      enter_supplied; close_idle.
  - unfold step, snapshot_step, from_exec in Hstep.
    destruct a; simpl in Hstep; repeat case_match; simplify_eq;
      open_supplied Hinv; rewrite ?trigger_img, ?trigger_body;
      enter_supplied; close_idle.
  - unfold step, infer_step, from_exec, note_lost in Hstep.
    destruct a; simpl in Hstep; repeat case_match; simplify_eq;
      open_supplied Hinv; rewrite ?trigger_img, ?trigger_body;
      enter_supplied; close_idle.
    all: by destruct (app_cons_not_nil _ _ _ (eq_sym Hempty)).
  - unfold step, store_step, from_exec in Hstep.
    destruct a; simpl in Hstep; repeat case_match; simplify_eq;
      open_supplied Hinv; rewrite ?trigger_img, ?trigger_body;
      enter_supplied; close_idle.
Qed.

Lemma reachable_supplied n evs s :
  is_called n = every false ->
  (img_buf (global_img_buf_ n) = [] -> img_filled (global_img_buf_ n) = false) ->
  (body_infos (body_results_ n) = [] -> body_filled (body_results_ n) = false) ->
  run evs (boot n) = Next s -> supplied s.
Proof.
  intros Hflags Himg Hbody.
  apply (run_invariant supplied step_supplied). by apply boot_supplied.
Qed.

(** X19: in a session that starts with no trigger flag set and with no
    manager trigger raised on an empty input, no worker ever calls
    [back()] on an empty vector: a stage-1 worker finds a frame in the
    latest-frame cell and a stage-2 worker finds an entry in the
    detection history, whatever the schedule. *)
Theorem workers_find_their_input n evs s a r :
  is_called n = every false ->
  (img_buf (global_img_buf_ n) = [] -> img_filled (global_img_buf_ n) = false) ->
  (body_infos (body_results_ n) = [] -> body_filled (body_results_ n) = false) ->
  run evs (boot n) = Next s ->
  (forall i k, step (Snapshot a) s <> Undefined i k) /\
  (forall i k, step (Infer a r) s <> Undefined i k).
Proof.
  intros Hflags Himg Hbody Hrun.
  pose proof (reachable_supplied n evs s Hflags Himg Hbody Hrun) as Hinv.
  destruct (Hinv Main) as [HM _], (Hinv Depend) as [HD _].
  unfold stage_idle, stage_input_empty in *; simpl in *.
  split; intros i k.
  - unfold snapshot_step, from_exec.
    destruct (stage_of a) eqn:Hst; [|done].
    destruct (get a (worker_pc s)) eqn:Hpc; try done.
    destruct (back_nonempty (img_buf (global_img_buf_ (shared s)))) as [im ->]; [|done].
    intros Hempty. destruct (HM Hempty) as (_ & _ & Hw). split_Forall.
    destruct a; simpl in *; congruence.
  - unfold infer_step, from_exec.
    assert (get a (worker_pc s) = WAwake -> stage_of a = Depend ->
            exists entry, back (body_infos (body_results_ (shared s))) = Done entry)
      as Hback.
    { intros Hpc Hst. apply back_nonempty. intros Hempty.
      destruct (HD Hempty) as (_ & _ & Hw). split_Forall.
      destruct a; simpl in *; congruence. }
    destruct a, r; simpl in *; try done;
      match goal with
      | |- context [match ?pc with _ => _ end] => destruct pc eqn:Hpc
      end; try done;
      by destruct (Hback eq_refl eq_refl) as [entry ->].
Qed.

Lemma workers_find_their_input_witness :
  let s := final (firstn 15 gesture_before_body)
                 (boot (active (only [Body; Gesture]))) in
  (forall i k, step (Snapshot Gesture) s <> Undefined i k) /\
  (forall i k, step (Infer Gesture (RGesture 0 [])) s <> Undefined i k).
Proof.
  intros s.
  apply (workers_find_their_input (active (only [Body; Gesture]))
           (firstn 15 gesture_before_body)).
  - reflexivity.
  - reflexivity.
  - reflexivity.
  - by vm_compute.
Defined.

(** ** A session that starts with the counter off zero *)

Lemma step_offset k e s s' : offset k s -> step e s = Next s' -> offset k s'.
Proof.
  intros (Hact & Hnum & Hexit) Hstep. unfold offset, pending in *.
  destruct e as [im|st now|a|a|a r|a].
  - step_inv Hstep. by simpl.
  - unfold step, manager_step in Hstep.
    destruct st; simpl in Hstep; repeat case_match; simplify_eq; simpl;
      try (split; [done|split; [done|done]]);
      try (split; [by rewrite (proj1 (trigger_frame _ _))|split; [|done]];
           pose proof (trigger_counted a (shared s)); lia).
  - unfold step, wake_step in Hstep. rewrite Hact in Hstep.
    destruct a; simpl in Hstep; repeat case_match; simplify_eq;
      solve_counted Hnum Hexit.
  - unfold step, snapshot_step, from_exec in Hstep.
    destruct a; simpl in Hstep; repeat case_match; simplify_eq;
      solve_counted Hnum Hexit.
  - unfold step, infer_step, from_exec, note_lost in Hstep.
    destruct a; simpl in Hstep; repeat case_match; simplify_eq;
      solve_counted Hnum Hexit.
  - unfold step, store_step, from_exec in Hstep.
    destruct a; simpl in Hstep; repeat case_match; simplify_eq;
      solve_counted Hnum Hexit.
Qed.

Lemma offset_positive k s : offset k s -> k <= process_num (shared s).
Proof.
  intros (_ & Hnum & _). unfold pending in Hnum.
  pose proof (total_nonneg b2z (is_called (shared s)) b2z_nonneg).
  pose proof (total_nonneg busy (worker_pc s) busy_nonneg). lia.
Qed.

Lemma step_publishes_at_zero e s s' :
  step e s = Next s' ->
  person_pub s' = person_pub s \/ process_num (shared s) = 0.
Proof.
  intros Hstep. destruct e as [im|st now|a|a|a r|a].
  - left. by step_inv Hstep.
  - unfold step, manager_step in Hstep.
    destruct st; simpl in Hstep; repeat case_match; simplify_eq; simpl;
      try (by left); right; by apply Z.eqb_eq.
  - left. by step_inv Hstep.
  - left. by step_inv Hstep.
  - left. unfold step, infer_step, from_exec, note_lost in Hstep.
    by repeat case_match; simplify_eq.
  - left. by step_inv Hstep.
Qed.

Lemma run_unpublished k evs : forall s s',
  0 < k -> offset k s -> run evs s = Next s' ->
  offset k s' /\ person_pub s' = person_pub s.
Proof.
  induction evs as [|e rest IH]; intros s s' Hk Hoff Hrun; simpl in Hrun.
  - by simplify_eq.
  - destruct (step e s) as [s1| |] eqn:E; try done.
    destruct (IH s1 s' Hk (step_offset k e s s1 Hoff E) Hrun) as [Hoff' ->].
    split; [done|].
    destruct (step_publishes_at_zero e s s1 E) as [|Hzero]; [done|].
    pose proof (offset_positive k s Hoff). lia.
Qed.

(** X20: a session that is started with no trigger flag set on a node
    whose counter of outstanding work is above zero, as a deactivation
    that cut off a pending trigger leaves it, never publishes a frame
    report, whatever is enabled and whatever the schedule: the counter
    stays above zero, by exactly the amount it started with beyond the
    pending triggers. *)
Theorem stranded_session_never_publishes n evs s :
  is_activate_ n = true -> is_called n = every false -> 0 < process_num n ->
  run evs (boot n) = Next s ->
  person_pub s = [] /\
  process_num (shared s) = pending s + process_num n /\
  0 < process_num (shared s).
Proof.
  intros Hact Hflags Hpos Hrun.
  assert (offset (process_num n) (boot n)) as Hoff.
  { unfold offset, pending; simpl. rewrite Hflags.
    split; [done|]. split; [by unfold total|]. by intros []. }
  destruct (run_unpublished _ evs _ _ Hpos Hoff Hrun) as [Hoff' Hpub].
  split; [done|]. split; [by destruct Hoff' as (_ & ? & _)|].
  pose proof (offset_positive _ _ Hoff'). lia.
Qed.

Lemma stranded_session_never_publishes_witness :
  let s := final (firstn 10 body_cycle) (boot reactivated) in
  person_pub s = [] /\
  process_num (shared s) = pending s + process_num reactivated /\
  0 < process_num (shared s).
Proof.
  intros s.
  apply (stranded_session_never_publishes reactivated (firstn 10 body_cycle)).
  - by vm_compute.
  - by vm_compute.
  - by vm_compute.
  - by vm_compute.
Defined.

(** ** Status reports *)

Lemma other_step_status e s s' :
  is_manager e = false -> step e s = Next s' -> status_pub s' = status_pub s.
Proof.
  intros He Hstep. destruct e as [im|st' now|a|a|a r|a]; try done.
  - by step_inv Hstep.
  - by step_inv Hstep.
  - by step_inv Hstep.
  - unfold step, infer_step, from_exec, note_lost in Hstep.
    by repeat case_match; simplify_eq.
  - by step_inv Hstep.
Qed.

Lemma step_status e s s' :
  step e s = Next s' ->
  if open_body_ (shared s) || open_focus_ (shared s)
  then (length (status_pub s') + at_status Main s' + at_status Depend s'
        + length (person_pub s)
        = length (status_pub s) + at_status Main s + at_status Depend s
          + length (person_pub s'))%nat
  else status_pub s' = status_pub s.
Proof.
  intros Hstep. destruct (is_manager e) eqn:He.
  - destruct e as [im|st now|a|a|a r|a]; try done.
    unfold step, manager_step in Hstep.
    destruct st; simpl in Hstep; repeat case_match; simplify_eq;
      unfold at_status; simpl in *;
      repeat match goal with
             | H : main_pc _ = _ |- _ => rewrite H
             | H : depend_pc _ = _ |- _ => rewrite H
             end;
      rewrite ?length_app; simpl; try done; try lia; try congruence.
  - destruct (other_step_manager_pc e s s' Main He Hstep) as [HM Hpub].
    destruct (other_step_manager_pc e s s' Depend He Hstep) as [HD _].
    rewrite (other_step_status e s s' He Hstep).
    unfold at_status. rewrite HM, HD, Hpub. by destruct (_ || _).
Qed.

(** X21: status reports follow frame reports one for one.  With Body or
    Focus enabled, every state of a session has as many status reports
    published as frame reports, less one for each manager that has just
    published its frame report and not yet its status; with neither
    enabled no status report is ever published. *)
Theorem status_follows_report n evs s :
  run evs (boot n) = Next s ->
  if open_body_ n || open_focus_ n
  then (length (status_pub s) + at_status Main s + at_status Depend s
        = length (person_pub s))%nat
  else status_pub s = [].
Proof.
  intros Hrun.
  assert (forall evs s0 s1,
    run evs s0 = Next s1 ->
    open_ (shared s1) = open_ (shared s0) /\
    if open_body_ (shared s0) || open_focus_ (shared s0)
    then (length (status_pub s1) + at_status Main s1 + at_status Depend s1
          + length (person_pub s0)
          = length (status_pub s0) + at_status Main s0 + at_status Depend s0
            + length (person_pub s1))%nat
    else status_pub s1 = status_pub s0) as Hgen.
  { clear. induction evs as [|e rest IH]; intros s0 s1 Hrun; simpl in Hrun.
    - simplify_eq. split; [done|]. by destruct (_ || _).
    - destruct (step e s0) as [s2| |] eqn:E; try done.
      destruct (IH s2 s1 Hrun) as [Hopen Hrest].
      destruct (step_frame e s0 s2 E) as [Hopen2 _].
      split; [congruence|].
      pose proof (step_status e s0 s2 E) as Hone.
      unfold open_body_, open_focus_ in *. rewrite Hopen2 in Hrest.
      destruct (get Body (open_ (shared s0)) || get Focus (open_ (shared s0)));
        [lia|congruence]. }
  destruct (Hgen evs (boot n) s Hrun) as [_ Hs]. simpl in Hs.
  destruct (open_body_ n || open_focus_ n); [|done].
  change (at_status Main (boot n)) with 0%nat in Hs.
  change (at_status Depend (boot n)) with 0%nat in Hs. lia.
Qed.

Lemma status_follows_report_witness :
  let s := final body_cycle (boot (active (only [Body]))) in
  (length (status_pub s) + at_status Main s + at_status Depend s
   = length (person_pub s))%nat /\
  length (status_pub s) = 1%nat.
Proof.
  intros s. split; [|by vm_compute].
  exact (status_follows_report (active (only [Body])) body_cycle s
           ltac:(by vm_compute)).
Defined.

(** ** Configuration *)

(** X22: [InitIPC] makes its six calls in a fixed order and stops at the
    first one that fails: the calls made are a prefix of the six, every
    call but the last made has succeeded, and the code is 0 exactly when
    all six have.  [on_configure] returns SUCCESS exactly in that case,
    and only then have the engines, services and publishers been
    created. *)
Theorem on_configure_fails_fast ok :
  let made := snd (InitIPC ok) in
  made `prefix_of` ipc_calls /\
  Forall (fun c => ok c = true) (take (length made - 1) made) /\
  (fst (InitIPC ok) = 0 <-> Forall (fun c => ok c = true) ipc_calls) /\
  (fst (InitIPC ok) = 0 \/ fst (InitIPC ok) = -1) /\
  (fst (on_configure ok) = SUCCESS <-> fst (InitIPC ok) = 0) /\
  (snd (on_configure ok) = true <-> fst (on_configure ok) = SUCCESS).
Proof.
  unfold on_configure, Init, InitIPC, ipc_calls.
  destruct (ok CreateShm) eqn:H1; simpl;
    [destruct (ok GetShmAddr) eqn:H2; simpl;
     [destruct (ok (CreateSem 3)) eqn:H3; simpl;
      [destruct (ok (SetSemInitVal 0 1)) eqn:H4; simpl;
       [destruct (ok (SetSemInitVal 1 1)) eqn:H5; simpl;
        [destruct (ok (SetSemInitVal 2 0)) eqn:H6; simpl|]|]|]|]|].
  all: split; [by eexists|].
  all: split; [by repeat constructor|].
  all: split; [split; [intros; try done|intros Hall]|].
  all: try (repeat constructor; done).
  all: try (repeat match goal with
                   | H : Forall _ (_ :: _) |- _ => apply Forall_cons in H as [? H]
                   end; congruence).
  all: split; [auto|]. all: by split.
Qed.

(** ** The gesture engine's wrapper *)

(** X23: the two box conversions of [GetGestureInfo] are inverse to each
    other.  With an engine that reports the boxes it was given, the call
    appends to the caller's list, in order, exactly the body boxes of the
    first [max_person_num_] bodies (5 unless [SetRecognitionNum] set
    another number), each with the engine's label; what the list held
    before stays in front. *)
Theorem GetGestureInfo_round_trip lbl this img body_boxes infos :
  Forall box_in_range body_boxes ->
  GetGestureInfo (echo_engine lbl) this img body_boxes infos
  = infos ++ map (fun b => mkGestureInfo (body_box b) lbl)
                 (take (Z.to_nat (max_person_num_ this)) body_boxes).
Proof.
  intros Hr. unfold GetGestureInfo, echo_engine. f_equal.
  generalize (Z.to_nat (max_person_num_ this)) as k.
  induction Hr as [|b l (?&?&?&?&?&?) _ IH]; intros k.
  - by destruct k.
  - destruct k as [|k]; [done|]. simpl. rewrite IH. f_equal.
    unfold is_int in *. destruct b as [[x y w h] sc]; simpl in *.
    rewrite (i32_small (x + w)), (i32_small (y + h)) by lia.
    rewrite !i32_small by lia. do 2 f_equal; lia.
Qed.

Lemma GetGestureInfo_round_trip_witness :
  GetGestureInfo (echo_engine 3) (SetRecognitionNum 1 GestureRecognition_new) 0
    [mkInferBbox (mkRect 10 10 50 50) 1; mkInferBbox (mkRect 200 200 30 30) 1]
    [gesture_A]
  = [gesture_A; mkGestureInfo (mkRect 10 10 50 50) 3].
Proof.
  apply (GetGestureInfo_round_trip 3 (SetRecognitionNum 1 GestureRecognition_new) 0
           [mkInferBbox (mkRect 10 10 50 50) 1; mkInferBbox (mkRect 200 200 30 30) 1]
           [gesture_A]).
  repeat constructor; unfold is_int; simpl; lia.
Defined.

(** ** The face conversion *)

Lemma at_index_short {A} (v : list A) (i : nat) :
  (length v <= i)%nat -> at_index v (Z.of_nat i) = OutOfRange (Z.of_nat i) (size v).
Proof.
  intros Hlen. unfold at_index, size.
  destruct (Z.leb_spec (Z.of_nat (length v)) (Z.of_nat i)); [done|lia].
Qed.

Lemma Convert_one_face_complete f :
  face_complete f ->
  exists face,
    Convert_one_face f = Done face /\ face_id face = mf_face_id f /\
    face_roi face = mkROI (u32 (mf_left f)) (u32 (mf_top f))
                          (u32 (mf_right f - mf_left f))
                          (u32 (mf_bottom f - mf_top f)).
Proof.
  intros (Hp & Ha & He). unfold Convert_one_face.
  destruct (lookup_lt_is_Some_2 (poses f) 0 ltac:(lia)) as [yaw Hyaw].
  destruct (lookup_lt_is_Some_2 (poses f) 1 ltac:(lia)) as [pitch Hpitch].
  destruct (lookup_lt_is_Some_2 (poses f) 2 ltac:(lia)) as [row Hrow].
  destruct (lookup_lt_is_Some_2 (ages f) 0 ltac:(lia)) as [age Hage].
  destruct (lookup_lt_is_Some_2 (emotions f) 0 ltac:(lia)) as [emo Hemo].
  apply at_index_lookup in Hyaw, Hpitch, Hrow, Hage, Hemo.
  change (Z.of_nat 0) with 0 in *. change (Z.of_nat 1) with 1 in *.
  change (Z.of_nat 2) with 2 in *.
  rewrite Hyaw, Hpitch, Hrow, Hage, Hemo.
  eexists. split; [reflexivity|]. by split.
Qed.

Lemma Convert_one_face_incomplete f :
  ~ face_complete f -> exists i k, Convert_one_face f = OutOfRange i k.
Proof.
  intros Hn. unfold Convert_one_face.
  destruct (at_index (poses f) 0) as [yaw|] eqn:E0; [|by eauto].
  destruct (at_index (poses f) 1) as [pitch|] eqn:E1; [|by eauto].
  destruct (at_index (poses f) 2) as [row|] eqn:E2; [|by eauto].
  destruct (at_index (ages f) 0) as [age|] eqn:E3; [|by eauto].
  destruct (at_index (emotions f) 0) as [emo|] eqn:E4; [|by eauto].
  exfalso. apply Hn. unfold face_complete.
  pose proof (at_index_short (poses f) 2) as S2.
  pose proof (at_index_short (ages f) 0) as S3.
  pose proof (at_index_short (emotions f) 0) as S4.
  change (Z.of_nat 0) with 0 in *. change (Z.of_nat 2) with 2 in *.
  destruct (decide (3 <= length (poses f))%nat) as [|Hs];
    [|rewrite S2 in E2 by lia; done].
  destruct (decide (1 <= length (ages f))%nat) as [|Hs];
    [|rewrite S3 in E3 by lia; done].
  destruct (decide (1 <= length (emotions f))%nat) as [|Hs];
    [|rewrite S4 in E4 by lia; done].
  done.
Qed.

(** X25: the face conversion reads three pose angles, one age and one
    emotion of every face without testing that the engine has filled them
    in.  When every face has them, the conversion succeeds and the report
    lists the faces in the engine's order, each with its identity and with
    the region spanned by the engine's corners; as soon as one face lacks
    one of them, the conversion reads outside a vector. *)
Theorem Convert_face_complete h from to :
  (Forall face_complete from ->
   exists faces,
     Convert_face h from to = Done (mkFaceInfo h (size from) faces) /\
     length faces = length from /\
     forall (i : nat) f, from !! i = Some f ->
       exists face,
         faces !! i = Some face /\ face_id face = mf_face_id f /\
         face_roi face = mkROI (u32 (mf_left f)) (u32 (mf_top f))
                               (u32 (mf_right f - mf_left f))
                               (u32 (mf_bottom f - mf_top f))) /\
  (Exists (fun f => ~ face_complete f) from ->
   exists i k, Convert_face h from to = OutOfRange i k).
Proof.
  unfold Convert_face. split.
  - intros Hall.
    assert (exists faces,
              Convert_faces from = Done faces /\ length faces = length from /\
              forall (i : nat) f, from !! i = Some f ->
                exists face,
                  faces !! i = Some face /\ face_id face = mf_face_id f /\
                  face_roi face = mkROI (u32 (mf_left f)) (u32 (mf_top f))
                                        (u32 (mf_right f - mf_left f))
                                        (u32 (mf_bottom f - mf_top f)))
      as (faces & -> & Hlen & Hget).
    { induction Hall as [|f rest Hf _ (faces & E & Hlen & Hget)]; simpl.
      - exists []. by repeat split.
      - destruct (Convert_one_face_complete f Hf) as (face & -> & Hid & Hroi).
        rewrite E. exists (face :: faces). split; [done|].
        split; [by simpl; rewrite Hlen|].
        intros [|i] f' Hi; simpl in *; [|by apply Hget].
        injection Hi as <-. by exists face. }
    by exists faces.
  - intros Hex.
    assert (exists i k, Convert_faces from = OutOfRange i k) as (i & k & ->);
      [|by exists i, k].
    induction from as [|f rest IH]; [by apply Exists_nil in Hex|]; simpl.
    destruct (Convert_one_face f) as [face|i k] eqn:E; [|by exists i, k].
    apply Exists_cons in Hex as [Hf|Hrest].
    + destruct (Convert_one_face_incomplete f Hf) as (i & k & E'). congruence.
    + destruct (IH Hrest) as (i & k & ->). by exists i, k.
Qed.

(** ** What a store block leaves alone *)

Lemma write_by_position_done {A} (f : A -> BodyT -> BodyT) from to l :
  write_by_position f from 0 to = Done l -> (length from <= length to)%nat.
Proof.
  intros E. destruct (decide (length from <= length to)%nat) as [|Hn]; [done|].
  change 0 with (Z.of_nat 0) in E.
  rewrite write_by_position_overrun in E by lia. done.
Qed.

Lemma write_by_position_kept {A} (f : A -> BodyT -> BodyT) from to l :
  (forall a b, roi (f a b) = roi b /\ reid (f a b) = reid b) ->
  write_by_position f from 0 to = Done l ->
  length l = length to /\
  forall (j : nat) b', l !! j = Some b' ->
    exists b, to !! j = Some b /\ roi b' = roi b /\ reid b' = reid b.
Proof.
  intros Hf E. pose proof (write_by_position_done f from to l E) as Hlen.
  destruct (write_by_position_aligned f from 0 to ltac:(lia)) as (l' & E' & Hl & Hget).
  change (Z.of_nat 0) with 0 in E'. rewrite E in E'. injection E' as <-.
  split; [done|]. intros j b' Hj.
  destruct (lookup_lt_is_Some_2 to j) as [b Hb].
  { rewrite <- Hl. by eapply lookup_lt_Some. }
  exists b. split; [done|]. rewrite (Hget j b Hb) in Hj. injection Hj as <-.
  destruct (decide (0 <= j)%nat); [|lia].
  destruct (from !! (j - 0)%nat); [apply Hf|done].
Qed.

(** X26: every store block writes its own part of the report and leaves
    the rest as it was.  Body rebuilds the body list, one entry per
    detection; Face writes the face list only; Focus and ReID write the
    tracking result only (ReID leaves the body list alone, as the ReID
    annotation never lands); Gesture and Keypoints keep the number of
    bodies, and the region and ReID annotation of each.  None touches the
    report's own header. *)
Theorem store_writes_own_fields o p p' :
  write_result o p = Done p' ->
  person_header p' = person_header p /\
  match o with
  | OBody _ detected =>
      face_info p' = face_info p /\ track_res p' = track_res p /\
      length (infos (body_info p')) = length detected
  | OFace _ _ => body_info p' = body_info p /\ track_res p' = track_res p
  | OFocus _ _ _ | OReID _ _ =>
      body_info p' = body_info p /\ face_info p' = face_info p
  | OGesture _ _ | OKeypoints _ =>
      face_info p' = face_info p /\ track_res p' = track_res p /\
      body_header (body_info p') = body_header (body_info p) /\
      count (body_info p') = count (body_info p) /\
      length (infos (body_info p')) = length (infos (body_info p)) /\
      forall (j : nat) b', infos (body_info p') !! j = Some b' ->
        exists b, infos (body_info p) !! j = Some b /\
                  roi b' = roi b /\ reid b' = reid b
  end.
Proof.
  destruct o; simpl.
  - intros [= <-]. simpl. by rewrite length_map.
  - destruct (Convert_face h faces (face_info p)); [|done]. by intros [= <-].
  - destruct is_success; by intros [= <-].
  - destruct (negb (person_id =? -1)); [|by intros [= <-]].
    destruct (decide (infos (body_info p) = [])) as [Hnil|Hne].
    + by rewrite (AddReid_empty _ _ _ Hnil).
    + rewrite (AddReid_nonempty _ _ _ Hne).
      intros [= <-]. simpl. by destruct p.
  - destruct is_success; [|intros [= <-]; repeat split; eauto].
    unfold Convert_gesture.
    destruct (write_by_position _ gestures 0 (infos (body_info p))) as [l|] eqn:E;
      [|done].
    intros [= <-]. simpl.
    pose proof (fun Hf => write_by_position_kept _ gestures _ l Hf E) as Hk.
    destruct Hk as [Hlen Hget]; [by intros|]. by repeat split.
  - unfold Convert_keypoints.
    destruct (write_by_position _ bodies_keypoints 0 (infos (body_info p)))
      as [l|] eqn:E; [|done].
    intros [= <-]. simpl.
    pose proof (fun Hf => write_by_position_kept _ bodies_keypoints _ l Hf E) as Hk.
    destruct Hk as [Hlen Hget]; [by intros|]. by repeat split.
Qed.

Lemma store_writes_own_fields_witness :
  exists p',
    write_result (OGesture true [gesture_A])
      (set_body_info (Convert_body header0 [body_A] (mkBodyInfo header0 0 []))
                     person_info0) = Done p' /\
    length (infos (body_info p')) = 1%nat /\
    face_info p' = face_info person_info0.
Proof.
  eexists. split; [reflexivity|].
  match goal with
  | |- length (infos (body_info ?q)) = _ /\ _ =>
      destruct (store_writes_own_fields (OGesture true [gesture_A])
                  (set_body_info (Convert_body header0 [body_A] (mkBodyInfo header0 0 []))
                                 person_info0) q eq_refl)
        as (_ & Hface & _ & _ & _ & Hlen & _)
  end.
  split; [exact Hlen|exact Hface].
Defined.

(** ** The tracking status during a session *)

Lemma step_status_value e s s' :
  step e s = Next s' ->
  processing_status_ (shared s')
  = if reports_lost e then STATUS_SELECTING else processing_status_ (shared s).
Proof.
  intros Hstep. destruct e as [im|st now|a|a|a r|a].
  - by step_inv Hstep.
  - unfold step, manager_step in Hstep.
    destruct st; simpl in Hstep; repeat case_match; simplify_eq; simpl;
      try done; unfold trigger; by repeat case_match.
  - by step_inv Hstep.
  - by step_inv Hstep.
  - unfold step, infer_step, from_exec, note_lost in Hstep.
    destruct a, r; simpl in *; repeat case_match; simplify_eq; simpl; done.
  - by step_inv Hstep.
Qed.

(** X27: the threads of a session never set the status to "tracking".
    After a run the status is "selecting" if during the run the Focus or
    the ReID engine has reported its target lost, and otherwise what it
    was when the run began: the status becomes "tracking" through
    [TrackingService] alone. *)
Theorem status_only_falls_back evs s s' :
  run evs s = Next s' ->
  processing_status_ (shared s')
  = if existsb reports_lost evs then STATUS_SELECTING
    else processing_status_ (shared s).
Proof.
  revert s. induction evs as [|e rest IH]; intros s Hrun; simpl in Hrun.
  - by simplify_eq.
  - destruct (step e s) as [s1| |] eqn:E; try done.
    rewrite (IH s1 Hrun), (step_status_value e s s1 E). simpl.
    by destruct (reports_lost e), (existsb reports_lost rest).
Qed.

Lemma status_only_falls_back_witness :
  processing_status_
    (shared (final ([Ingest frame1] ++ manager_round Main
                    ++ [Wake Focus; Snapshot Focus;
                        Infer Focus (RFocus false rect0 true)])
                   (boot (set_processing_status STATUS_TRACKING
                            (active (only [Focus]))))))
  = STATUS_SELECTING.
Proof.
  apply (status_only_falls_back
           ([Ingest frame1] ++ manager_round Main
            ++ [Wake Focus; Snapshot Focus; Infer Focus (RFocus false rect0 true)])
           (boot (set_processing_status STATUS_TRACKING (active (only [Focus]))))).
  by vm_compute.
Defined.

(** ** The stage-2 trigger and the publication test *)

(** X28: the trigger of stage 2 is raised by nothing but a body detection
    that succeeded: a step that raises [body_results_.is_filled] is the
    engine call of the Body worker with a result other than -1, and the
    same step has made that detection the most recent history entry and
    the worker's frame the stored detection image. *)
Theorem stage2_trigger_source e s s' :
  step e s = Next s' ->
  body_filled (body_results_ (shared s)) = false ->
  body_filled (body_results_ (shared s')) = true ->
  exists ret detected stamped_img,
    e = Infer Body (RBody ret detected) /\ ret <> -1 /\
    get Body (worker_pc s) = WImage stamped_img /\
    last (body_infos (body_results_ (shared s'))) = Some detected /\
    detection_img (body_results_ (shared s')) = stamped_img.
Proof.
  intros Hstep Hbefore Hafter. destruct e as [im|st now|a|a|a r|a].
  - step_inv Hstep. simpl in *. congruence.
  - unfold step, manager_step in Hstep.
    destruct st; simpl in Hstep; repeat case_match; simplify_eq; simpl in *;
      rewrite ?trigger_body in *; congruence.
  - step_inv Hstep; simpl in *; congruence.
  - step_inv Hstep; simpl in *; congruence.
  - unfold step, infer_step, from_exec, note_lost in Hstep.
    destruct a, r; simpl in *; repeat case_match; simplify_eq; simpl in *;
      try congruence.
    exists ret, detected, stamped_img. split; [done|]. split.
    + intros ->. done.
    + split; [done|]. split; [by rewrite last_snoc|done].
  - step_inv Hstep; simpl in *; congruence.
Qed.

Lemma stage2_trigger_source_witness :
  let s := final ([Ingest frame1] ++ manager_round Main
                  ++ [Wake Body; Snapshot Body])
                 (boot (active (only [Body; Gesture]))) in
  exists ret detected stamped_img,
    Infer Body (RBody 0 [body_A]) = Infer Body (RBody ret detected) /\
    ret <> -1 /\ get Body (worker_pc s) = WImage stamped_img /\
    stamped_img = frame1.
Proof.
  intros s.
  destruct (stage2_trigger_source (Infer Body (RBody 0 [body_A])) s
              (final [Infer Body (RBody 0 [body_A])] s))
    as (ret & detected & im & He & Hret & Hpc & _ & Himg).
  - by vm_compute.
  - by vm_compute.
  - by vm_compute.
  - exists ret, detected, im. split; [exact He|]. split; [exact Hret|].
    split; [exact Hpc|]. rewrite <- Himg. by vm_compute.
Defined.

(** X29: a manager that waits for the counter can publish exactly when
    no work is outstanding: in a state of an Active session in which a
    manager is in its wait for [0 == process_num], its next step is
    enabled if and only if every trigger flag is clear and every worker
    is back in its wait. *)
Theorem publication_enabled_when_idle n evs s st now :
  quiescent n -> run evs (boot n) = Next s ->
  manager_pc st s = MWaitZero ->
  (forall a, get a (is_called (shared s)) = false /\ get a (worker_pc s) = WWait)
  <-> exists s', step (Manager st now) s = Next s'.
Proof.
  intros Hq Hrun Hpc.
  pose proof (reachable_counted n evs s Hq Hrun) as Hc.
  assert (step (Manager st now) s
          = if process_num (shared s) =? 0
            then Next (set_manager_pc st MStatus
                         (publish_person
                            (set_person_header (mkHeader now)
                               (algo_result_ (shared s)))
                            (set_shared (set_algo_result person_info0 (shared s)) s)))
            else NotEnabled) as Hstep.
  { unfold step, manager_step. by rewrite Hpc. }
  rewrite Hstep. split.
  - intros Hidle. destruct Hc as (_ & Hnum & _). unfold pending in Hnum.
    assert (process_num (shared s) = 0) as ->; [|by eexists].
    rewrite Hnum. unfold total.
    pose proof (Hidle Body) as [? ?]. pose proof (Hidle Face) as [? ?].
    pose proof (Hidle Focus) as [? ?]. pose proof (Hidle ReID) as [? ?].
    pose proof (Hidle Gesture) as [? ?]. pose proof (Hidle Keypoints) as [? ?].
    simpl in *.
    repeat match goal with H : _ = false |- _ => rewrite H; clear H end.
    repeat match goal with H : _ = WWait |- _ => rewrite H; clear H end.
    done.
  - intros [s' Hs'] a.
    destruct (Z.eqb_spec (process_num (shared s)) 0) as [Hz|]; [|done].
    by apply counted_zero.
Qed.

Lemma publication_enabled_when_idle_witness :
  let s := final (firstn 10 body_cycle) (boot (active (only [Body]))) in
  exists s', step (Manager Main 7) s = Next s'.
Proof.
  intros s.
  apply (proj1 (publication_enabled_when_idle (active (only [Body]))
                  (firstn 10 body_cycle) s Main 7
                  ltac:(by vm_compute) ltac:(by vm_compute) ltac:(by vm_compute))).
  intros a. by destruct a; vm_compute.
Defined.
